(** * Babbl front-end: shortcut recorder, input normalizer, overlay presenter

    A shallow embedding of the logic of
    - [src/lib/utils/keyboard.ts]      (module [Keyboard]),
    - [BabblShortcut.tsx]              (module [Shortcut]),
    - [RecordingOverlay.tsx] and the [TranslateToEnglish] effect
                                       (modules [Overlay], [OverlayRun]),
    - [Sidebar], [OnlineProviderSettings], [TranslateToEnglish] and
      [Onboarding]                     (module [Panels]),
    - what [BabblShortcut] renders     (module [View]),
    followed by the properties established about them.

    Conventions of the embedding.
    - A JavaScript string is a [string] of 8-bit characters; case mapping
      acts on the ASCII letters, and the white space removed by [trim] is
      the ASCII white space (tab, line feed, vertical tab, form feed,
      carriage return, space).  Every token, code and table entry of the
      source is ASCII.
    - The empty string plays the role of a falsy (absent) string field,
      the number 0 that of a falsy number.
    - Object literals used as lookup tables are association lists; only
      their own entries are looked up.
    - JavaScript numbers holding an integer (button index, key code) are [Z];
      the microphone levels are binary64 numbers, the primitive [float] of
      Rocq, whose operations round as those of JavaScript do; what is
      proved about them rests on the specification of these operations in
      the Standard Library ([FloatAxioms]). *)

From Stdlib Require Import ZArith Lia List Bool Ascii String DecimalString DecimalPos.
From Stdlib Require Import Permutation Sorted Floats.
From stdpp Require Import gmap strings.
Import ListNotations.

Local Open Scope Z_scope.

(** ** JavaScript string primitives used by the sources *)

Module Js.

Definition is_digit (c : ascii) : bool :=
  (Ascii.leb "0" c && Ascii.leb c "9")%char.

Definition is_upper (c : ascii) : bool :=
  (Ascii.leb "A" c && Ascii.leb c "Z")%char.

Definition is_lower (c : ascii) : bool :=
  (Ascii.leb "a" c && Ascii.leb c "z")%char.

(** White space in the sense of [String.prototype.trim], on ASCII. *)
Definition is_space (c : ascii) : bool :=
  let n := nat_of_ascii c in
  ((9 <=? n) && (n <=? 13) || (n =? 32))%nat.

Definition lower_char (c : ascii) : ascii :=
  if is_upper c then ascii_of_nat (nat_of_ascii c + 32) else c.

Definition upper_char (c : ascii) : ascii :=
  if is_lower c then ascii_of_nat (nat_of_ascii c - 32) else c.

Fixpoint map_chars (f : ascii -> ascii) (s : string) : string :=
  match s with
  | EmptyString => EmptyString
  | String c r => String (f c) (map_chars f r)
  end.

Fixpoint all_chars (p : ascii -> bool) (s : string) : bool :=
  match s with
  | EmptyString => true
  | String c r => p c && all_chars p r
  end.

Definition toLowerCase : string -> string := map_chars lower_char.
Definition toUpperCase : string -> string := map_chars upper_char.

(** A string used as a condition: the empty string is falsy. *)
Definition truthy (s : string) : bool := negb (String.eqb s "").

Definition startsWith (s p : string) : bool := String.prefix p s.

Fixpoint drop (n : nat) (s : string) : string :=
  match n, s with
  | O, _ => s
  | S _, EmptyString => EmptyString
  | S m, String _ r => drop m r
  end.

(** [s.charAt(0)]: the first character as a string, or the empty string. *)
Definition charAt0 (s : string) : string :=
  match s with
  | EmptyString => EmptyString
  | String c _ => String c EmptyString
  end.

(** [s.slice(1)]. *)
Definition slice1 (s : string) : string := drop 1 s.

(** [s.replace(pat, rep)] with a string pattern: the first occurrence. *)
Fixpoint replace (pat rep s : string) : string :=
  if String.prefix pat s then rep +:+ drop (String.length pat) s
  else match s with
       | EmptyString => EmptyString
       | String c r => String c (replace pat rep r)
       end.

(** [s.split(sep)] for a one-character separator. *)
Fixpoint split (sep : ascii) (s : string) : list string :=
  match s with
  | EmptyString => [EmptyString]
  | String c r =>
      if Ascii.eqb c sep then EmptyString :: split sep r
      else match split sep r with
           | [] => [String c EmptyString]
           | w :: ws => String c w :: ws
           end
  end.

(** [l.join(sep)]. *)
Definition join (sep : string) (l : list string) : string :=
  String.concat sep l.

Fixpoint trimStart (s : string) : string :=
  match s with
  | EmptyString => EmptyString
  | String c r => if is_space c then trimStart r else s
  end.

Fixpoint trimEnd (s : string) : string :=
  match s with
  | EmptyString => EmptyString
  | String c r =>
      match trimEnd r with
      | EmptyString => if is_space c then EmptyString else String c EmptyString
      | r' => String c r'
      end
  end.

Definition trim (s : string) : string := trimEnd (trimStart s).

(** [l.includes(x)] on an array of strings. *)
Definition includes (x : string) (l : list string) : bool :=
  existsb (String.eqb x) l.

(** [table[k]] on an object literal with string values. *)
Fixpoint lookup_table (k : string) (t : list (string * string)) : option string :=
  match t with
  | [] => None
  | (k', v) :: t' => if String.eqb k k' then Some v else lookup_table k t'
  end.

(** Template interpolation of an integer. *)
Definition show_int (z : Z) : string := NilZero.string_of_int (Z.to_int z).

(** [s.replace(/([a-z])([A-Z])/g, "$1 $2")]: every non-overlapping match,
    left to right. *)
Fixpoint replace_camel (s : string) : string :=
  match s with
  | EmptyString => EmptyString
  | String c1 r =>
      match r with
      | EmptyString => s
      | String c2 r' =>
          if is_lower c1 && is_upper c2
          then String c1 (String " " (String c2 (replace_camel r')))
          else String c1 (replace_camel r)
      end
  end.

(** [/^<pre>\d$/] *)
Definition match_prefix_digit (pre s : string) : bool :=
  String.prefix pre s &&
  match drop (String.length pre) s with
  | String c EmptyString => is_digit c
  | _ => false
  end.

(** [/^<pre>(\d+)$/]: the captured digits. *)
Definition match_prefix_digits (pre s : string) : option string :=
  if String.prefix pre s then
    match drop (String.length pre) s with
    | EmptyString => None
    | ds => if all_chars is_digit ds then Some ds else None
    end
  else None.

(** [/^Key[A-Z]$/] *)
Definition match_key_letter (s : string) : bool :=
  String.prefix "Key" s &&
  match drop 3 s with
  | String c EmptyString => is_upper c
  | _ => false
  end.

End Js.

(** ** [keyboard.ts]: key and mouse-button normalization, display formatting *)

Module Keyboard.
Import Js.

Inductive OSType := macos | windows | linux | unknown.

(** The fields of a DOM [KeyboardEvent] read by the sources. *)
Record KeyboardEvent := {
  code : string;
  key : string;
  keyCode : Z;
  which : Z;
  repeat : bool
}.

Definition Node := nat.

(** The fields of a DOM [MouseEvent] read by the sources. *)
Record MouseEvent := {
  button : Z;
  target : Node
}.

Definition getModifierName (osType : OSType) (baseModifier : string) : string :=
  if String.eqb baseModifier "shift" then "shift"
  else if String.eqb baseModifier "ctrl" then
    match osType with macos => "ctrl" | _ => "ctrl" end
  else if String.eqb baseModifier "alt" then
    match osType with macos => "option" | _ => "alt" end
  else if String.eqb baseModifier "meta" then
    match osType with macos => "command" | _ => "super" end
  else baseModifier.

Definition modifierMap (osType : OSType) : list (string * string) :=
  [ ("ShiftLeft", getModifierName osType "shift");
    ("ShiftRight", getModifierName osType "shift");
    ("ControlLeft", getModifierName osType "ctrl");
    ("ControlRight", getModifierName osType "ctrl");
    ("AltLeft", getModifierName osType "alt");
    ("AltRight", getModifierName osType "alt");
    ("MetaLeft", getModifierName osType "meta");
    ("MetaRight", getModifierName osType "meta");
    ("OSLeft", getModifierName osType "meta");
    ("OSRight", getModifierName osType "meta");
    ("CapsLock", "caps lock");
    ("Tab", "tab");
    ("Enter", "enter");
    ("Space", "space");
    ("Backspace", "backspace");
    ("Delete", "delete");
    ("Escape", "esc");
    ("ArrowUp", "up");
    ("ArrowDown", "down");
    ("ArrowLeft", "left");
    ("ArrowRight", "right");
    ("Home", "home");
    ("End", "end");
    ("PageUp", "page up");
    ("PageDown", "page down");
    ("Insert", "insert");
    ("PrintScreen", "print screen");
    ("ScrollLock", "scroll lock");
    ("Pause", "pause");
    ("ContextMenu", "menu");
    ("NumpadMultiply", "numpad *");
    ("NumpadAdd", "numpad +");
    ("NumpadSubtract", "numpad -");
    ("NumpadDecimal", "numpad .");
    ("NumpadDivide", "numpad /");
    ("NumLock", "num lock") ].

Definition punctuationMap : list (string * string) :=
  [ ("Semicolon", ";");
    ("Equal", "=");
    ("Comma", ",");
    ("Minus", "-");
    ("Period", ".");
    ("Slash", "/");
    ("Backquote", "`");
    ("BracketLeft", "[");
    ("Backslash", "\");
    ("BracketRight", "]");
    ("Quote", "'") ].

Definition keyMap (osType : OSType) : list (string * string) :=
  [ ("Control", match osType with macos => "ctrl" | _ => "ctrl" end);
    ("Alt", match osType with macos => "option" | _ => "alt" end);
    ("Shift", "shift");
    ("Meta", match osType with
             | macos => "command" | windows => "win" | _ => "super" end);
    ("OS", match osType with
           | macos => "command" | windows => "win" | _ => "super" end);
    ("CapsLock", "caps lock");
    ("ArrowUp", "up");
    ("ArrowDown", "down");
    ("ArrowLeft", "left");
    ("ArrowRight", "right");
    ("Escape", "esc");
    (" ", "space") ].

(** [if (table[k]) return table[k]]: an entry is used when it is present
    and truthy. *)
Definition lookup_truthy (k : string) (t : list (string * string)) : option string :=
  match lookup_table k t with
  | Some v => if truthy v then Some v else None
  | None => None
  end.

(** The last branch of the code path:
    [code.toLowerCase().replace(/([a-z])([A-Z])/g, "$1 $2")]. *)
Definition fallbackName (code : string) : string :=
  replace_camel (toLowerCase code).

(** Which branch of the code path of [getKeyName] a code takes. *)
Inductive code_class :=
| FunctionKey | LetterKey | DigitKey | NumpadDigit
| TableKey (name : string) | Punctuation (symbol : string) | OtherCode.

Definition classify (osType : OSType) (code : string) : code_class :=
  if match match_prefix_digits "F" code with Some _ => true | None => false end
  then FunctionKey
  else if match_key_letter code then LetterKey
  else if match_prefix_digit "Digit" code then DigitKey
  else if match_prefix_digit "Numpad" code then NumpadDigit
  else match lookup_truthy code (modifierMap osType) with
       | Some v => TableKey v
       | None =>
           match lookup_truthy code punctuationMap with
           | Some v => Punctuation v
           | None => OtherCode
           end
       end.

Definition getKeyName (e : KeyboardEvent) (osType : OSType) : string :=
  if truthy (code e) then
    let code := code e in
    match classify osType code with
    | FunctionKey => toLowerCase code
    | LetterKey => toLowerCase (replace "Key" "" code)
    | DigitKey => replace "Digit" "" code
    | NumpadDigit => toLowerCase (replace "Numpad" "numpad " code)
    | TableKey v => v
    | Punctuation v => v
    | OtherCode => fallbackName code
    end
  else if truthy (key e) then
    let key := key e in
    match lookup_truthy key (keyMap osType) with
    | Some v => v
    | None => toLowerCase key
    end
  else
    "unknown-" +:+
      show_int (if negb (keyCode e =? 0) then keyCode e
                else if negb (which e =? 0) then which e
                else 0).

Definition getMouseButtonName (e : MouseEvent) : option string :=
  if button e =? 0 then Some "mouseleft"
  else if button e =? 1 then Some "mousemiddle"
  else if button e =? 2 then Some "mouseright"
  else if button e =? 3 then Some "mouse4"
  else if button e =? 4 then Some "mouse5"
  else Some ("mouse" +:+ show_int (button e + 1)).

Definition isMouseButton (inputName : string) : bool :=
  let lower := toLowerCase inputName in
  startsWith lower "mouse"
  || String.eqb lower "mouseleft"
  || String.eqb lower "mouseright"
  || String.eqb lower "mousemiddle".

Definition formatKeyCombination (combination : string) (osType : OSType) : string :=
  combination.

Definition displayNames : list (string * string) :=
  [ ("mouseleft", "Left Click");
    ("mouseright", "Right Click");
    ("mousemiddle", "Middle Click");
    ("mouse1", "Left Click");
    ("mouse2", "Right Click");
    ("mouse3", "Middle Click");
    ("mouse4", "Mouse 4");
    ("mouse5", "Mouse 5");
    ("mouseforward", "Mouse Forward");
    ("mouseback", "Mouse Back") ].

Definition getMouseButtonDisplayName (buttonName : string) : string :=
  let lower := toLowerCase buttonName in
  match lookup_truthy lower displayNames with
  | Some v => v
  | None =>
      match match_prefix_digits "mouse" lower with
      | Some ds => "Mouse " +:+ ds
      | None => buttonName
      end
  end.

(** [word.charAt(0).toUpperCase() + word.slice(1)] *)
Definition capitalize (word : string) : string :=
  toUpperCase (charAt0 word) +:+ slice1 word.

Definition formatInputDisplay (inputName : string) : string :=
  if isMouseButton inputName then getMouseButtonDisplayName inputName
  else join " " (map capitalize (split " " inputName)).

Definition normalizeKey (key : string) : string :=
  if startsWith key "left " || startsWith key "right " then
    match split " " key with
    | [_; modifier] => modifier
    | _ => key
    end
  else key.

(** The rendering of a stored chord in [BabblShortcut]:
    [current_binding.split("+").map((part) => formatInputDisplay(part.trim())).join(" + ")]. *)
Definition displayBinding (current_binding : string) : string :=
  join " + " (map (fun part => formatInputDisplay (trim part))
                  (split "+" current_binding)).

End Keyboard.

(** ** [BabblShortcut]: the shortcut recorder *)

Module Shortcut.
Import Js Keyboard.

(** The fields of a binding of the settings store read by the component. *)
Record ShortcutBinding := {
  name : string;
  description : string;
  current_binding : string
}.

(** What a handler does to the outside: requests to the backend, in the
    order they are issued, and the error notifications shown to the user
    (by translation key).  [console.error], [preventDefault] and
    [stopPropagation] are not recorded. *)
Inductive command :=
| SuspendBinding (id : string)
| ResumeBinding (id : string)
| UpdateBinding (id value : string)
| ToastError (message : string).

(** A DOM element, given by the nodes it contains. *)
Definition Element := list Node.

Definition contains (el : Element) (n : Node) : bool := existsb (Nat.eqb n) el.

(** The React state of one [BabblShortcut] component, and its refs. *)
Record state := {
  keyPressed : list string;
  recordedKeys : list string;
  editingShortcutId : option string;
  originalBinding : string;
  osType : OSType;
  shortcutRefs : gmap string Element
}.

(** The component state, the cached [bindings] of the settings store and
    the requests issued so far. *)
Record world := {
  ui : state;
  bindings : gmap string ShortcutBinding;
  calls : list command
}.

(** The backend decides each update-binding request: [accepts n id value]
    tells whether the request [(id, value)], issued after [n] earlier
    entries of [calls], is accepted. *)
Definition Backend := nat -> string -> string -> bool.

(** *** Asynchronous handlers: state passing with rejection *)

Inductive result (A : Type) :=
| Resolved (a : A)
| Rejected (error : string).
Arguments Resolved {A} a.
Arguments Rejected {A} error.

Definition M (A : Type) : Type := world -> result A * world.

Definition ret {A} (a : A) : M A := fun w => (Resolved a, w).

Definition bind {A B} (m : M A) (k : A -> M B) : M B :=
  fun w =>
    match m w with
    | (Resolved a, w') => k a w'
    | (Rejected err, w') => (Rejected err, w')
    end.

(** [try { body } catch (error) { handler }] *)
Definition try_catch {A} (body : M A) (handler : string -> M A) : M A :=
  fun w =>
    match body w with
    | (Resolved a, w') => (Resolved a, w')
    | (Rejected err, w') => handler err w'
    end.

Declare Scope handler_scope.
Delimit Scope handler_scope with handler.
Notation "x <- c1 ;; c2" := (bind c1 (fun x => c2))
  (at level 100, c1 at next level, right associativity) : handler_scope.
Notation "c1 ;; c2" := (bind c1 (fun _ => c2))
  (at level 100, right associativity) : handler_scope.

Definition emit (c : command) : M unit :=
  fun w => (Resolved tt,
            {| ui := ui w; bindings := bindings w; calls := calls w ++ [c] |}).

Definition set_state (f : state -> state) : M unit :=
  fun w => (Resolved tt,
            {| ui := f (ui w); bindings := bindings w; calls := calls w |}).

Definition setKeyPressed (f : list string -> list string) : M unit :=
  set_state (fun s =>
    {| keyPressed := f (keyPressed s); recordedKeys := recordedKeys s;
       editingShortcutId := editingShortcutId s;
       originalBinding := originalBinding s; osType := osType s;
       shortcutRefs := shortcutRefs s |}).

Definition setRecordedKeys (f : list string -> list string) : M unit :=
  set_state (fun s =>
    {| keyPressed := keyPressed s; recordedKeys := f (recordedKeys s);
       editingShortcutId := editingShortcutId s;
       originalBinding := originalBinding s; osType := osType s;
       shortcutRefs := shortcutRefs s |}).

Definition setEditingShortcutId (v : option string) : M unit :=
  set_state (fun s =>
    {| keyPressed := keyPressed s; recordedKeys := recordedKeys s;
       editingShortcutId := v;
       originalBinding := originalBinding s; osType := osType s;
       shortcutRefs := shortcutRefs s |}).

Definition setOriginalBinding (v : string) : M unit :=
  set_state (fun s =>
    {| keyPressed := keyPressed s; recordedKeys := recordedKeys s;
       editingShortcutId := editingShortcutId s;
       originalBinding := v; osType := osType s;
       shortcutRefs := shortcutRefs s |}).

(** [commands.suspendBinding(id).catch(console.error)] and
    [commands.resumeBinding(id).catch(console.error)]: the request is
    issued, and a failure is swallowed by the [catch]. *)
Definition suspendBinding (id : string) : M unit := emit (SuspendBinding id).
Definition resumeBinding (id : string) : M unit := emit (ResumeBinding id).

Definition toastError (message : string) : M unit := emit (ToastError message).

Definition with_current_binding (value : string) (b : ShortcutBinding) : ShortcutBinding :=
  {| name := name b; description := description b; current_binding := value |}.

Section Handlers.

Variable accepts : Backend.

(** Modelled from the spec: [updateBinding] of the [useSettings] hook, which
    the sources import but do not contain.  "updateBinding(bindingId,
    chordString) - persists a new chord value", and the request is
    fallible: an accepted request stores the value as the binding's current
    chord, a rejected one leaves the store as it was and rejects. *)
Definition updateBinding (id value : string) : M unit :=
  fun w =>
    let issued := calls w ++ [UpdateBinding id value] in
    if accepts (length (calls w)) id value
    then (Resolved tt,
          {| ui := ui w;
             bindings := alter (with_current_binding value) id (bindings w);
             calls := issued |})
    else (Rejected "update rejected",
          {| ui := ui w; bindings := bindings w; calls := issued |}).

(** The end of a session, in every handler:
    [setEditingShortcutId(null); setKeyPressed([]); setRecordedKeys([]);
     setOriginalBinding("")]. *)
Definition exitEditing : M unit :=
  (setEditingShortcutId None ;;
   setKeyPressed (fun _ => []) ;;
   setRecordedKeys (fun _ => []) ;;
   setOriginalBinding "")%handler.

(** The handlers are created by the effect that runs when
    [editingShortcutId] is not [null]; they read the state of the render
    that created them.  Events are handled one at a time, each by the
    handlers of the latest render. *)
Definition handleKeyDown (e : KeyboardEvent) : M unit :=
  fun w =>
    let s := ui w in
    match editingShortcutId s with
    | None => ret tt w
    | Some id =>
        (if repeat e then ret tt
         else if String.eqb (key e) "Escape" then
           ((if truthy id && truthy (originalBinding s) then
               try_catch
                 (updateBinding id (originalBinding s) ;;
                  resumeBinding id)
                 (fun _ => toastError "settings.general.shortcut.errors.restore")
             else if truthy id then resumeBinding id
             else ret tt) ;;
            exitEditing)
         else
           let rawKey := getKeyName e (osType s) in
           let key := normalizeKey rawKey in
           if negb (includes key (keyPressed s)) then
             (setKeyPressed (fun prev => prev ++ [key]) ;;
              if negb (includes key (recordedKeys s))
              then setRecordedKeys (fun prev => prev ++ [key])
              else ret tt)
           else ret tt)%handler w
    end.

(** The commit of [handleKeyUp] and [handleMouseUp], once the pressed set
    has drained and something was recorded. *)
Definition commit (s : state) (bs : gmap string ShortcutBinding) (id : string) : M unit :=
  (let newShortcut := join "+" (recordedKeys s) in
   if truthy id && bool_decide (is_Some (bs !! id)) then
     (try_catch
        (updateBinding id newShortcut ;;
         resumeBinding id)
        (fun _ =>
           toastError "settings.general.shortcut.errors.set" ;;
           if truthy (originalBinding s) then
             try_catch
               (updateBinding id (originalBinding s) ;;
                resumeBinding id)
               (fun _ => toastError "settings.general.shortcut.errors.reset")
           else ret tt) ;;
      exitEditing)
   else ret tt)%handler.

Definition handleKeyUp (e : KeyboardEvent) : M unit :=
  fun w =>
    let s := ui w in
    match editingShortcutId s with
    | None => ret tt w
    | Some id =>
        (let rawKey := getKeyName e (osType s) in
         let key := normalizeKey rawKey in
         setKeyPressed (List.filter (fun k => negb (String.eqb k key))) ;;
         let updatedKeyPressed :=
           List.filter (fun k => negb (String.eqb k key)) (keyPressed s) in
         if (length updatedKeyPressed =? 0)%nat
            && (0 <? length (recordedKeys s))%nat
         then commit s (bindings w) id
         else ret tt)%handler w
    end.

Definition handleMouseDown (e : MouseEvent) : M unit :=
  fun w =>
    let s := ui w in
    match editingShortcutId s with
    | None => ret tt w
    | Some id =>
        (if button e <? 3 then ret tt
         else
           match getMouseButtonName e with
           | Some buttonName =>
               if truthy buttonName && negb (includes buttonName (keyPressed s))
               then
                 (setKeyPressed (fun prev => prev ++ [buttonName]) ;;
                  if negb (includes buttonName (recordedKeys s))
                  then setRecordedKeys (fun prev => prev ++ [buttonName])
                  else ret tt)
               else ret tt
           | None => ret tt
           end)%handler w
    end.

Definition handleMouseUp (e : MouseEvent) : M unit :=
  fun w =>
    let s := ui w in
    match editingShortcutId s with
    | None => ret tt w
    | Some id =>
        (if button e <? 3 then ret tt
         else
           match getMouseButtonName e with
           | Some buttonName =>
               if negb (truthy buttonName) then ret tt
               else
                 (setKeyPressed (List.filter (fun k => negb (String.eqb k buttonName))) ;;
                  let updatedPressed :=
                    List.filter (fun k => negb (String.eqb k buttonName)) (keyPressed s) in
                  if (length updatedPressed =? 0)%nat
                     && (0 <? length (recordedKeys s))%nat
                  then commit s (bindings w) id
                  else ret tt)
           | None => ret tt
           end)%handler w
    end.

(** [handleContextMenu] only prevents the default action. *)
Definition handleContextMenu : M unit := ret tt.

Definition handleClickOutside (e : MouseEvent) : M unit :=
  fun w =>
    let s := ui w in
    match editingShortcutId s with
    | None => ret tt w
    | Some id =>
        (match shortcutRefs s !! id with
         | Some activeElement =>
             if negb (contains activeElement (target e)) then
               ((if truthy id && truthy (originalBinding s) then
                   try_catch
                     (updateBinding id (originalBinding s) ;;
                      resumeBinding id)
                     (fun _ => toastError "settings.general.shortcut.errors.restore")
                 else if truthy id then resumeBinding id
                 else ret tt) ;;
                exitEditing)
             else ret tt
         | None => ret tt
         end)%handler w
    end.

Definition startRecording (id : string) : M unit :=
  fun w =>
    let s := ui w in
    (if bool_decide (editingShortcutId s = Some id) then ret tt
     else
       (suspendBinding id ;;
        setOriginalBinding
          (match bindings w !! id with
           | Some b => if truthy (current_binding b) then current_binding b else ""
           | None => ""
           end) ;;
        setEditingShortcutId (Some id) ;;
        setKeyPressed (fun _ => []) ;;
        setRecordedKeys (fun _ => [])))%handler w.

(** The events a component receives. *)
Inductive event :=
| KeyDown (e : KeyboardEvent)
| KeyUp (e : KeyboardEvent)
| MouseDown (e : MouseEvent)
| MouseUp (e : MouseEvent)
| ContextMenu
| Click (e : MouseEvent)
| StartRecording (id : string).

Definition dispatch (ev : event) : M unit :=
  match ev with
  | KeyDown e => handleKeyDown e
  | KeyUp e => handleKeyUp e
  | MouseDown e => handleMouseDown e
  | MouseUp e => handleMouseUp e
  | ContextMenu => handleContextMenu
  | Click e => handleClickOutside e
  | StartRecording id => startRecording id
  end.

(** The world after a handler has run to completion. *)
Definition after {A} (m : M A) (w : world) : world := snd (m w).

Definition run (evs : list event) (w : world) : world :=
  fold_left (fun w ev => after (dispatch ev) w) evs w.

End Handlers.

End Shortcut.

(** ** [RecordingOverlay] and the subscriptions to backend events *)

Module Overlay.

(** *** The event bus ([listen] of the Tauri event API) *)

(** The active subscriptions, each with the handle under which [listen]
    registered it; [unlisten] removes the subscription of a handle. *)
Record bus := {
  next_handle : nat;
  active : list (nat * string)
}.

Definition listen (name : string) (b : bus) : nat * bus :=
  (next_handle b,
   {| next_handle := S (next_handle b);
      active := active b ++ [(next_handle b, name)] |}).

Definition unlisten (handle : nat) (b : bus) : bus :=
  {| next_handle := next_handle b;
     active := List.filter (fun s => negb (Nat.eqb (fst s) handle)) (active b) |}.

(** A React effect: it runs when the component mounts and may return a
    cleanup, which React runs when the component unmounts. *)
Definition Effect : Type := bus -> option (bus -> bus) * bus.

Definition unmount (cleanup : option (bus -> bus)) (b : bus) : bus :=
  match cleanup with
  | Some f => f b
  | None => b
  end.

(** The bus after a component was mounted and unmounted again. *)
Definition mount_unmount (eff : Effect) (b : bus) : bus :=
  let '(cleanup, b') := eff b in unmount cleanup b'.

(** [setupEventListeners] of [RecordingOverlay]: three subscriptions, and
    the cleanup function it resolves to. *)
Definition setupEventListeners (b : bus) : (bus -> bus) * bus :=
  let '(unlistenShow, b1) := listen "show-overlay" b in
  let '(unlistenHide, b2) := listen "hide-overlay" b1 in
  let '(unlistenLevel, b3) := listen "mic-level" b2 in
  (fun b' => unlisten unlistenLevel (unlisten unlistenHide (unlisten unlistenShow b')),
   b3).

(** The effect of [RecordingOverlay]: [setupEventListeners();] is called
    and its promise dropped; the effect callback itself returns nothing. *)
Definition overlayEffect : Effect :=
  fun b => let '(_, b') := setupEventListeners b in (None, b').

(** The effect of [TranslateToEnglish]: it returns
    [() => { modelStateUnlisten.then((fn) => fn()); }]. *)
Definition modelStateEffect : Effect :=
  fun b =>
    let '(modelStateUnlisten, b') := listen "model-state-changed" b in
    (Some (unlisten modelStateUnlisten), b').

(** *** Level smoothing *)

Inductive OverlayState := recording | transcribing.

Record overlay := {
  isVisible : bool;
  state : OverlayState;
  levels : list float;
  smoothedLevels : list float
}.

Definition initial : overlay :=
  {| isVisible := false; state := recording;
     levels := repeat 0%float 16; smoothedLevels := repeat 0%float 16 |}.

(** [a.map((x, i) => f(x, i))], from index [i]. *)
Fixpoint mapi_from {A B} (i : nat) (f : A -> nat -> B) (l : list A) : list B :=
  match l with
  | [] => []
  | x :: l' => f x i :: mapi_from (S i) f l'
  end.

(** [x || 0] on a number: zero, of either sign, and NaN are falsy. *)
Definition or_zero (x : float) : float :=
  if is_zero x || is_nan x then 0%float else x.

(** [newLevels[i] || 0]; a missing element is [undefined], which is
    falsy. *)
Definition target (newLevels : list float) (i : nat) : float :=
  match nth_error newLevels i with
  | Some x => or_zero x
  | None => 0%float
  end.

(** [prev * 0.7 + target * 0.3].  The literals [0.7] and [0.3] denote the
    binary64 numbers nearest to them, written here in hexadecimal. *)
Definition smooth (prev target : float) : float :=
  (prev * 0x1.6666666666666p-1 + target * 0x1.3333333333333p-2)%float.

(** The listener of [mic-level]. *)
Definition onMicLevel (newLevels : list float) (o : overlay) : overlay :=
  let smoothed :=
    mapi_from 0 (fun prev i => smooth prev (target newLevels i)) (smoothedLevels o) in
  {| isVisible := isVisible o; state := state o;
     levels := firstn 9 smoothed; smoothedLevels := smoothed |}.

Definition onShowOverlay (overlayState : OverlayState) (o : overlay) : overlay :=
  {| isVisible := true; state := overlayState;
     levels := levels o; smoothedLevels := smoothedLevels o |}.

Definition onHideOverlay (o : overlay) : overlay :=
  {| isVisible := false; state := state o;
     levels := levels o; smoothedLevels := smoothedLevels o |}.


(** The smoothed value of channel [i]. *)
Definition channel (i : nat) (o : overlay) : float :=
  nth i (smoothedLevels o) 0%float.

End Overlay.

(** ** [RecordingOverlay]: the events of the backend, one after the other *)

Module OverlayRun.
Import Overlay.

(** The three events the overlay listens to, with their payload.  The
    listener of show-overlay is taken past its
    [await syncLanguageFromSettings()]: the language sync resolves. *)
Inductive overlay_event :=
| ShowOverlay (overlayState : OverlayState)
| HideOverlay
| MicLevel (newLevels : list float).

Definition on_event (ev : overlay_event) (o : overlay) : overlay :=
  match ev with
  | ShowOverlay overlayState => onShowOverlay overlayState o
  | HideOverlay => onHideOverlay o
  | MicLevel newLevels => onMicLevel newLevels o
  end.

Definition run (evs : list overlay_event) (o : overlay) : overlay :=
  fold_left (fun o ev => on_event ev o) evs o.

(** An effect whose dependencies change is run again: React runs the
    cleanup of the previous run, then the effect. *)
Definition rerun (eff : Effect) (st : option (bus -> bus) * bus) :
    option (bus -> bus) * bus :=
  eff (unmount (fst st) (snd st)).

Fixpoint reruns (n : nat) (eff : Effect) (st : option (bus -> bus) * bus) :
    option (bus -> bus) * bus :=
  match n with
  | O => st
  | S n' => rerun eff (reruns n' eff st)
  end.

End OverlayRun.

(** ** Settings panels, sidebar and onboarding *)

Module Panels.
Import Js.

(** The fields of the settings object read by the components; a field, and
    the object itself, may be missing. *)
Record AppSettings := {
  post_process_enabled : option bool;
  use_online_provider : option bool;
  debug_mode : option bool;
  online_provider_id : option string;
  online_provider_models : option (gmap string string)
}.

(** [settings?.field ?? dflt] *)
Definition field_or {A} (settings : option AppSettings)
    (field : AppSettings -> option A) (dflt : A) : A :=
  match settings with
  | Some s => match field s with Some v => v | None => dflt end
  | None => dflt
  end.

(** *** [Sidebar] *)

(** [SECTIONS_CONFIG]: the id, the label key and the [enabled] predicate of
    each section, in the order of the object literal. *)
Definition SECTIONS_CONFIG : list (string * (string * (option AppSettings -> bool))) :=
  [ ("general", ("sidebar.general", fun _ => true));
    ("advanced", ("sidebar.advanced", fun _ => true));
    ("postprocessing",
       ("sidebar.postProcessing", fun settings => field_or settings post_process_enabled false));
    ("onlineprovider",
       ("sidebar.cloudModels", fun settings => field_or settings use_online_provider false));
    ("history", ("sidebar.history", fun _ => true));
    ("debug", ("sidebar.debug", fun settings => field_or settings debug_mode false));
    ("about", ("sidebar.about", fun _ => true)) ].

(** The ids of [availableSections]:
    [Object.entries(SECTIONS_CONFIG).filter(([_, config]) => config.enabled(settings))]. *)
Definition availableSections (settings : option AppSettings) : list string :=
  map fst (List.filter (fun entry => snd (snd entry) settings) SECTIONS_CONFIG).

(** *** [OnlineProviderSettings] and [TranslateToEnglish] *)

Definition ONLINE_PROVIDERS : list (string * string) :=
  [ ("openai", "OpenAI"); ("groq", "Groq"); ("gemini", "Gemini") ].

(** [PROVIDER_MODELS]: for each provider the options, each a value and a
    label. *)
Definition PROVIDER_MODELS : list (string * list (string * string)) :=
  [ ("openai",
       [ ("whisper-1", "Whisper-1");
         ("gpt-4o-transcribe", "GPT-4o Transcribe");
         ("gpt-4o-mini-transcribe", "GPT-4o Mini Transcribe") ]);
    ("groq",
       [ ("whisper-large-v3-turbo", "Whisper Large v3 Turbo");
         ("whisper-large-v3", "Whisper Large v3") ]);
    ("gemini",
       [ ("gemini-2.5-flash", "Gemini 2.5 Flash");
         ("gemini-2.5-flash-lite", "Gemini 2.5 Flash-Lite");
         ("gemini-2.0-flash", "Gemini 2.0 Flash");
         ("gemini-2.0-flash-lite", "Gemini 2.0 Flash-Lite") ]) ].

(** [DEFAULT_MODELS] of [OnlineProviderSettings]. *)
Definition DEFAULT_MODELS : list (string * string) :=
  [ ("openai", "whisper-1");
    ("groq", "whisper-large-v3-turbo");
    ("gemini", "gemini-2.5-flash") ].

(** [DEFAULT_ONLINE_MODELS] of [TranslateToEnglish]. *)
Definition DEFAULT_ONLINE_MODELS : list (string * string) :=
  [ ("openai", "whisper-1");
    ("groq", "whisper-large-v3-turbo");
    ("gemini", "gemini-2.5-flash") ].

Fixpoint lookup_options (k : string) (t : list (string * list (string * string))) :
    option (list (string * string)) :=
  match t with
  | [] => None
  | (k', v) :: t' => if String.eqb k k' then Some v else lookup_options k t'
  end.

(** [settings?.online_provider_id ?? "openai"] *)
Definition selectedProviderId (settings : option AppSettings) : string :=
  field_or settings online_provider_id "openai".

(** [savedModel] of [OnlineProviderSettings]:
    [settings?.online_provider_models?.[selectedProviderId]
       ?? DEFAULT_MODELS[selectedProviderId] ?? ""]. *)
Definition savedModel (settings : option AppSettings) : string :=
  let selectedProviderId := selectedProviderId settings in
  let saved :=
    match settings with
    | Some s =>
        match online_provider_models s with
        | Some models => models !! selectedProviderId
        | None => None
        end
    | None => None
    end in
  match saved with
  | Some model => model
  | None =>
      match lookup_table selectedProviderId DEFAULT_MODELS with
      | Some model => model
      | None => ""
      end
  end.

(** [modelOptions] of [OnlineProviderSettings]:
    [PROVIDER_MODELS[selectedProviderId] ?? []]. *)
Definition modelOptions (settings : option AppSettings) : list (string * string) :=
  match lookup_options (selectedProviderId settings) PROVIDER_MODELS with
  | Some options => options
  | None => []
  end.

(** [onlineModel] of [TranslateToEnglish], with its own
    [onlineProviderId = settings?.online_provider_id ?? "openai"]:
    [settings?.online_provider_models?.[onlineProviderId]
       ?? DEFAULT_ONLINE_MODELS[onlineProviderId] ?? ""]. *)
Definition onlineModel (settings : option AppSettings) : string :=
  let onlineProviderId := field_or settings online_provider_id "openai" in
  let saved :=
    match settings with
    | Some s =>
        match online_provider_models s with
        | Some models => models !! onlineProviderId
        | None => None
        end
    | None => None
    end in
  match saved with
  | Some model => model
  | None =>
      match lookup_table onlineProviderId DEFAULT_ONLINE_MODELS with
      | Some model => model
      | None => ""
      end
  end.

(** [s.includes(sub)] on strings. *)
Fixpoint str_includes (sub s : string) : bool :=
  String.prefix sub s ||
  match s with
  | EmptyString => false
  | String _ r => str_includes sub r
  end.

(** [isWhisperModel] of [TranslateToEnglish]. *)
Definition isWhisperModel (settings : option AppSettings) : bool :=
  str_includes "whisper" (toLowerCase (onlineModel settings)).

Definition unsupportedTranslationModels : list string :=
  [ "parakeet-tdt-0.6b-v2"; "parakeet-tdt-0.6b-v3"; "turbo" ].

(** [isDisabledTranslation] of [TranslateToEnglish]; [useOnlineProvider] is
    [getSetting("use_online_provider") || false]. *)
Definition isDisabledTranslation (useOnlineProvider : bool) (currentModel : string) : bool :=
  negb useOnlineProvider && includes currentModel unsupportedTranslationModels.

(** *** [Onboarding] *)

(** The fields of a model descriptor read by the component. *)
Record ModelInfo := {
  id : string;
  size_mb : Z;
  is_downloaded : bool
}.

(** The models kept by [loadModels] from a successful answer:
    [result.data.filter((m) => !m.is_downloaded)]. *)
Definition loadModels (data : list ModelInfo) : list ModelInfo :=
  List.filter (fun m => negb (is_downloaded m)) data.

Definition getRecommendedBadge (modelId : string) : bool :=
  String.eqb modelId "parakeet-tdt-0.6b-v3".

(** [Array.prototype.sort] with the comparator
    [(a, b) => Number(a.size_mb) - Number(b.size_mb)]: a stable sort by
    ascending size. *)
Fixpoint insert_by_size (m : ModelInfo) (l : list ModelInfo) : list ModelInfo :=
  match l with
  | [] => [m]
  | x :: l' =>
      if size_mb m <=? size_mb x then m :: x :: l'
      else x :: insert_by_size m l'
  end.

Fixpoint sort_by_size (l : list ModelInfo) : list ModelInfo :=
  match l with
  | [] => []
  | m :: l' => insert_by_size m (sort_by_size l')
  end.

(** The featured cards, then the other cards, as rendered. *)
Definition featuredModels (availableModels : list ModelInfo) : list ModelInfo :=
  List.filter (fun model => getRecommendedBadge (id model)) availableModels.

Definition otherModels (availableModels : list ModelInfo) : list ModelInfo :=
  sort_by_size
    (List.filter (fun model => negb (getRecommendedBadge (id model))) availableModels).

End Panels.

(** ** [BabblShortcut]: what is rendered *)

Module View.
Import Js Keyboard Shortcut.

(** The OS type kept by the component, from what the OS plugin reports. *)
Definition detectOsType (detectedType : string) : OSType :=
  if String.eqb detectedType "macos" then macos
  else if String.eqb detectedType "windows" then windows
  else if String.eqb detectedType "linux" then linux
  else unknown.


End View.

(** ** Binary64 arithmetic: the vocabulary of the proofs about the levels

    The operations of [float] are specified by the Standard Library
    through [Prim2SF] and the operations of [SpecFloat].  The definitions
    below describe what these compute on non-negative numbers, in terms of
    exact integer values. *)

Module Binary64.

(** Exact values are integers in units of 2^-2148: every product of two
    binary64 numbers is a multiple of that unit. *)
Definition scale : Z := 2148.

(** The exponent, in these units, of the last bit kept when [N] is rounded
    to 53 bits, subnormal numbers keeping the unit 2^-1074. *)
Definition quantum (N : Z) : Z := Z.max (Z.log2 N + 1 - 53) 1074.

(** Round to nearest, ties to even: whether the quotient [q] with remainder
    [r] is rounded up. *)
Definition round_up (g q r : Z) : bool :=
  (2 ^ g <? 2 * r) || ((2 ^ g =? 2 * r) && Z.odd q).

(** The exact value [N] rounded to nearest, ties to even. *)
Definition rne (N : Z) : Z :=
  let g := quantum N in
  let q := N / 2 ^ g in
  let r := N mod 2 ^ g in
  (if round_up g q r then q + 1 else q) * 2 ^ g.

(** The first power of two out of range. *)
Definition overflow : Z := 2 ^ (1024 + scale).

(** The number with the value [W]. *)
Definition encode (W : Z) : spec_float :=
  if W <=? 0 then S754_zero false
  else if overflow <=? W then S754_infinity false
  else S754_finite false (Z.to_pos (W / 2 ^ quantum W)) (quantum W - scale).

(** The state after [k] shifts of [M]: quotient, round bit, sticky bit. *)
Definition shifted (M : Z) (k : Z) : shr_record :=
  let R := M mod 2 ^ k in
  {| shr_m := M / 2 ^ k;
     shr_r := 2 ^ k <=? 2 * R;
     shr_s := negb (R =? 0) && negb (2 * R =? 2 ^ k) |}.

(** The mantissa [M] shifted right by [n] bits and rounded: the mantissa
    [binary_round_aux] computes on an exact positive input that needs no
    shift to the left. *)
Definition rounded_mantissa (M n : Z) : Z :=
  if round_up n (M / 2 ^ n) (M mod 2 ^ n) then M / 2 ^ n + 1 else M / 2 ^ n.

(** Non-negative, not NaN; the sign bit is clear. *)
Definition nonneg (x : spec_float) : bool :=
  match x with
  | S754_zero false | S754_finite false _ _ | S754_infinity false => true
  | _ => false
  end.

(** The value of a non-negative number in units of 2^-2148, infinity being
    the first power of two out of range. *)
Definition sval (x : spec_float) : Z :=
  match x with
  | S754_finite _ m e => Zpos m * 2 ^ (e + scale)
  | S754_infinity _ => overflow
  | _ => 0
  end.

(** The mantissas of the constants 0.7 and 0.3 of the smoothing. *)
Definition m07 : positive := 6305039478318694.
Definition m03 : positive := 5404319552844595.

(** The constants 0.7 and 0.3 as specification floats. *)
Definition sf07 : spec_float := S754_finite false m07 (-53).
Definition sf03 : spec_float := S754_finite false m03 (-54).

(** The smoothing step on specification floats. *)
Definition sf_smooth (p t : spec_float) : spec_float :=
  SF64add (SF64mul p sf07) (SF64mul t sf03).

(** An infinity. *)
Definition sf_is_infinity (x : spec_float) : bool :=
  match x with S754_infinity _ => true | _ => false end.

(** A number that is not NaN and whose sign bit is clear. *)
Definition nonnegative (x : float) : Prop := nonneg (Prim2SF x) = true.

(** Zero of either sign, a positive number or infinity. *)
Definition not_negative (x : spec_float) : bool :=
  match x with
  | S754_zero _ | S754_finite false _ _ | S754_infinity false => true
  | _ => false
  end.

(** The number with the sign of a zero cleared. *)
Definition clear_zero (x : spec_float) : spec_float :=
  match x with
  | S754_zero _ => S754_zero false
  | _ => x
  end.

End Binary64.

(** ** Vocabulary of the properties *)

Module Props.
Import Js Keyboard Shortcut.

(** The modifier codes that come in a left and a right variant. *)
Definition modifier_pairs : list (string * string) :=
  [ ("ShiftLeft", "ShiftRight");
    ("ControlLeft", "ControlRight");
    ("AltLeft", "AltRight");
    ("MetaLeft", "MetaRight") ].

Definition is_resume (id : string) (c : command) : bool :=
  match c with
  | ResumeBinding id' => String.eqb id id'
  | _ => false
  end.


(** How many times [resumeBinding(id)] was requested. *)
Definition resume_count (id : string) (cs : list command) : nat :=
  length (List.filter (is_resume id) cs).


(** The stored chord of a binding. *)
Definition binding_value (w : world) (id : string) : option string :=
  current_binding <$> bindings w !! id.

(** A token enters the pressed set and the recorded sequence unless it is
    already there. *)
Definition add_token (tok : string) (s : state) : state :=
  {| keyPressed :=
       if includes tok (keyPressed s) then keyPressed s
       else keyPressed s ++ [tok];
     recordedKeys :=
       if includes tok (keyPressed s) || includes tok (recordedKeys s)
       then recordedKeys s
       else recordedKeys s ++ [tok];
     editingShortcutId := editingShortcutId s;
     originalBinding := originalBinding s;
     osType := osType s;
     shortcutRefs := shortcutRefs s |}.

(** The state with another pressed set. *)
Definition with_pressed (kp : list string) (s : state) : state :=
  {| keyPressed := kp;
     recordedKeys := recordedKeys s;
     editingShortcutId := editingShortcutId s;
     originalBinding := originalBinding s;
     osType := osType s;
     shortcutRefs := shortcutRefs s |}.

(** The state after a session has ended. *)
Definition idle (s : state) : state :=
  {| keyPressed := [];
     recordedKeys := [];
     editingShortcutId := None;
     originalBinding := "";
     osType := osType s;
     shortcutRefs := shortcutRefs s |}.

(** The state of a session just opened on [id] with snapshot [orig]. *)
Definition opened (id orig : string) (s : state) : state :=
  {| keyPressed := [];
     recordedKeys := [];
     editingShortcutId := Some id;
     originalBinding := orig;
     osType := osType s;
     shortcutRefs := shortcutRefs s |}.

(** The two keys of the chord Ctrl+A, as the browser reports them. *)
Definition ctrl_event : KeyboardEvent :=
  {| code := "ControlLeft"; key := "Control"; keyCode := 17; which := 17;
     repeat := false |}.

Definition a_event : KeyboardEvent :=
  {| code := "KeyA"; key := "a"; keyCode := 65; which := 65; repeat := false |}.

(** The world after a cancel of the session on [id]. *)
Definition cancelled (accepts : Backend) (id : string) (w : world) : world :=
  let orig := originalBinding (ui w) in
  if truthy id && truthy orig then
    if accepts (length (calls w)) id orig then
      {| ui := idle (ui w);
         bindings := alter (with_current_binding orig) id (bindings w);
         calls := calls w ++ [UpdateBinding id orig; ResumeBinding id] |}
    else
      {| ui := idle (ui w);
         bindings := bindings w;
         calls := calls w ++ [UpdateBinding id orig;
                              ToastError "settings.general.shortcut.errors.restore"] |}
  else if truthy id then
    {| ui := idle (ui w); bindings := bindings w;
       calls := calls w ++ [ResumeBinding id] |}
  else
    {| ui := idle (ui w); bindings := bindings w; calls := calls w |}.

(** The world after a commit of the chord [chord] whose update-binding
    request is accepted. *)
Definition committed (id chord : string) (w : world) : world :=
  {| ui := idle (ui w);
     bindings := alter (with_current_binding chord) id (bindings w);
     calls := calls w ++ [UpdateBinding id chord; ResumeBinding id] |}.

(** A settings store with one binding, an idle component, and backends
    that accept or reject every update-binding request. *)
Definition transcribe_binding : ShortcutBinding :=
  {| name := "Transcribe"; description := "Start and stop dictation";
     current_binding := "ctrl+space" |}.

Definition example_world : world :=
  {| ui := {| keyPressed := []; recordedKeys := []; editingShortcutId := None;
              originalBinding := ""; osType := linux;
              shortcutRefs := {[ "transcribe" := [1%nat; 2%nat] ]} |};
     bindings := {[ "transcribe" := transcribe_binding ]};
     calls := [] |}.

Definition accepting : Backend := fun _ _ _ => true.
Definition rejecting : Backend := fun _ _ _ => false.

Definition escape_event : KeyboardEvent :=
  {| code := "Escape"; key := "Escape"; keyCode := 27; which := 27;
     repeat := false |}.




(** A click on a node outside the editor of [example_world]. *)
Definition outside_click : MouseEvent := {| button := 0; target := 7%nat |}.

(** The snapshot [bindings[id]?.current_binding || ""]. *)
Definition snapshot (w : world) (id : string) : string :=
  match bindings w !! id with
  | Some b => current_binding b
  | None => ""
  end.

(** The world of a session on [id] with pressed set [kp] and recorded
    sequence [rk], everything else as in [w]. *)
Definition recording_world (w : world) (id : string) (kp rk : list string) : world :=
  {| ui := {| keyPressed := kp; recordedKeys := rk;
              editingShortcutId := Some id;
              originalBinding := originalBinding (ui w);
              osType := osType (ui w);
              shortcutRefs := shortcutRefs (ui w) |};
     bindings := bindings w;
     calls := calls w |}.

(** The world after the release of [tok], when nothing is committed. *)
Definition released (tok : string) (w : world) : world :=
  {| ui := with_pressed
             (List.filter (fun k => negb (String.eqb k tok)) (keyPressed (ui w)))
             (ui w);
     bindings := bindings w;
     calls := calls w |}.

(** The world after a commit of [chord] whose update-binding request is
    rejected; [orig] is the snapshot. *)
Definition commit_failed (accepts : Backend) (id chord orig : string) (w : world) : world :=
  let set_error := ToastError "settings.general.shortcut.errors.set" in
  if truthy orig then
    if accepts (length (calls w) + 2)%nat id orig then
      {| ui := idle (ui w);
         bindings := alter (with_current_binding orig) id (bindings w);
         calls := calls w ++ [UpdateBinding id chord; set_error;
                              UpdateBinding id orig; ResumeBinding id] |}
    else
      {| ui := idle (ui w);
         bindings := bindings w;
         calls := calls w ++ [UpdateBinding id chord; set_error;
                              UpdateBinding id orig;
                              ToastError "settings.general.shortcut.errors.reset"] |}
  else
    {| ui := idle (ui w);
       bindings := bindings w;
       calls := calls w ++ [UpdateBinding id chord; set_error] |}.

(** Every pressed token has been recorded. *)
Definition pressed_recorded (s : state) : Prop :=
  forall k, In k (keyPressed s) -> In k (recordedKeys s).

(** Every handle in use is below the next handle to be given out. *)
Definition handles_fresh (b : Overlay.bus) : Prop :=
  Forall (fun s => (fst s < Overlay.next_handle b)%nat) (Overlay.active b).

(** Title-casing as one pass over the characters: a character is
    uppercased when it starts a word, and a space starts the next word. *)
Fixpoint title (start : bool) (s : string) : string :=
  match s with
  | EmptyString => EmptyString
  | String c r =>
      if Ascii.eqb c " " then String c (title true r)
      else String (if start then upper_char c else c) (title false r)
  end.

(** Two strings of the same length with white space at the same places. *)
Inductive same_shape : string -> string -> Prop :=
| same_shape_nil : same_shape EmptyString EmptyString
| same_shape_cons c c' r r' :
    is_space c = is_space c' -> same_shape r r' ->
    same_shape (String c r) (String c' r').

(** The step of [displayBinding] on one part of the chord. *)
Definition displayPart (part : string) : string :=
  formatInputDisplay (trim part).

(** The transformation of a chord string without the [trim] of the render
    code: split at [+], [formatInputDisplay] of each part as it is, join
    with [" + "]. *)
Definition splitFormatJoin (chord : string) : string :=
  join " + " (map formatInputDisplay (split "+" chord)).

(** A string without the chord separator. *)
Definition no_plus (s : string) : bool :=
  all_chars (fun c => negb (Ascii.eqb c "+")) s.

(** *** Vocabulary of the further properties *)

Definition is_suspend (id : string) (c : command) : bool :=
  match c with
  | SuspendBinding id' => String.eqb id id'
  | _ => false
  end.

(** How many times [suspendBinding(id)] was requested. *)
Definition suspend_count (id : string) (cs : list command) : nat :=
  length (List.filter (is_suspend id) cs).

(** The events of a component whose prop [shortcutId] is [sid]: the only
    call of [startRecording] in the component is [startRecording(shortcutId)]. *)
Definition of_component (sid : string) (ev : event) : Prop :=
  match ev with
  | StartRecording id => id = sid
  | _ => True
  end.

(** A backend that accepts every update-binding request. *)
Definition accepts_all (accepts : Backend) : Prop :=
  forall n id value, accepts n id value = true.

(** The suspends of [sid] not yet answered by a resume: one while a
    session on [sid] is open, none otherwise. *)
Definition balanced (sid : string) (w : world) : Prop :=
  suspend_count sid (calls w) =
    (resume_count sid (calls w) +
     match editingShortcutId (ui w) with Some _ => 1 | None => 0 end)%nat.

(** No session, and the buffers of a session are empty. *)
Definition buffers_empty (s : state) : Prop :=
  keyPressed s = [] /\ recordedKeys s = [] /\ originalBinding s = "".

(** An auto-repeat key-down event. *)
Definition is_auto_repeat (ev : event) : bool :=
  match ev with
  | KeyDown e => repeat e
  | _ => false
  end.

(** A session-start. *)
Definition is_start (ev : event) : bool :=
  match ev with
  | StartRecording _ => true
  | _ => false
  end.

(** A string without a space. *)
Definition no_space (s : string) : bool :=
  all_chars (fun c => negb (Ascii.eqb c " ")) s.

(** A string of ASCII characters (code below 128), on which the case
    mapping of the embedding is that of JavaScript. *)
Definition ascii_only (s : string) : bool :=
  all_chars (fun c => (nat_of_ascii c <? 128)%nat) s.

(** The codes and the keys whose name depends on the OS type. *)
Definition os_dependent_codes : list string :=
  ["AltLeft"; "AltRight"; "MetaLeft"; "MetaRight"; "OSLeft"; "OSRight"].

Definition os_dependent_keys : list string := ["Alt"; "Meta"; "OS"].

(** A key event known by its code only. *)
Definition key_event (c : string) : KeyboardEvent :=
  {| code := c; key := ""; keyCode := 0; which := 0; repeat := false |}.

(** Every sample of channel [i] in the mic-level events lies between 0 and
    [M]. *)
Definition samples_within (i : nat) (M : float) (evs : list OverlayRun.overlay_event) : Prop :=
  Forall (fun ev =>
            match ev with
            | OverlayRun.MicLevel v =>
                (0 <=? nth i v 0)%float = true /\ (nth i v 0 <=? M)%float = true
            | _ => True
            end) evs.

(** The last show or hide event of a run, if any: [Some (Some st)] for a
    show with payload [st], [Some None] for a hide. *)
Fixpoint last_visibility (evs : list OverlayRun.overlay_event)
    (seen : option (option Overlay.OverlayState)) : option (option Overlay.OverlayState) :=
  match evs with
  | [] => seen
  | OverlayRun.ShowOverlay st :: evs' => last_visibility evs' (Some (Some st))
  | OverlayRun.HideOverlay :: evs' => last_visibility evs' (Some None)
  | OverlayRun.MicLevel _ :: evs' => last_visibility evs' seen
  end.

(** Whether a run holds a mic-level event. *)
Definition has_mic_level (evs : list OverlayRun.overlay_event) : bool :=
  existsb (fun ev => match ev with OverlayRun.MicLevel _ => true | _ => false end) evs.

(** The model saved for the selected provider, if there is one. *)
Definition saved_model_entry (settings : option Panels.AppSettings) : option string :=
  match settings with
  | Some s =>
      match Panels.online_provider_models s with
      | Some models => models !! Panels.selectedProviderId settings
      | None => None
      end
  | None => None
  end.

(** Ascending size. *)
Definition smaller (a b : Panels.ModelInfo) : Prop :=
  Panels.size_mb a <= Panels.size_mb b.

End Props.

(** * Properties of the input normalizer *)

Module KeyboardFacts.
Import Js Keyboard Props.

Lemma is_upper_lower_char c : is_upper (lower_char c) = false.
Proof. destruct c as [[] [] [] [] [] [] [] []]; vm_compute; reflexivity. Qed.

Lemma replace_camel_toLowerCase s :
  replace_camel (toLowerCase s) = toLowerCase s.
Proof.
  unfold toLowerCase.
  induction s as [|c1 r IH]; [reflexivity|].
  destruct r as [|c2 r']; [reflexivity|].
  change (map_chars lower_char (String c1 (String c2 r')))
    with (String (lower_char c1) (String (lower_char c2) (map_chars lower_char r'))).
  change (map_chars lower_char (String c2 r'))
    with (String (lower_char c2) (map_chars lower_char r')) in IH.
  cbn [replace_camel].
  rewrite is_upper_lower_char, andb_false_r.
  f_equal. exact IH.
Qed.

(** The last branch of the code path returns the lowercased code with
    nothing inserted: after [toLowerCase] the camel-case pattern has no
    match left. *)
Lemma fallbackName_is_toLowerCase code : fallbackName code = toLowerCase code.
Proof. apply replace_camel_toLowerCase. Qed.

Lemma getKeyName_other_code e os :
  truthy (code e) = true ->
  classify os (code e) = OtherCode ->
  getKeyName e os = toLowerCase (code e).
Proof.
  intros Ht Hc. unfold getKeyName. rewrite Ht, Hc.
  apply fallbackName_is_toLowerCase.
Qed.

(** C5. For every modifier pair (ShiftLeft/ShiftRight,
    ControlLeft/ControlRight, AltLeft/AltRight, MetaLeft/MetaRight) and
    every OS type, the key-name of an event with the left code and of an
    event with the right code are the same token, and they stay the same
    after [normalizeKey]. *)
Theorem modifier_pair_same_token (os : OSType) (l r : string) (e1 e2 : KeyboardEvent) :
  In (l, r) modifier_pairs ->
  code e1 = l -> code e2 = r ->
  getKeyName e1 os = getKeyName e2 os /\
  normalizeKey (getKeyName e1 os) = normalizeKey (getKeyName e2 os).
Proof.
  intros Hin H1 H2.
  assert (Hk : getKeyName e1 os = getKeyName e2 os).
  { unfold getKeyName. rewrite H1, H2.
    unfold modifier_pairs in Hin. simpl in Hin.
    destruct Hin as [Hp|[Hp|[Hp|[Hp|[]]]]]; inversion Hp; subst l r;
      destruct os; reflexivity. }
  split; [exact Hk | now rewrite Hk].
Qed.

Lemma modifier_pair_same_token_witness :
  getKeyName {| code := "AltLeft"; key := "Alt"; keyCode := 18; which := 18; repeat := false |} macos
  = getKeyName {| code := "AltRight"; key := "AltGraph"; keyCode := 225; which := 225; repeat := true |} macos
  /\ normalizeKey (getKeyName {| code := "AltLeft"; key := "Alt"; keyCode := 18; which := 18; repeat := false |} macos)
  = normalizeKey (getKeyName {| code := "AltRight"; key := "AltGraph"; keyCode := 225; which := 225; repeat := true |} macos).
Proof.
  apply (modifier_pair_same_token macos "AltLeft" "AltRight").
  - unfold modifier_pairs. simpl. right. right. left. reflexivity.
  - reflexivity.
  - reflexivity.
Defined.

(** C7 (the code departs from the claim). An event with code
    [IntlBackslash], which matches none of the patterns and tables, is named
    [intlbackslash] on every OS type: the code is lowercased, but no space
    separates the camel-case words. *)
Theorem intl_backslash_unspaced (os : OSType) (k : string) (kc wh : Z) (rp : bool) :
  getKeyName {| code := "IntlBackslash"; key := k; keyCode := kc; which := wh; repeat := rp |} os
  = "intlbackslash".
Proof. destruct os; reflexivity. Qed.

End KeyboardFacts.

(** * Properties of the shortcut recorder *)

Module ShortcutFacts.
Import Js Keyboard Shortcut Props.

Ltac unfold_handler :=
  unfold after, exitEditing, suspendBinding, resumeBinding, toastError,
    setKeyPressed, setRecordedKeys, setEditingShortcutId, setOriginalBinding,
    set_state, emit, try_catch, bind, ret;
  cbn beta iota delta [fst snd ui bindings calls keyPressed recordedKeys
    editingShortcutId originalBinding osType shortcutRefs].

Ltac open_world w :=
  destruct w as [[kp rk ed ob os refs] bs cs];
  cbn [ui bindings calls keyPressed recordedKeys editingShortcutId
       originalBinding osType shortcutRefs] in *.

(** ** Auxiliary facts *)

Lemma truthy_true s : s <> "" -> truthy s = true.
Proof. intros H. unfold truthy. apply negb_true_iff, String.eqb_neq, H. Qed.

Lemma app_two {A} (l : list A) x y : (l ++ [x]) ++ [y] = l ++ [x; y].
Proof. now rewrite <- app_assoc. Qed.

Lemma includes_In x l : includes x l = true <-> In x l.
Proof.
  unfold includes. rewrite existsb_exists. split.
  - intros [y [Hy He]]. apply String.eqb_eq in He. now subst.
  - intros H. exists x. split; [exact H | apply String.eqb_refl].
Qed.

Lemma resume_count_app id cs cs' :
  resume_count id (cs ++ cs') = (resume_count id cs + resume_count id cs')%nat.
Proof. unfold resume_count. now rewrite List.filter_app, List.length_app. Qed.


Lemma snapshot_or_empty w id :
  match bindings w !! id with
  | Some b => if truthy (current_binding b) then current_binding b else ""
  | None => ""
  end = snapshot w id.
Proof.
  unfold snapshot. destruct (bindings w !! id) as [b|]; [|reflexivity].
  unfold truthy. destruct (String.eqb_spec (current_binding b) ""); cbn; congruence.
Qed.

Lemma getMouseButtonName_extra e :
  3 <= button e ->
  getMouseButtonName e = Some ("mouse" +:+ show_int (button e + 1)).
Proof.
  intros Hb. unfold getMouseButtonName.
  destruct (Z.eqb_spec (button e) 0); [lia|].
  destruct (Z.eqb_spec (button e) 1); [lia|].
  destruct (Z.eqb_spec (button e) 2); [lia|].
  destruct (Z.eqb_spec (button e) 3) as [->|]; [reflexivity|].
  destruct (Z.eqb_spec (button e) 4) as [->|]; reflexivity.
Qed.



(** ** Tokens entering the pressed set and the recorded sequence *)

Lemma add_token_pressed tok s : In tok (keyPressed (add_token tok s)).
Proof.
  unfold add_token. cbn [keyPressed].
  destruct (includes tok (keyPressed s)) eqn:H.
  - now apply includes_In.
  - apply in_or_app. right. now left.
Qed.

Lemma add_token_recorded tok s :
  pressed_recorded s -> pressed_recorded (add_token tok s).
Proof.
  intros Hinv k. unfold add_token. cbn [keyPressed recordedKeys].
  destruct (includes tok (keyPressed s)) eqn:Hp; cbn [orb].
  - apply Hinv.
  - destruct (includes tok (recordedKeys s)) eqn:Hr; intros Hk.
    + apply in_app_or in Hk. destruct Hk as [Hk|[<-|[]]]; [now apply Hinv|].
      now apply includes_In.
    + apply in_app_or in Hk. apply in_or_app.
      destruct Hk as [Hk|Hk]; [left; now apply Hinv | now right].
Qed.

(** ** What each handler computes *)

Lemma handleKeyDown_token accepts e w id :
  editingShortcutId (ui w) = Some id ->
  repeat e = false ->
  String.eqb (key e) "Escape" = false ->
  after (handleKeyDown accepts e) w =
    {| ui := add_token (normalizeKey (getKeyName e (osType (ui w)))) (ui w);
       bindings := bindings w; calls := calls w |}.
Proof.
  intros Hed Hrep Hkey. open_world w. subst ed.
  unfold after, handleKeyDown, add_token.
  cbn beta iota delta [ui editingShortcutId keyPressed recordedKeys
    originalBinding osType shortcutRefs bindings calls].
  rewrite Hrep, Hkey.
  set (tok := normalizeKey (getKeyName e os)).
  destruct (includes tok kp) eqn:Hkp; cbn [negb orb].
  - unfold_handler. reflexivity.
  - destruct (includes tok rk) eqn:Hrk; unfold_handler; rewrite ?Hrk; reflexivity.
Qed.

(** Auto-repeat key-down events change nothing. *)
Lemma handleKeyDown_repeat accepts e w :
  repeat e = true -> after (handleKeyDown accepts e) w = w.
Proof.
  intros Hrep. unfold after, handleKeyDown.
  destruct (editingShortcutId (ui w)); [|reflexivity].
  rewrite Hrep. reflexivity.
Qed.

Lemma cancel_body accepts id w :
  after (bind (if truthy id && truthy (originalBinding (ui w)) then
                 try_catch
                   (bind (updateBinding accepts id (originalBinding (ui w)))
                      (fun _ => resumeBinding id))
                   (fun _ => toastError "settings.general.shortcut.errors.restore")
               else if truthy id then resumeBinding id
               else ret tt) (fun _ => exitEditing)) w
  = cancelled accepts id w.
Proof.
  open_world w. unfold cancelled.
  cbn beta iota delta [ui bindings calls originalBinding].
  destruct (truthy id); cbn [andb].
  - destruct (truthy ob).
    + unfold_handler. unfold updateBinding.
      cbn beta iota delta [ui bindings calls].
      destruct (accepts (length cs) id ob);
        cbn beta iota delta [fst snd ui bindings calls];
        rewrite app_two; reflexivity.
    + unfold_handler. reflexivity.
  - unfold_handler. reflexivity.
Qed.

Lemma handleKeyDown_escape accepts e w id :
  editingShortcutId (ui w) = Some id ->
  repeat e = false ->
  key e = "Escape" ->
  after (handleKeyDown accepts e) w = cancelled accepts id w.
Proof.
  intros Hed Hrep Hkey.
  rewrite <- cancel_body.
  unfold after at 1, handleKeyDown. rewrite Hed, Hrep, Hkey.
  reflexivity.
Qed.

Lemma handleClickOutside_outside accepts e w id el :
  editingShortcutId (ui w) = Some id ->
  shortcutRefs (ui w) !! id = Some el ->
  contains el (target e) = false ->
  after (handleClickOutside accepts e) w = cancelled accepts id w.
Proof.
  intros Hed Hel Hout.
  rewrite <- cancel_body.
  unfold after at 1, handleClickOutside. rewrite Hed, Hel, Hout.
  reflexivity.
Qed.

Lemma handleMouseDown_extra e w id :
  editingShortcutId (ui w) = Some id ->
  3 <= button e ->
  after (handleMouseDown e) w =
    {| ui := add_token ("mouse" +:+ show_int (button e + 1)) (ui w);
       bindings := bindings w; calls := calls w |}.
Proof.
  intros Hed Hb. open_world w. subst ed.
  unfold after, handleMouseDown, add_token.
  cbn beta iota delta [ui editingShortcutId keyPressed recordedKeys
    originalBinding osType shortcutRefs bindings calls].
  destruct (Z.ltb_spec (button e) 3); [lia|].
  rewrite (getMouseButtonName_extra e Hb).
  set (tok := "mouse" +:+ show_int (button e + 1)).
  replace (truthy tok) with true by reflexivity. cbn [andb].
  destruct (includes tok kp) eqn:Hkp; cbn [negb orb].
  - unfold_handler. reflexivity.
  - destruct (includes tok rk) eqn:Hrk; unfold_handler; rewrite ?Hrk; reflexivity.
Qed.

Lemma handleMouseDown_reserved e w :
  button e < 3 ->
  after (handleMouseDown e) w = w.
Proof.
  intros Hb. unfold after, handleMouseDown.
  destruct (editingShortcutId (ui w)); [|reflexivity].
  destruct (Z.ltb_spec (button e) 3); [reflexivity|lia].
Qed.

Lemma commit_gated accepts s (bm : gmap string ShortcutBinding) id w :
  bm !! id = None ->
  after (commit accepts s bm id) w = w.
Proof.
  intros Hb. unfold commit. rewrite Hb.
  rewrite bool_decide_eq_false_2 by (intros [? ?]; discriminate).
  rewrite andb_false_r. reflexivity.
Qed.

Lemma commit_accepted accepts s (bm : gmap string ShortcutBinding) id w b :
  id <> "" ->
  bm !! id = Some b ->
  accepts (length (calls w)) id (join "+" (recordedKeys s)) = true ->
  after (commit accepts s bm id) w =
    committed id (join "+" (recordedKeys s)) w.
Proof.
  intros Hid Hb Hacc. unfold commit, committed.
  rewrite (truthy_true id Hid), Hb.
  rewrite bool_decide_eq_true_2 by eauto. cbn [andb].
  open_world w. unfold_handler. unfold updateBinding.
  cbn beta iota delta [ui bindings calls]. rewrite Hacc.
  cbn beta iota delta [fst snd ui bindings calls]. rewrite app_two. reflexivity.
Qed.

(** The error path of the commit: the rejection is notified, the snapshot
    is written back when there is one, and resume is requested only after
    an accepted write. *)
Lemma commit_rejected accepts s (bm : gmap string ShortcutBinding) id w b :
  id <> "" ->
  bm !! id = Some b ->
  accepts (length (calls w)) id (join "+" (recordedKeys s)) = false ->
  after (commit accepts s bm id) w =
    commit_failed accepts id (join "+" (recordedKeys s)) (originalBinding s) w.
Proof.
  intros Hid Hb Hacc. unfold commit, commit_failed.
  rewrite (truthy_true id Hid), Hb.
  rewrite bool_decide_eq_true_2 by eauto. cbn [andb].
  open_world w. unfold_handler. unfold updateBinding.
  cbn beta iota delta [ui bindings calls]. rewrite Hacc.
  cbn beta iota delta [fst snd ui bindings calls].
  destruct (truthy (originalBinding s)).
  - cbn beta iota delta [fst snd ui bindings calls].
    rewrite !List.length_app. cbn [length].
    replace (length cs + 1 + 1)%nat with (length cs + 2)%nat by lia.
    destruct (accepts (length cs + 2)%nat id (originalBinding s));
      cbn beta iota delta [fst snd ui bindings calls];
      rewrite <- !app_assoc; reflexivity.
  - cbn beta iota delta [fst snd ui bindings calls].
    rewrite <- !app_assoc. reflexivity.
Qed.

Lemma handleKeyUp_eq accepts e w id :
  editingShortcutId (ui w) = Some id ->
  after (handleKeyUp accepts e) w =
    let tok := normalizeKey (getKeyName e (osType (ui w))) in
    if (length (List.filter (fun k => negb (String.eqb k tok)) (keyPressed (ui w))) =? 0)%nat
       && (0 <? length (recordedKeys (ui w)))%nat
    then after (commit accepts (ui w) (bindings w) id) (released tok w)
    else released tok w.
Proof.
  intros Hed. unfold after at 1, handleKeyUp. rewrite Hed. cbv zeta.
  unfold bind at 1. unfold setKeyPressed at 1, set_state at 1.
  cbn beta iota.
  destruct (_ && _); reflexivity.
Qed.

Lemma handleMouseUp_eq accepts e w id :
  editingShortcutId (ui w) = Some id ->
  3 <= button e ->
  after (handleMouseUp accepts e) w =
    let tok := "mouse" +:+ show_int (button e + 1) in
    if (length (List.filter (fun k => negb (String.eqb k tok)) (keyPressed (ui w))) =? 0)%nat
       && (0 <? length (recordedKeys (ui w)))%nat
    then after (commit accepts (ui w) (bindings w) id) (released tok w)
    else released tok w.
Proof.
  intros Hed Hb. unfold after at 1, handleMouseUp. rewrite Hed. cbv zeta.
  destruct (Z.ltb_spec (button e) 3); [lia|].
  rewrite (getMouseButtonName_extra e Hb).
  set (tok := "mouse" +:+ show_int (button e + 1)).
  replace (truthy tok) with true by reflexivity. cbn [negb].
  unfold bind at 1. unfold setKeyPressed at 1, set_state at 1.
  cbn beta iota.
  destruct (_ && _); reflexivity.
Qed.

(** ** Cancel *)

(** On a cancel, resume is requested once, except when the restore of the
    snapshot is rejected: then it is not requested at all. *)
Lemma cancelled_resume_count accepts id w :
  id <> "" ->
  resume_count id (calls (cancelled accepts id w)) =
    (resume_count id (calls w) +
     (if truthy (originalBinding (ui w))
         && negb (accepts (length (calls w)) id (originalBinding (ui w)))
      then 0 else 1))%nat.
Proof.
  intros Hid. unfold cancelled. rewrite (truthy_true id Hid). cbn [andb].
  destruct (truthy (originalBinding (ui w))); cbn [andb].
  - destruct (accepts _ _ _); cbn [calls negb];
      rewrite resume_count_app; unfold resume_count at 2;
      cbn [List.filter is_resume]; rewrite ?String.eqb_refl; reflexivity.
  - cbn [calls]. rewrite resume_count_app. unfold resume_count at 2.
    cbn [List.filter is_resume]. rewrite String.eqb_refl. reflexivity.
Qed.

(** C1 (the code departs from the claim). A session is opened on the
    binding [transcribe], whose chord is [ctrl+space], and the backend
    rejects the write that restores the snapshot.  After Escape, and
    likewise after a click outside the editor, the session has ended and
    the requests issued are the suspend, the rejected update-binding and
    the error notification: resume is requested not once but never. *)
Theorem cancel_restore_rejected_never_resumes :
  let w1 := run rejecting [StartRecording "transcribe"] example_world in
  let w_esc := run rejecting [KeyDown escape_event] w1 in
  let w_click := run rejecting [Click outside_click] w1 in
  editingShortcutId (ui w1) = Some "transcribe" /\
  originalBinding (ui w1) = "ctrl+space" /\
  calls w1 = [SuspendBinding "transcribe"] /\
  calls w_esc = [SuspendBinding "transcribe";
                 UpdateBinding "transcribe" "ctrl+space";
                 ToastError "settings.general.shortcut.errors.restore"] /\
  resume_count "transcribe" (calls w_esc) = 0%nat /\
  editingShortcutId (ui w_esc) = None /\
  calls w_click = calls w_esc /\
  resume_count "transcribe" (calls w_click) = 0%nat /\
  editingShortcutId (ui w_click) = None.
Proof. vm_compute. repeat split; reflexivity. Qed.

(** ** Session start *)

Lemma startRecording_eq w id :
  after (startRecording id) w =
    if bool_decide (editingShortcutId (ui w) = Some id) then w
    else {| ui := opened id (snapshot w id) (ui w);
            bindings := bindings w;
            calls := calls w ++ [SuspendBinding id] |}.
Proof.
  unfold after, startRecording.
  case_bool_decide as Hed; [reflexivity|].
  unfold_handler. rewrite snapshot_or_empty. reflexivity.
Qed.

(** C2 (as amended). After session-start for [id] the binding being
    recorded is [id], and only [id].  Session-start for the id already
    being recorded changes nothing and issues no request.  Otherwise, also
    when a session on another id is open, it issues the suspend of [id]
    and nothing else, and opens the session on [id] in place: the snapshot
    of [id] is taken, the pressed set and the recorded sequence are
    emptied, the bindings are left as they were. *)
Theorem startRecording_guard_and_replace (w : world) (id : string) :
  let w' := after (startRecording id) w in
  editingShortcutId (ui w') = Some id /\
  w' = if bool_decide (editingShortcutId (ui w) = Some id) then w
       else {| ui := opened id (snapshot w id) (ui w);
               bindings := bindings w;
               calls := calls w ++ [SuspendBinding id] |}.
Proof.
  cbv zeta. rewrite startRecording_eq.
  case_bool_decide as Hed.
  - split; [exact Hed | reflexivity].
  - split; reflexivity.
Qed.

(** C2 (as stated, refuted). With a session open on [transcribe],
    session-start for [cancel] opens the new session without a resume for
    [transcribe]: the open session is not force-closed. *)
Lemma startRecording_other_id_no_resume :
  let w1 := after (startRecording "transcribe") example_world in
  let w2 := after (startRecording "cancel") w1 in
  editingShortcutId (ui w1) = Some "transcribe" /\
  editingShortcutId (ui w2) = Some "cancel" /\
  calls w2 = [SuspendBinding "transcribe"; SuspendBinding "cancel"] /\
  ~ In (ResumeBinding "transcribe") (calls w2).
Proof.
  vm_compute. repeat split.
  intros [H|[H|[]]]; discriminate H.
Qed.

(** ** Mouse buttons *)

(** C6. During a session, a mouse-down with button index below 3 changes
    nothing: no token enters the pressed set or the recorded sequence.  A
    mouse-down with button index 3 or more adds the token
    [mouse<index+1>]: afterwards it is in the pressed set, and in the
    recorded sequence (every pressed token being recorded, as holds in
    every session); it is appended to each unless already there. *)
Theorem mouse_down_reserved_and_extra (w : world) (id : string) (e : MouseEvent) :
  editingShortcutId (ui w) = Some id ->
  let w' := after (handleMouseDown e) w in
  let tok := "mouse" +:+ show_int (button e + 1) in
  (button e < 3 -> w' = w) /\
  (3 <= button e ->
     w' = {| ui := add_token tok (ui w); bindings := bindings w; calls := calls w |} /\
     In tok (keyPressed (ui w')) /\
     (pressed_recorded (ui w) -> In tok (recordedKeys (ui w')))).
Proof.
  intros Hed. cbv zeta. split.
  - apply handleMouseDown_reserved.
  - intros Hb. rewrite (handleMouseDown_extra e w id Hed Hb).
    cbn [ui]. split; [reflexivity|]. split.
    + apply add_token_pressed.
    + intros Hinv. apply (add_token_recorded _ _ Hinv), add_token_pressed.
Qed.

Lemma mouse_down_reserved_and_extra_witness :
  let w := recording_world example_world "transcribe" ["ctrl"] ["ctrl"] in
  after (handleMouseDown {| button := 2; target := 1%nat |}) w = w /\
  after (handleMouseDown {| button := 3; target := 1%nat |}) w =
    recording_world example_world "transcribe" ["ctrl"; "mouse4"] ["ctrl"; "mouse4"] /\
  In "mouse4"
    (recordedKeys (ui (after (handleMouseDown {| button := 3; target := 1%nat |}) w))).
Proof.
  cbv zeta.
  destruct (mouse_down_reserved_and_extra
              (recording_world example_world "transcribe" ["ctrl"] ["ctrl"])
              "transcribe" {| button := 2; target := 1%nat |} eq_refl) as [Hlow _].
  destruct (mouse_down_reserved_and_extra
              (recording_world example_world "transcribe" ["ctrl"] ["ctrl"])
              "transcribe" {| button := 3; target := 1%nat |} eq_refl) as [_ Hextra].
  destruct Hextra as (Heq & _ & Hrec); [cbn; lia|].
  split; [apply Hlow; cbn; lia|]. split; [exact Heq|].
  apply Hrec. intros k Hk. exact Hk.
Defined.

(** ** Commit *)

(** C10. When the pressed set drains to empty on a key-up or on an extra
    mouse-up, the recorded sequence is not empty, but the cached bindings
    have no entry for the id being edited, then no request is issued (no
    update-binding, no resume) and the session stays open: the editing id
    and the recorded sequence are as before, the pressed set is the
    drained, empty one. *)
Theorem commit_gated_on_cached_binding (accepts : Backend) (w : world) (id : string) :
  editingShortcutId (ui w) = Some id ->
  bindings w !! id = None ->
  recordedKeys (ui w) <> [] ->
  let stays_open :=
    {| ui := with_pressed [] (ui w); bindings := bindings w; calls := calls w |} in
  (forall e : KeyboardEvent,
     List.filter (fun k => negb (String.eqb k (normalizeKey (getKeyName e (osType (ui w))))))
       (keyPressed (ui w)) = [] ->
     after (handleKeyUp accepts e) w = stays_open) /\
  (forall e : MouseEvent,
     3 <= button e ->
     List.filter (fun k => negb (String.eqb k ("mouse" +:+ show_int (button e + 1))))
       (keyPressed (ui w)) = [] ->
     after (handleMouseUp accepts e) w = stays_open) /\
  editingShortcutId (ui stays_open) = Some id /\
  recordedKeys (ui stays_open) = recordedKeys (ui w) /\
  calls stays_open = calls w.
Proof.
  intros Hed Hb Hrk. cbv zeta. repeat split.
  - intros e Hdrain. rewrite (handleKeyUp_eq accepts e w id Hed). cbv zeta.
    rewrite commit_gated by exact Hb. unfold released. rewrite Hdrain.
    destruct (_ && _); reflexivity.
  - intros e Hbtn Hdrain. rewrite (handleMouseUp_eq accepts e w id Hed Hbtn). cbv zeta.
    rewrite commit_gated by exact Hb. unfold released. rewrite Hdrain.
    destruct (_ && _); reflexivity.
  - exact Hed.
Qed.

Lemma commit_gated_on_cached_binding_witness :
  after (handleKeyUp accepting a_event)
    (recording_world example_world "paste" ["a"] ["ctrl"; "a"]) =
    recording_world example_world "paste" [] ["ctrl"; "a"] /\
  after (handleMouseUp accepting {| button := 3; target := 1%nat |})
    (recording_world example_world "paste" ["mouse4"] ["mouse4"]) =
    recording_world example_world "paste" [] ["mouse4"].
Proof.
  destruct (commit_gated_on_cached_binding accepting
              (recording_world example_world "paste" ["a"] ["ctrl"; "a"]) "paste")
    as (Hkey & _ & _).
  { reflexivity. }
  { vm_compute. reflexivity. }
  { discriminate. }
  destruct (commit_gated_on_cached_binding accepting
              (recording_world example_world "paste" ["mouse4"] ["mouse4"]) "paste")
    as (_ & Hmouse & _).
  { reflexivity. }
  { vm_compute. reflexivity. }
  { discriminate. }
  split.
  - apply (Hkey a_event). vm_compute. reflexivity.
  - apply (Hmouse {| button := 3; target := 1%nat |}); [cbn; lia | vm_compute; reflexivity].
Defined.









(** ** Every pressed token has been recorded *)

Lemma commit_ui accepts s (bm : gmap string ShortcutBinding) id w :
  after (commit accepts s bm id) w = w \/
  ui (after (commit accepts s bm id) w) = idle (ui w).
Proof.
  destruct (String.eqb_spec id "") as [->|Hid].
  { left. reflexivity. }
  destruct (bm !! id) as [b|] eqn:Hb.
  - right.
    destruct (accepts (length (calls w)) id (join "+" (recordedKeys s))) eqn:Hacc.
    + rewrite (commit_accepted accepts s bm id w b Hid Hb Hacc). reflexivity.
    + rewrite (commit_rejected accepts s bm id w b Hid Hb Hacc).
      unfold commit_failed.
      destruct (truthy (originalBinding s));
        [destruct (accepts (length (calls w) + 2)%nat id (originalBinding s))|];
        reflexivity.
  - left. now apply commit_gated.
Qed.

Lemma released_recorded tok w :
  pressed_recorded (ui w) -> pressed_recorded (ui (released tok w)).
Proof.
  intros Hinv k. unfold released, with_pressed. cbn [ui keyPressed recordedKeys].
  rewrite List.filter_In. intros [Hk _]. now apply Hinv.
Qed.

Lemma idle_recorded s : pressed_recorded (idle s).
Proof. intros k []. Qed.

Lemma cancelled_ui accepts id w : ui (cancelled accepts id w) = idle (ui w).
Proof.
  unfold cancelled.
  destruct (truthy id && truthy (originalBinding (ui w)));
    [destruct (accepts _ _ _) | destruct (truthy id)]; reflexivity.
Qed.

(** The invariant of the recorder: whatever the events, every pressed token
    is in the recorded sequence. *)
Lemma dispatch_pressed_recorded accepts ev w :
  pressed_recorded (ui w) ->
  pressed_recorded (ui (after (dispatch accepts ev) w)).
Proof.
  intros Hinv.
  assert (Hcommit : forall tok id,
    pressed_recorded (ui (after (commit accepts (ui w) (bindings w) id) (released tok w)))).
  { intros tok id.
    destruct (commit_ui accepts (ui w) (bindings w) id (released tok w)) as [-> | ->].
    - now apply released_recorded.
    - apply idle_recorded. }
  destruct (editingShortcutId (ui w)) as [id|] eqn:Hed.
  - destruct ev as [e|e|e|e| |e|id']; cbn [dispatch].
    + destruct (repeat e) eqn:Hrep.
      { now rewrite handleKeyDown_repeat. }
      destruct (String.eqb_spec (key e) "Escape") as [Hk|Hk].
      * rewrite (handleKeyDown_escape accepts e w id Hed Hrep Hk), cancelled_ui.
        apply idle_recorded.
      * apply String.eqb_neq in Hk.
        rewrite (handleKeyDown_token accepts e w id Hed Hrep Hk).
        now apply add_token_recorded.
    + rewrite (handleKeyUp_eq accepts e w id Hed). cbv zeta.
      destruct (_ && _); [apply Hcommit | now apply released_recorded].
    + destruct (Z.ltb_spec (button e) 3).
      * now rewrite handleMouseDown_reserved.
      * rewrite (handleMouseDown_extra e w id Hed) by assumption.
        now apply add_token_recorded.
    + destruct (Z.ltb_spec (button e) 3) as [Hlt|Hge].
      * unfold after, handleMouseUp. rewrite Hed.
        destruct (Z.ltb_spec (button e) 3); [exact Hinv | lia].
      * rewrite (handleMouseUp_eq accepts e w id Hed Hge). cbv zeta.
        destruct (_ && _); [apply Hcommit | now apply released_recorded].
    + exact Hinv.
    + destruct (shortcutRefs (ui w) !! id) as [el|] eqn:Hel.
      * destruct (contains el (target e)) eqn:Hin.
        -- unfold after, handleClickOutside. rewrite Hed, Hel, Hin. exact Hinv.
        -- rewrite (handleClickOutside_outside accepts e w id el Hed Hel Hin), cancelled_ui.
           apply idle_recorded.
      * unfold after, handleClickOutside. rewrite Hed, Hel. exact Hinv.
    + rewrite startRecording_eq. case_bool_decide; [exact Hinv|].
      intros k [].
  - destruct ev as [e|e|e|e| |e|id']; cbn [dispatch];
      try (unfold after, handleKeyDown, handleKeyUp, handleMouseDown, handleMouseUp,
             handleContextMenu, handleClickOutside; rewrite ?Hed; exact Hinv).
    rewrite startRecording_eq. case_bool_decide; [exact Hinv|].
    intros k [].
Qed.

End ShortcutFacts.

(** * Binary64 arithmetic on non-negative numbers

    [binary_round_aux], and with it the multiplication and the addition of
    [SpecFloat], round the exact result to nearest, ties to even
    ([BRA_rne], [SFmul_finite], [SFadd_finite]).  Rounding is monotone, it
    leaves representable values as they are, and its error is at most half
    the last bit kept.  From these follow the monotonicity of the
    smoothing step and the bound [smooth x x <= x]. *)

Module Binary64Facts.
Import Overlay Binary64.

(** ** The number of bits of a mantissa *)

Lemma digits2_bounds p :
  2 ^ (Zpos (digits2_pos p) - 1) <= Zpos p < 2 ^ Zpos (digits2_pos p).
Proof.
  induction p as [p IH|p IH|]; cbn [digits2_pos].
  - rewrite Pos2Z.inj_succ.
    replace (Z.succ (Zpos (digits2_pos p)) - 1) with (Z.succ (Zpos (digits2_pos p) - 1)) by lia.
    rewrite !Z.pow_succ_r by lia. lia.
  - rewrite Pos2Z.inj_succ.
    replace (Z.succ (Zpos (digits2_pos p)) - 1) with (Z.succ (Zpos (digits2_pos p) - 1)) by lia.
    rewrite !Z.pow_succ_r by lia. lia.
  - cbn. lia.
Qed.

Lemma digits2_log2 p : Zpos (digits2_pos p) = Z.log2 (Zpos p) + 1.
Proof.
  pose proof (digits2_bounds p) as H.
  symmetry. apply Z.add_move_r. apply Z.log2_unique; [lia|].
  replace (Z.succ (Zpos (digits2_pos p) - 1)) with (Zpos (digits2_pos p)) by lia.
  exact H.
Qed.

(** ** Shifting to the right *)

Lemma iter_pos_nat {A} (f : A -> A) p x :
  SpecFloat.iter_pos f p x = Nat.iter (Pos.to_nat p) f x.
Proof.
  revert x. induction p as [p IH|p IH|]; intros x; cbn [SpecFloat.iter_pos].
  - rewrite !IH. rewrite Pos2Nat.inj_xI.
    replace (S (2 * Pos.to_nat p)) with (Pos.to_nat p + (Pos.to_nat p + 1))%nat by lia.
    rewrite !Nat.iter_add. reflexivity.
  - rewrite !IH. rewrite Pos2Nat.inj_xO.
    replace (2 * Pos.to_nat p)%nat with (Pos.to_nat p + Pos.to_nat p)%nat by lia.
    rewrite Nat.iter_add. reflexivity.
  - reflexivity.
Qed.

Lemma shr_1_spec m r s :
  0 <= m ->
  shr_1 {| shr_m := m; shr_r := r; shr_s := s |} =
    {| shr_m := m / 2; shr_r := Z.odd m; shr_s := r || s |}.
Proof.
  intros Hm. rewrite <- Z.div2_div.
  destruct m as [|p|p]; [reflexivity| |lia].
  destruct p; reflexivity.
Qed.

Lemma shifted_0 M : shifted M 0 = {| shr_m := M; shr_r := false; shr_s := false |}.
Proof.
  unfold shifted. cbn [Z.pow]. rewrite Z.div_1_r, Z.mod_1_r. reflexivity.
Qed.

Lemma shifted_succ M k :
  0 <= M -> 0 <= k ->
  shr_1 (shifted M k) = shifted M (k + 1).
Proof.
  intros HM Hk. unfold shifted.
  assert (HP : 0 < 2 ^ k) by (apply Z.pow_pos_nonneg; lia).
  rewrite shr_1_spec by (apply Z.div_pos; lia).
  rewrite Z.pow_add_r by lia. change (2 ^ 1) with 2.
  set (P := 2 ^ k) in *.
  pose proof (Z.div_mod M P ltac:(lia)) as E.
  pose proof (Z.mod_pos_bound M P HP) as HR.
  set (m := M / P) in *. set (R := M mod P) in *.
  pose proof (Z.div_mod m 2 ltac:(lia)) as E2.
  pose proof (Z.mod_pos_bound m 2 ltac:(lia)) as Hb.
  assert (Hq : M / (P * 2) = m / 2).
  { unfold m. rewrite Z.div_div by lia. reflexivity. }
  assert (HR' : M mod (P * 2) = (m mod 2) * P + R).
  { symmetry. apply (Z.mod_unique_pos M (P * 2) (m / 2)); nia. }
  rewrite Hq, HR'.
  assert (Hodd : Z.odd m = (m mod 2 =? 1)).
  { rewrite Zmod_odd. destruct (Z.odd m); reflexivity. }
  rewrite Hodd.
  assert (Hcases : m mod 2 = 0 \/ m mod 2 = 1) by lia.
  destruct Hcases as [Hz|Hz]; rewrite Hz; cbn [Z.eqb]; f_equal.
  - symmetry. apply Z.leb_gt. lia.
  - replace (0 * P + R) with R by lia.
    destruct (Z.leb_spec P (2 * R)); cbn [orb];
      destruct (Z.eqb_spec R 0); destruct (Z.eqb_spec (2 * R) P);
      destruct (Z.eqb_spec (2 * R) (P * 2)); cbn [negb andb];
      try reflexivity; lia.
  - symmetry. apply Z.leb_le. lia.
  - destruct (Z.leb_spec P (2 * R)); cbn [orb];
      destruct (Z.eqb_spec R 0); destruct (Z.eqb_spec (2 * R) P);
      destruct (Z.eqb_spec (1 * P + R) 0);
      destruct (Z.eqb_spec (2 * (1 * P + R)) (P * 2)); cbn [negb andb];
      try reflexivity; lia.
Qed.

Lemma iter_shr_1 M n :
  0 <= M ->
  Nat.iter n shr_1 {| shr_m := M; shr_r := false; shr_s := false |} =
    shifted M (Z.of_nat n).
Proof.
  intros HM. induction n as [|n IH].
  - change (Nat.iter 0 shr_1 ?x) with x. now rewrite shifted_0.
  - rewrite Nat.iter_succ, IH, shifted_succ by lia. f_equal. lia.
Qed.

Lemma shr_exact M E n :
  0 <= M -> 0 <= n ->
  shr {| shr_m := M; shr_r := false; shr_s := false |} E n = (shifted M n, E + n).
Proof.
  intros HM Hn. unfold shr. destruct n as [|p|p]; [| |lia].
  - now rewrite shifted_0, Z.add_0_r.
  - rewrite iter_pos_nat, iter_shr_1 by lia. now rewrite positive_nat_Z.
Qed.

Lemma rne_shifted M n :
  0 <= M -> 0 <= n ->
  round_nearest_even (shr_m (shifted M n)) (loc_of_shr_record (shifted M n)) =
    if round_up n (M / 2 ^ n) (M mod 2 ^ n) then M / 2 ^ n + 1 else M / 2 ^ n.
Proof.
  intros HM Hn. unfold shifted, round_up. cbn [shr_m loc_of_shr_record].
  assert (HP : 0 < 2 ^ n) by (apply Z.pow_pos_nonneg; lia).
  pose proof (Z.mod_pos_bound M (2 ^ n) HP) as HR.
  set (P := 2 ^ n) in *. set (R := M mod P) in *. set (q := M / P).
  rewrite <- Z.negb_even.
  destruct (Z.leb_spec P (2 * R)); destruct (Z.eqb_spec R 0);
    destruct (Z.eqb_spec (2 * R) P); destruct (Z.ltb_spec P (2 * R));
    destruct (Z.eqb_spec P (2 * R)); cbn [negb andb orb round_nearest_even];
    try lia; try reflexivity.
  destruct (Z.even q); reflexivity.
Qed.

Lemma fexp_eq e : fexp prec emax e = Z.max (e - 53) (-1074).
Proof. reflexivity. Qed.

(** No shift is needed for a mantissa that fits. *)
Lemma shr_fexp_fits m e :
  0 < m < 2 ^ 53 -> -1074 <= e ->
  shr_fexp prec emax m e loc_Exact =
    ({| shr_m := m; shr_r := false; shr_s := false |}, e).
Proof.
  intros Hm He. unfold shr_fexp. cbn [shr_record_of_loc].
  destruct m as [|p|p]; try lia. cbn [Zdigits2].
  pose proof (digits2_bounds p) as Hd.
  assert (Zpos (digits2_pos p) <= 53).
  { destruct (Z.le_gt_cases (Zpos (digits2_pos p)) 53) as [|Hgt]; [assumption|].
    assert (2 ^ 53 <= 2 ^ (Zpos (digits2_pos p) - 1)) by (apply Z.pow_le_mono_r; lia).
    lia. }
  rewrite fexp_eq. unfold shr.
  destruct (Z.max (Zpos (digits2_pos p) + e - 53) (-1074) - e) eqn:En; try reflexivity.
  lia.
Qed.

Lemma shr_fexp_carry e :
  -1074 <= e ->
  shr_fexp prec emax (2 ^ 53) e loc_Exact =
    ({| shr_m := 2 ^ 52; shr_r := false; shr_s := false |}, e + 1).
Proof.
  intros He. unfold shr_fexp. cbn [shr_record_of_loc].
  change (Zdigits2 (2 ^ 53)) with 54. rewrite fexp_eq.
  replace (Z.max (54 + e - 53) (-1074) - e) with 1 by lia.
  reflexivity.
Qed.

Lemma shr_fexp_zero e :
  -1074 <= e ->
  shr_fexp prec emax 0 e loc_Exact =
    ({| shr_m := 0; shr_r := false; shr_s := false |}, e).
Proof.
  intros He. unfold shr_fexp. cbn [shr_record_of_loc Zdigits2]. rewrite fexp_eq.
  unfold shr.
  destruct (Z.max (0 + e - 53) (-1074) - e) eqn:En; try reflexivity. lia.
Qed.

Lemma rounded_mantissa_bounds M d n :
  0 < M -> 2 ^ (d - 1) <= M < 2 ^ d -> 0 <= n -> d - 53 <= n ->
  0 <= rounded_mantissa M n <= 2 ^ 53 /\
  (n = d - 53 -> 2 ^ 52 <= rounded_mantissa M n).
Proof.
  intros HM Hd Hn Hdn. unfold rounded_mantissa.
  assert (HP : 0 < 2 ^ n) by (apply Z.pow_pos_nonneg; lia).
  pose proof (Z.div_mod M (2 ^ n) ltac:(lia)) as E.
  pose proof (Z.mod_pos_bound M (2 ^ n) HP) as HR.
  assert (Hq0 : 0 <= M / 2 ^ n) by (apply Z.div_pos; lia).
  assert (Hq : M / 2 ^ n < 2 ^ 53).
  { apply Z.div_lt_upper_bound; [lia|].
    rewrite <- Z.pow_add_r by lia.
    apply Z.lt_le_trans with (2 ^ d); [lia|].
    apply Z.pow_le_mono_r; lia. }
  split.
  - destruct (round_up _ _ _); lia.
  - intros ->.
    assert (2 ^ 52 <= M / 2 ^ (d - 53)).
    { apply Z.div_le_lower_bound; [lia|].
      rewrite <- Z.pow_add_r by lia.
      replace (d - 53 + 52) with (d - 1) by lia. lia. }
    destruct (round_up _ _ _); lia.
Qed.

Lemma BRA_val (M : positive) (E : Z) :
  let e1 := fexp prec emax (Zpos (digits2_pos M) + E) in
  let n := e1 - E in
  0 <= n ->
  binary_round_aux prec emax false (Zpos M) E loc_Exact =
    let m1 := rounded_mantissa (Zpos M) n in
    if m1 =? 0 then S754_zero false
    else if m1 =? 2 ^ 53 then
      if e1 + 1 <=? 971 then S754_finite false (Z.to_pos (2 ^ 52)) (e1 + 1)
      else S754_infinity false
    else if e1 <=? 971 then S754_finite false (Z.to_pos m1) e1
    else S754_infinity false.
Proof.
  cbv zeta. intros Hn.
  set (e1 := fexp prec emax (Zpos (digits2_pos M) + E)) in *.
  assert (He1 : -1074 <= e1) by (unfold e1; rewrite fexp_eq; lia).
  unfold binary_round_aux.
  unfold shr_fexp at 1. cbn [shr_record_of_loc Zdigits2]. fold e1.
  rewrite shr_exact by lia.
  replace (E + (e1 - E)) with e1 by lia.
  rewrite rne_shifted by lia. fold (rounded_mantissa (Zpos M) (e1 - E)).
  pose proof (digits2_bounds M) as Hd.
  destruct (rounded_mantissa_bounds (Zpos M) (Zpos (digits2_pos M)) (e1 - E)
              ltac:(lia) Hd Hn) as [Hm1 _].
  { unfold e1. rewrite fexp_eq. lia. }
  set (m1 := rounded_mantissa (Zpos M) (e1 - E)) in *.
  destruct (Z.eqb_spec m1 0) as [Hz|Hz].
  - rewrite Hz, shr_fexp_zero by lia. reflexivity.
  - destruct (Z.eqb_spec m1 (2 ^ 53)) as [Hc|Hc].
    + rewrite Hc, shr_fexp_carry by lia. reflexivity.
    + rewrite shr_fexp_fits by lia. cbn [shr_m].
      destruct m1 as [|p|p]; try lia. reflexivity.
Qed.

Lemma pow2_pos k : 0 <= k -> 0 < 2 ^ k.
Proof. intros. apply Z.pow_pos_nonneg; lia. Qed.

Lemma log2_scaled M k : 0 < M -> 0 <= k -> Z.log2 (M * 2 ^ k) = Z.log2 M + k.
Proof. intros. rewrite Z.log2_mul_pow2 by lia. lia. Qed.

Lemma quantum_scaled (M : positive) E :
  0 <= E + scale ->
  quantum (Zpos M * 2 ^ (E + scale)) =
    fexp prec emax (Zpos (digits2_pos M) + E) + scale.
Proof.
  intros HE. unfold quantum. rewrite log2_scaled by lia.
  rewrite fexp_eq, digits2_log2. unfold scale in *. lia.
Qed.

Lemma round_up_scaled n q R k :
  0 <= n -> 0 <= k ->
  round_up (n + k) q (R * 2 ^ k) = round_up n q R.
Proof.
  intros Hn Hk. unfold round_up. rewrite Z.pow_add_r by lia.
  pose proof (pow2_pos k Hk) as HP. pose proof (pow2_pos n Hn) as HQ.
  set (P := 2 ^ k) in *. set (Q := 2 ^ n) in *.
  f_equal; [|f_equal].
  - destruct (Z.ltb_spec (Q * P) (2 * (R * P))); destruct (Z.ltb_spec Q (2 * R));
      try reflexivity; nia.
  - destruct (Z.eqb_spec (Q * P) (2 * (R * P))); destruct (Z.eqb_spec Q (2 * R));
      try reflexivity; nia.
Qed.

Lemma rne_scaled (M : positive) E :
  let e1 := fexp prec emax (Zpos (digits2_pos M) + E) in
  0 <= E + scale -> 0 <= e1 - E ->
  rne (Zpos M * 2 ^ (E + scale)) =
    rounded_mantissa (Zpos M) (e1 - E) * 2 ^ (e1 + scale).
Proof.
  cbv zeta. intros HE Hn. unfold rne. rewrite quantum_scaled by lia.
  set (e1 := fexp prec emax (Zpos (digits2_pos M) + E)) in *.
  replace (e1 + scale) with ((e1 - E) + (E + scale)) by lia.
  set (n := e1 - E) in *. set (k := E + scale) in *.
  pose proof (pow2_pos k HE) as HP. pose proof (pow2_pos n Hn) as HQ.
  assert (Hdiv : Zpos M * 2 ^ k / 2 ^ (n + k) = Zpos M / 2 ^ n).
  { rewrite Z.pow_add_r by lia. apply Z.div_mul_cancel_r; lia. }
  assert (Hmod : (Zpos M * 2 ^ k) mod 2 ^ (n + k) = (Zpos M mod 2 ^ n) * 2 ^ k).
  { rewrite Z.pow_add_r by lia. apply Z.mul_mod_distr_r; lia. }
  rewrite Hdiv, Hmod, round_up_scaled by lia.
  reflexivity.
Qed.

Lemma overflow_eq : overflow = 2 ^ 3172.
Proof. reflexivity. Qed.

Lemma encode_mantissa m1 e1 :
  0 <= m1 <= 2 ^ 53 -> -1074 <= e1 ->
  (-1074 < e1 -> 2 ^ 52 <= m1) ->
  encode (m1 * 2 ^ (e1 + scale)) =
    if m1 =? 0 then S754_zero false
    else if m1 =? 2 ^ 53 then
      if e1 + 1 <=? 971 then S754_finite false (Z.to_pos (2 ^ 52)) (e1 + 1)
      else S754_infinity false
    else if e1 <=? 971 then S754_finite false (Z.to_pos m1) e1
    else S754_infinity false.
Proof.
  intros Hm He Hnorm. unfold encode.
  assert (Hk : 0 <= e1 + scale) by (unfold scale; lia).
  pose proof (pow2_pos _ Hk) as HP.
  destruct (Z.eqb_spec m1 0) as [->|Hz].
  { rewrite Z.mul_0_l. reflexivity. }
  destruct (Z.leb_spec (m1 * 2 ^ (e1 + scale)) 0) as [Hle|_]; [nia|].
  rewrite overflow_eq.
  destruct (Z.eqb_spec m1 (2 ^ 53)) as [->|Hc].
  - rewrite <- Z.pow_add_r by lia.
    assert (Hq : quantum (2 ^ (53 + (e1 + scale))) = e1 + 1 + scale).
    { unfold quantum. rewrite Z.log2_pow2 by lia. unfold scale in *. lia. }
    rewrite Hq.
    replace (53 + (e1 + scale)) with (52 + (e1 + 1 + scale)) at 2 by lia.
    rewrite (Z.pow_add_r 2 52 (e1 + 1 + scale)) by lia.
    rewrite Z.div_mul by (apply Z.pow_nonzero; lia).
    replace (e1 + 1 + scale - scale) with (e1 + 1) by lia.
    destruct (Z.leb_spec (e1 + 1) 971).
    + destruct (Z.leb_spec (2 ^ 3172) (2 ^ (53 + (e1 + scale)))) as [Hov|_]; [|reflexivity].
      apply Z.pow_le_mono_r_iff in Hov; unfold scale in *; lia.
    + destruct (Z.leb_spec (2 ^ 3172) (2 ^ (53 + (e1 + scale)))) as [_|Hov]; [reflexivity|].
      apply Z.pow_lt_mono_r_iff in Hov; unfold scale in *; lia.
  - assert (Hlog : Z.log2 m1 <= 52).
    { apply Z.lt_succ_r. apply Z.log2_lt_pow2; lia. }
    assert (Hq : quantum (m1 * 2 ^ (e1 + scale)) = e1 + scale).
    { unfold quantum. rewrite log2_scaled by lia.
      destruct (Z.eq_dec e1 (-1074)) as [->|Hne]; [unfold scale; lia|].
      assert (52 <= Z.log2 m1) by (apply Z.log2_le_pow2; lia).
      unfold scale in *. lia. }
    rewrite Hq, Z.div_mul by lia.
    replace (e1 + scale - scale) with e1 by lia.
    destruct (Z.leb_spec e1 971).
    + destruct (Z.leb_spec (2 ^ 3172) (m1 * 2 ^ (e1 + scale))) as [Hov|_]; [|reflexivity].
      assert (m1 * 2 ^ (e1 + scale) < 2 ^ 53 * 2 ^ (e1 + scale)) by nia.
      rewrite <- Z.pow_add_r in H0 by lia.
      assert (2 ^ (53 + (e1 + scale)) <= 2 ^ 3172)
        by (apply Z.pow_le_mono_r; unfold scale; lia).
      lia.
    + destruct (Z.leb_spec (2 ^ 3172) (m1 * 2 ^ (e1 + scale))) as [_|Hov]; [reflexivity|].
      assert (2 ^ 52 * 2 ^ (e1 + scale) <= m1 * 2 ^ (e1 + scale)) by nia.
      rewrite <- Z.pow_add_r in H0 by lia.
      assert (2 ^ 3172 <= 2 ^ (52 + (e1 + scale)))
        by (apply Z.pow_le_mono_r; unfold scale; lia).
      lia.
Qed.

(** [binary_round_aux] rounds the exact value to nearest, ties to even. *)
Lemma BRA_rne (M : positive) (E : Z) :
  0 <= E + scale ->
  E <= fexp prec emax (Zpos (digits2_pos M) + E) ->
  binary_round_aux prec emax false (Zpos M) E loc_Exact =
    encode (rne (Zpos M * 2 ^ (E + scale))).
Proof.
  intros HE Hn.
  rewrite BRA_val by lia. rewrite rne_scaled by lia. cbv zeta.
  set (e1 := fexp prec emax (Zpos (digits2_pos M) + E)) in *.
  pose proof (digits2_bounds M) as Hd.
  destruct (rounded_mantissa_bounds (Zpos M) (Zpos (digits2_pos M)) (e1 - E)
              ltac:(lia) Hd ltac:(lia)) as [Hm1 Hnorm].
  { unfold e1. rewrite fexp_eq. lia. }
  rewrite encode_mantissa; [reflexivity | exact Hm1 | unfold e1; rewrite fexp_eq; lia |].
  intros Hgt. apply Hnorm. unfold e1 in *. rewrite fexp_eq in *. lia.
Qed.

Lemma quantum_ge N : 1074 <= quantum N.
Proof. unfold quantum. lia. Qed.

Lemma quantum_mono N1 N2 : N1 <= N2 -> quantum N1 <= quantum N2.
Proof.
  intros H. unfold quantum. pose proof (Z.log2_le_mono N1 N2 H). lia.
Qed.

Lemma rne_0 : rne 0 = 0.
Proof. reflexivity. Qed.

(** The quotient by the quantum has at most 53 bits. *)
Lemma quotient_lt N : 0 <= N -> N / 2 ^ quantum N < 2 ^ 53.
Proof.
  intros HN. pose proof (quantum_ge N) as Hg.
  apply Z.div_lt_upper_bound; [apply pow2_pos; lia|].
  rewrite <- Z.pow_add_r by lia.
  destruct (Z.eq_dec N 0) as [->|Hne]; [apply pow2_pos; lia|].
  pose proof (Z.log2_spec N ltac:(lia)) as [_ Hlt].
  apply Z.lt_le_trans with (2 ^ Z.succ (Z.log2 N)); [exact Hlt|].
  apply Z.pow_le_mono_r; [lia|]. unfold quantum. lia.
Qed.

Lemma quotient_ge N :
  0 < N -> 1074 < quantum N -> 2 ^ 52 <= N / 2 ^ quantum N.
Proof.
  intros HN Hg.
  assert (Hq : quantum N = Z.log2 N - 52) by (unfold quantum in *; lia).
  pose proof (Z.log2_spec N HN) as [Hle _].
  apply Z.div_le_lower_bound; [apply pow2_pos; lia|].
  rewrite <- Z.pow_add_r by lia.
  replace (quantum N + 52) with (Z.log2 N) by lia. exact Hle.
Qed.

Lemma rne_bounds N :
  0 <= N ->
  let g := quantum N in
  (N / 2 ^ g) * 2 ^ g <= rne N <= (N / 2 ^ g + 1) * 2 ^ g.
Proof.
  intros HN g. unfold rne. fold g.
  pose proof (pow2_pos g ltac:(pose proof (quantum_ge N); unfold g; lia)) as HP.
  destruct (round_up _ _ _); nia.
Qed.

Lemma rne_nonneg N : 0 <= N -> 0 <= rne N.
Proof.
  intros HN. pose proof (rne_bounds N HN) as [H _]. cbv zeta in H.
  pose proof (quantum_ge N) as Hg.
  pose proof (pow2_pos (quantum N) ltac:(lia)) as HP.
  assert (0 <= N / 2 ^ quantum N) by (apply Z.div_pos; lia).
  nia.
Qed.

Lemma round_up_mono g q r1 r2 :
  r1 <= r2 -> round_up g q r1 = true -> round_up g q r2 = true.
Proof.
  unfold round_up. intros Hr H.
  apply orb_true_iff in H. apply orb_true_iff.
  destruct H as [H|H].
  - left. apply Z.ltb_lt in H. apply Z.ltb_lt. lia.
  - apply andb_true_iff in H as [H Ho]. apply Z.eqb_eq in H.
    destruct (Z.eq_dec r1 r2) as [<-|Hne].
    + right. apply andb_true_iff. split; [now apply Z.eqb_eq | exact Ho].
    + left. apply Z.ltb_lt. lia.
Qed.

(** Rounding to nearest is monotone. *)
Lemma rne_mono N1 N2 : 0 <= N1 <= N2 -> rne N1 <= rne N2.
Proof.
  intros [H1 H12].
  destruct (Z.eq_dec N1 0) as [->|Hne].
  { rewrite rne_0. apply rne_nonneg. lia. }
  pose proof (quantum_mono N1 N2 H12) as Hg.
  pose proof (quantum_ge N1) as Hg1.
  destruct (Z.eq_dec (quantum N1) (quantum N2)) as [Heq|Hneq].
  - unfold rne. rewrite <- Heq.
    set (g := quantum N1) in *.
    pose proof (pow2_pos g ltac:(lia)) as HP.
    pose proof (Z.div_mod N1 (2 ^ g) ltac:(lia)) as E1.
    pose proof (Z.div_mod N2 (2 ^ g) ltac:(lia)) as E2.
    pose proof (Z.mod_pos_bound N1 (2 ^ g) HP) as R1.
    pose proof (Z.mod_pos_bound N2 (2 ^ g) HP) as R2.
    pose proof (Z.div_le_mono N1 N2 (2 ^ g) HP H12) as Hq.
    set (P := 2 ^ g) in *.
    set (q1 := N1 / P) in *. set (q2 := N2 / P) in *.
    set (r1 := N1 mod P) in *. set (r2 := N2 mod P) in *.
    destruct (Z.eq_dec q1 q2) as [Hqq|Hqq].
    + rewrite <- Hqq.
      destruct (round_up g q1 r1) eqn:U1.
      * rewrite (round_up_mono g q1 r1 r2) by (try assumption; nia). lia.
      * destruct (round_up g q1 r2); nia.
    + destruct (round_up g q1 r1); destruct (round_up g q2 r2); nia.
  - assert (Hlt : quantum N1 < quantum N2) by lia.
    pose proof (rne_bounds N1 H1) as [_ Hu]. cbv zeta in Hu.
    pose proof (rne_bounds N2 ltac:(lia)) as [Hl _]. cbv zeta in Hl.
    pose proof (quotient_lt N1 H1) as Hq1.
    pose proof (quotient_ge N2 ltac:(lia) ltac:(lia)) as Hq2.
    set (g1 := quantum N1) in *. set (g2 := quantum N2) in *.
    pose proof (pow2_pos g1 ltac:(lia)) as HP1.
    pose proof (pow2_pos g2 ltac:(lia)) as HP2.
    assert (Hpow : 2 ^ 53 * 2 ^ g1 <= 2 ^ 52 * 2 ^ g2).
    { rewrite <- !Z.pow_add_r by lia. apply Z.pow_le_mono_r; lia. }
    nia.
Qed.

(** The result is a multiple of the least positive value. *)
Lemma rne_multiple N : exists k, rne N = k * 2 ^ 1074.
Proof.
  unfold rne. pose proof (quantum_ge N) as Hg.
  set (g := quantum N) in *.
  exists ((if round_up g (N / 2 ^ g) (N mod 2 ^ g) then N / 2 ^ g + 1 else N / 2 ^ g)
          * 2 ^ (g - 1074)).
  rewrite <- Z.mul_assoc, <- Z.pow_add_r by lia.
  now replace (g - 1074 + 1074) with g by lia.
Qed.

(** The error of rounding is at most half the quantum. *)
Lemma rne_upper N : 0 <= N -> 2 * rne N <= 2 * N + 2 ^ quantum N.
Proof.
  intros HN. unfold rne. pose proof (quantum_ge N) as Hg.
  set (g := quantum N) in *.
  pose proof (pow2_pos g ltac:(lia)) as HP.
  pose proof (Z.div_mod N (2 ^ g) ltac:(lia)) as E.
  pose proof (Z.mod_pos_bound N (2 ^ g) HP) as R.
  unfold round_up.
  destruct (Z.ltb_spec (2 ^ g) (2 * (N mod 2 ^ g))); cbn [orb]; [nia|].
  destruct (Z.eqb_spec (2 ^ g) (2 * (N mod 2 ^ g))); cbn [andb]; [|nia].
  destruct (Z.odd _); nia.
Qed.

Lemma rne_lower N : 0 <= N -> 2 * N <= 2 * rne N + 2 ^ quantum N.
Proof.
  intros HN. unfold rne. pose proof (quantum_ge N) as Hg.
  set (g := quantum N) in *.
  pose proof (pow2_pos g ltac:(lia)) as HP.
  pose proof (Z.div_mod N (2 ^ g) ltac:(lia)) as E.
  pose proof (Z.mod_pos_bound N (2 ^ g) HP) as R.
  unfold round_up.
  destruct (Z.ltb_spec (2 ^ g) (2 * (N mod 2 ^ g))); cbn [orb]; [nia|].
  destruct (Z.eqb_spec (2 ^ g) (2 * (N mod 2 ^ g))); cbn [andb]; [|nia].
  destruct (Z.odd _); nia.
Qed.

(** The quantum in terms of the value: a relative bound for normal values,
    the absolute one below. *)
Lemma quantum_pow N :
  0 < N ->
  (2 ^ 1126 <= N -> 2 ^ 52 * 2 ^ quantum N <= N) /\
  (N < 2 ^ 1126 -> quantum N = 1074).
Proof.
  intros HN. pose proof (Z.log2_spec N HN) as [Hle Hlt]. split.
  - intros Hbig.
    assert (1126 <= Z.log2 N) by (apply Z.log2_le_pow2; lia).
    assert (Hq : quantum N = Z.log2 N - 52) by (unfold quantum; lia).
    rewrite Hq, <- Z.pow_add_r by lia.
    now replace (52 + (Z.log2 N - 52)) with (Z.log2 N) by lia.
  - intros Hsmall.
    assert (Z.log2 N < 1126) by (apply Z.log2_lt_pow2; lia).
    unfold quantum. lia.
Qed.

Lemma bounded_facts m e :
  bounded prec emax m e = true ->
  Zpos (digits2_pos m) <= 53 /\ -1074 <= e <= 971 /\
  (Zpos (digits2_pos m) = 53 \/ e = -1074) /\
  fexp prec emax (Zpos (digits2_pos m) + e) = e.
Proof.
  unfold bounded, canonical_mantissa. intros H.
  apply andb_true_iff in H as [Hc He].
  apply Z.eqb_eq in Hc. apply Z.leb_le in He.
  change (emax - prec) with 971 in He.
  pose proof Hc as Hc'. rewrite fexp_eq in Hc'. lia.
Qed.

Lemma sval_finite m e :
  bounded prec emax m e = true ->
  let V := Zpos m * 2 ^ (e + scale) in
  2 ^ 1074 <= V < overflow /\ quantum V = e + scale /\ V / 2 ^ quantum V = Zpos m.
Proof.
  intros Hb V. destruct (bounded_facts m e Hb) as (Hd & He & Hn & Hf).
  assert (Hk : 0 <= e + scale) by (unfold scale; lia).
  pose proof (pow2_pos _ Hk) as HP.
  assert (Hq : quantum V = e + scale).
  { unfold V. rewrite quantum_scaled by lia. now rewrite Hf. }
  pose proof (digits2_bounds m) as Hm.
  split; [split|split].
  - unfold V.
    assert (2 ^ 1074 <= 2 ^ (e + scale)) by (apply Z.pow_le_mono_r; unfold scale; lia).
    nia.
  - unfold V. rewrite overflow_eq.
    assert (Zpos m < 2 ^ 53).
    { apply Z.lt_le_trans with (2 ^ Zpos (digits2_pos m)); [lia|].
      apply Z.pow_le_mono_r; lia. }
    assert (2 ^ 53 * 2 ^ (e + scale) <= 2 ^ 3172).
    { rewrite <- Z.pow_add_r by lia. apply Z.pow_le_mono_r; unfold scale; lia. }
    nia.
  - exact Hq.
  - rewrite Hq. unfold V. apply Z.div_mul. lia.
Qed.

Lemma encode_sval m e :
  bounded prec emax m e = true ->
  encode (Zpos m * 2 ^ (e + scale)) = S754_finite false m e.
Proof.
  intros Hb. destruct (sval_finite m e Hb) as ([Hlo Hhi] & Hq & Hm).
  unfold encode.
  assert (0 < 2 ^ 1074) by (apply pow2_pos; lia).
  destruct (Z.leb_spec (Zpos m * 2 ^ (e + scale)) 0); [lia|].
  destruct (Z.leb_spec overflow (Zpos m * 2 ^ (e + scale))); [lia|].
  rewrite Hm, Hq. cbn [Z.to_pos]. f_equal. lia.
Qed.

Lemma encode_nonneg_valid x :
  valid_binary x = true -> nonneg x = true -> encode (sval x) = x.
Proof.
  intros Hv Hn. destruct x as [[|]|[|]| |[|] m e]; try discriminate Hn.
  - reflexivity.
  - reflexivity.
  - cbn [sval]. now apply encode_sval.
Qed.

(** A representable value is its own rounding. *)
Lemma rne_repr m e :
  bounded prec emax m e = true ->
  rne (Zpos m * 2 ^ (e + scale)) = Zpos m * 2 ^ (e + scale).
Proof.
  intros Hb. destruct (sval_finite m e Hb) as ([Hlo Hhi] & Hq & Hm).
  destruct (bounded_facts m e Hb) as (Hd & He & Hn & Hf).
  unfold rne. rewrite Hm, Hq.
  rewrite Z.mod_mul by (apply Z.pow_nonzero; unfold scale; lia).
  unfold round_up.
  pose proof (pow2_pos (e + scale) ltac:(unfold scale; lia)).
  destruct (Z.ltb_spec (2 ^ (e + scale)) (2 * 0)); [lia|].
  destruct (Z.eqb_spec (2 ^ (e + scale)) (2 * 0)); [lia|].
  reflexivity.
Qed.

(** The order of the encodings is the order of the values. *)
Lemma SFleb_encode W1 W2 :
  W1 <= W2 -> SFleb (encode W1) (encode W2) = true.
Proof.
  intros H. unfold encode.
  destruct (Z.leb_spec W1 0) as [H1|H1].
  - destruct (Z.leb_spec W2 0); [reflexivity|].
    destruct (Z.leb_spec overflow W2); reflexivity.
  - destruct (Z.leb_spec W2 0); [lia|].
    destruct (Z.leb_spec overflow W1).
    + destruct (Z.leb_spec overflow W2); [reflexivity | lia].
    + destruct (Z.leb_spec overflow W2); [reflexivity|].
      unfold SFleb, SFcompare.
      pose proof (quantum_mono W1 W2 H) as Hg.
      destruct (Z.compare_spec (quantum W1 - scale) (quantum W2 - scale)) as [E|E|E];
        [|reflexivity|lia].
      assert (Eg : quantum W1 = quantum W2) by lia. rewrite Eg.
      pose proof (quantum_ge W2).
      pose proof (pow2_pos (quantum W2) ltac:(lia)) as HP.
      pose proof (Z.div_le_mono W1 W2 _ HP H) as Hq.
      assert (0 <= W1 / 2 ^ quantum W2) by (apply Z.div_pos; lia).
      fold (Pos.compare (Z.to_pos (W1 / 2 ^ quantum W2)) (Z.to_pos (W2 / 2 ^ quantum W2))).
      destruct (Pos.compare_spec (Z.to_pos (W1 / 2 ^ quantum W2))
                  (Z.to_pos (W2 / 2 ^ quantum W2))) as [|Hc|Hc]; try reflexivity.
      exfalso.
      destruct (W1 / 2 ^ quantum W2) as [|q1|q1] eqn:E1;
        destruct (W2 / 2 ^ quantum W2) as [|q2|q2] eqn:E2; cbn [Z.to_pos] in Hc; lia.
Qed.

Lemma SFleb_sval x y :
  valid_binary x = true -> valid_binary y = true ->
  nonneg x = true -> nonneg y = true ->
  SFleb x y = true <-> sval x <= sval y.
Proof.
  intros Vx Vy Nx Ny. split.
  - intros Hle.
    destruct x as [[|]|[|]| |[|] mx ex]; try discriminate Nx;
      destruct y as [[|]|[|]| |[|] my ey]; try discriminate Ny;
      try discriminate Hle; cbn [sval]; rewrite ?overflow_eq;
      try (pose proof (pow2_pos 3172 ltac:(lia)); lia).
    + cbn [valid_binary] in Vx. destruct (sval_finite mx ex Vx) as ([_ Hhi] & _).
      rewrite overflow_eq in Hhi. lia.
    + cbn [valid_binary] in Vx, Vy.
      destruct (bounded_facts mx ex Vx) as (Hdx & Hex & Hnx & _).
      destruct (bounded_facts my ey Vy) as (Hdy & Hey & Hny & _).
      pose proof (digits2_bounds mx) as Bx. pose proof (digits2_bounds my) as By.
      unfold SFleb, SFcompare in Hle.
      destruct (Z.compare_spec ex ey) as [E|E|E]; try discriminate Hle.
      * subst ey. fold (Pos.compare mx my) in Hle.
        destruct (Pos.compare_spec mx my) as [|Hc|Hc]; try discriminate Hle;
          pose proof (pow2_pos (ex + scale) ltac:(unfold scale; lia)); nia.
      * assert (Hdy53 : Zpos (digits2_pos my) = 53) by lia.
        rewrite Hdy53 in By.
        assert (Zpos mx < 2 ^ 53).
        { apply Z.lt_le_trans with (2 ^ Zpos (digits2_pos mx)); [lia|].
          apply Z.pow_le_mono_r; lia. }
        assert (2 ^ 53 * 2 ^ (ex + scale) <= 2 ^ 52 * 2 ^ (ey + scale)).
        { rewrite <- !Z.pow_add_r by (unfold scale; lia).
          apply Z.pow_le_mono_r; unfold scale; lia. }
        pose proof (pow2_pos (ex + scale) ltac:(unfold scale; lia)).
        pose proof (pow2_pos (ey + scale) ltac:(unfold scale; lia)).
        change (53 - 1) with 52 in By. nia.
  - intros Hle. rewrite <- (encode_nonneg_valid x Vx Nx), <- (encode_nonneg_valid y Vy Ny).
    now apply SFleb_encode.
Qed.

(** The quantum of a rounded value: that of the exact value, or the next
    one when the rounding carries to the next power of two. *)
Lemma quantum_rne N :
  0 <= N -> 0 < rne N ->
  quantum (rne N) = quantum N \/
  (rne N = 2 ^ 52 * 2 ^ (quantum N + 1) /\ quantum (rne N) = quantum N + 1).
Proof.
  intros HN Hpos.
  pose proof (rne_bounds N HN) as [Bl Bu]. cbv zeta in Bl, Bu.
  pose proof (quotient_lt N HN) as Hq.
  pose proof (quantum_ge N) as HgN.
  pose proof (pow2_pos (quantum N) ltac:(lia)) as HPN.
  assert (Hpow : 2 ^ 52 * 2 ^ (quantum N + 1) = 2 ^ 53 * 2 ^ quantum N).
  { rewrite <- !Z.pow_add_r by lia. f_equal. lia. }
  destruct (Z.eq_dec (rne N) (2 ^ 53 * 2 ^ quantum N)) as [Hc|Hc].
  - right. split; [lia|]. unfold quantum at 1. rewrite Hc.
    rewrite <- Z.pow_add_r, Z.log2_pow2 by lia. lia.
  - left.
    assert (Hlt : rne N < 2 ^ 53 * 2 ^ quantum N) by nia.
    rewrite <- Z.pow_add_r in Hlt by lia.
    assert (Z.log2 (rne N) < 53 + quantum N) by (apply Z.log2_lt_pow2; lia).
    destruct (Z.eq_dec (quantum N) 1074) as [E|E].
    + unfold quantum at 1. lia.
    + assert (HNpos : 0 < N).
      { destruct (Z.eq_dec N 0) as [->|]; [|lia]. exfalso. apply E. reflexivity. }
      pose proof (quotient_ge N HNpos ltac:(lia)) as Hqg.
      assert (Hbig : 2 ^ 52 * 2 ^ quantum N <= rne N) by nia.
      rewrite <- Z.pow_add_r in Hbig by lia.
      assert (52 + quantum N <= Z.log2 (rne N)) by (apply Z.log2_le_pow2; lia).
      unfold quantum at 1. lia.
Qed.

(** A rounded value is a multiple of its own quantum. *)
Lemma rne_exact N :
  0 <= N ->
  rne N = (rne N / 2 ^ quantum (rne N)) * 2 ^ quantum (rne N).
Proof.
  intros HN. pose proof (rne_nonneg N HN) as Hr.
  destruct (Z.eq_dec (rne N) 0) as [->|Hne]; [reflexivity|].
  pose proof (quantum_ge N) as HgN.
  destruct (quantum_rne N HN ltac:(lia)) as [Hq|[Hc Hq]]; rewrite Hq.
  - unfold rne. rewrite Z.div_mul by (apply Z.pow_nonzero; lia). reflexivity.
  - rewrite Hc at 1 2. rewrite Z.div_mul by (apply Z.pow_nonzero; lia). reflexivity.
Qed.

(** The encoding of a rounded value is a valid non-negative number. *)
Lemma encode_rne_valid N :
  0 <= N ->
  valid_binary (encode (rne N)) = true /\ nonneg (encode (rne N)) = true /\
  sval (encode (rne N)) = Z.min (rne N) overflow.
Proof.
  intros HN. pose proof (rne_nonneg N HN) as Hr.
  pose proof (pow2_pos 3172 ltac:(lia)) as Hov. rewrite <- overflow_eq in Hov.
  pose proof (rne_exact N HN) as Hexact.
  unfold encode.
  destruct (Z.leb_spec (rne N) 0);
    [cbn [valid_binary nonneg sval]; split; [|split]; try reflexivity; lia|].
  destruct (Z.leb_spec overflow (rne N));
    [cbn [valid_binary nonneg sval]; split; [|split]; try reflexivity; lia|].
  cbn [valid_binary nonneg sval].
  set (W := rne N) in *.
  pose proof (quantum_ge W) as Hg.
  pose proof (pow2_pos (quantum W) ltac:(lia)) as HQ.
  assert (Hq1 : 1 <= W / 2 ^ quantum W).
  { assert (0 <= W / 2 ^ quantum W) by (apply Z.div_pos; lia).
    destruct (Z.eq_dec (W / 2 ^ quantum W) 0) as [E|E]; [|lia].
    rewrite E in Hexact. lia. }
  assert (Hz : Zpos (Z.to_pos (W / 2 ^ quantum W)) = W / 2 ^ quantum W)
    by (apply Z2Pos.id; lia).
  split; [|split].
  - unfold bounded, canonical_mantissa. apply andb_true_iff. split.
    + apply Z.eqb_eq. rewrite fexp_eq, digits2_log2, Hz.
      assert (HlogW : Z.log2 W = Z.log2 (W / 2 ^ quantum W) + quantum W).
      { rewrite Hexact at 1. apply log2_scaled; lia. }
      assert (Hqd : quantum W = Z.max (Z.log2 W + 1 - 53) 1074) by reflexivity.
      unfold scale. lia.
    + apply Z.leb_le. change (emax - prec) with 971.
      assert (Z.log2 W < 3172) by (apply Z.log2_lt_pow2; [lia | rewrite <- overflow_eq; lia]).
      assert (Hqd : quantum W = Z.max (Z.log2 W + 1 - 53) 1074) by reflexivity.
      unfold scale. lia.
  - reflexivity.
  - rewrite Hz. replace (quantum W - scale + scale) with (quantum W) by lia.
    rewrite <- Hexact. lia.
Qed.

(** ** Multiplication *)

Lemma digits2_mul mx my :
  Zpos (digits2_pos mx) + Zpos (digits2_pos my) - 1 <= Zpos (digits2_pos (mx * my)).
Proof.
  rewrite !digits2_log2. rewrite Pos2Z.inj_mul.
  pose proof (Z.log2_mul_below (Zpos mx) (Zpos my) ltac:(lia) ltac:(lia)). lia.
Qed.

Lemma SFmul_finite mx ex my ey :
  bounded prec emax mx ex = true -> bounded prec emax my ey = true ->
  SF64mul (S754_finite false mx ex) (S754_finite false my ey) =
    encode (rne (Zpos mx * Zpos my * 2 ^ (ex + ey + scale))).
Proof.
  intros Hx Hy.
  destruct (bounded_facts mx ex Hx) as (Hdx & Hex & Hnx & _).
  destruct (bounded_facts my ey Hy) as (Hdy & Hey & Hny & _).
  unfold SF64mul, SFmul. cbn [xorb].
  rewrite BRA_rne.
  - now rewrite Pos2Z.inj_mul.
  - unfold scale. lia.
  - rewrite fexp_eq. pose proof (digits2_mul mx my) as Hd.
    pose proof (digits2_bounds mx). pose proof (digits2_bounds my).
    assert (1 <= Zpos (digits2_pos mx)) by lia.
    assert (1 <= Zpos (digits2_pos my)) by lia.
    lia.
Qed.

(** ** Addition *)

Lemma iter_xO m d : Zpos (Pos.iter xO m d) = Zpos m * 2 ^ Zpos d.
Proof.
  induction d as [|d IH] using Pos.peano_ind.
  - cbn [Pos.iter]. change (2 ^ 1) with 2. lia.
  - rewrite Pos.iter_succ, Pos2Z.inj_xO, IH, Pos2Z.inj_succ, Z.pow_succ_r by lia. lia.
Qed.

Lemma shl_align_spec m e e' :
  let r := shl_align m e e' in
  snd r = Z.min e e' /\ Zpos (fst r) = Zpos m * 2 ^ (e - Z.min e e').
Proof.
  cbv zeta. unfold shl_align.
  destruct (e' - e) as [|d|d] eqn:E; cbn [fst snd].
  - replace (Z.min e e') with e by lia. rewrite Z.sub_diag. cbn. lia.
  - replace (Z.min e e') with e by lia. rewrite Z.sub_diag. cbn. lia.
  - replace (Z.min e e') with e' by lia. rewrite iter_xO.
    split; [reflexivity|]. f_equal. f_equal. lia.
Qed.

Lemma binary_round_rne s e :
  -1074 <= e ->
  binary_round prec emax false s e = encode (rne (Zpos s * 2 ^ (e + scale))).
Proof.
  intros He. unfold binary_round.
  set (e' := fexp prec emax (Zpos (digits2_pos s) + e)).
  pose proof (shl_align_spec s e e') as [Hsnd Hfst]. cbv zeta in Hsnd, Hfst.
  destruct (shl_align s e e') as [mz ez]. cbn [fst snd] in Hsnd, Hfst.
  assert (He' : -1074 <= e') by (unfold e'; rewrite fexp_eq; lia).
  assert (Hval : Zpos mz * 2 ^ (ez + scale) = Zpos s * 2 ^ (e + scale)).
  { rewrite Hfst, <- Z.mul_assoc, <- Z.pow_add_r by (unfold scale; lia).
    f_equal. f_equal. lia. }
  rewrite BRA_rne.
  - now rewrite Hval.
  - unfold scale. lia.
  - assert (Hd : Zpos (digits2_pos mz) + ez = Zpos (digits2_pos s) + e).
    { rewrite !digits2_log2, Hfst, log2_scaled by lia. lia. }
    rewrite Hd. fold e'. lia.
Qed.

Lemma SFadd_finite mx ex my ey :
  bounded prec emax mx ex = true -> bounded prec emax my ey = true ->
  SF64add (S754_finite false mx ex) (S754_finite false my ey) =
    encode (rne (Zpos mx * 2 ^ (ex + scale) + Zpos my * 2 ^ (ey + scale))).
Proof.
  intros Hx Hy.
  destruct (bounded_facts mx ex Hx) as (Hdx & Hex & Hnx & _).
  destruct (bounded_facts my ey Hy) as (Hdy & Hey & Hny & _).
  unfold SF64add, SFadd. cbn [cond_Zopp].
  pose proof (shl_align_spec mx ex (Z.min ex ey)) as [_ Hfx].
  pose proof (shl_align_spec my ey (Z.min ex ey)) as [_ Hfy].
  cbv zeta in Hfx, Hfy.
  replace (Z.min ex (Z.min ex ey)) with (Z.min ex ey) in Hfx by lia.
  replace (Z.min ey (Z.min ex ey)) with (Z.min ex ey) in Hfy by lia.
  set (ez := Z.min ex ey) in *.
  set (sx := fst (shl_align mx ex ez)) in *. set (sy := fst (shl_align my ey ez)) in *.
  change (Zpos sx + Zpos sy) with (Zpos (sx + sy)).
  cbn [binary_normalize]. rewrite binary_round_rne by lia.
  f_equal. f_equal. rewrite Pos2Z.inj_add, Hfx, Hfy.
  rewrite Z.mul_add_distr_r, <- !Z.mul_assoc, <- !Z.pow_add_r by (unfold scale; lia).
  f_equal; f_equal; f_equal; lia.
Qed.

(** Below the midpoint to the next number, rounding does not pass a
    representable value. *)
Lemma rne_below_midpoint m e N :
  bounded prec emax m e = true ->
  0 <= N < Zpos m * 2 ^ (e + scale) + 2 ^ (e + scale - 1) ->
  rne N <= Zpos m * 2 ^ (e + scale).
Proof.
  intros Hb [HN Hlt].
  destruct (sval_finite m e Hb) as ([Hlo Hhi] & Hq & Hm).
  destruct (bounded_facts m e Hb) as (Hd & He & Hn & Hf).
  set (g := e + scale) in *.
  assert (Hg : 1074 <= g) by (unfold g, scale; lia).
  pose proof (pow2_pos (g - 1) ltac:(lia)) as Hh.
  assert (H2h : 2 ^ g = 2 * 2 ^ (g - 1)).
  { replace g with (Z.succ (g - 1)) at 1 by lia. apply Z.pow_succ_r. lia. }
  set (h := 2 ^ (g - 1)) in *. set (V := Zpos m * 2 ^ g) in *.
  apply Z.le_trans with (rne (V + h - 1)); [apply rne_mono; lia|].
  pose proof (digits2_bounds m) as Bm.
  assert (Hlog : Z.log2 (V + h - 1) = Z.log2 V).
  { unfold V at 2. rewrite log2_scaled by lia.
    pose proof (Z.log2_spec (Zpos m) ltac:(lia)) as [L1 L2].
    pose proof (Z.log2_nonneg (Zpos m)) as L0.
    set (L := Z.log2 (Zpos m)) in *.
    apply Z.log2_unique; [lia|].
    replace (Z.succ (L + g)) with (Z.succ L + g) by lia.
    rewrite !Z.pow_add_r by lia.
    pose proof (pow2_pos g ltac:(lia)) as HPg.
    unfold V. split; nia. }
  assert (Hq' : quantum (V + h - 1) = g).
  { unfold quantum. rewrite Hlog. exact Hq. }
  unfold rne. rewrite Hq'.
  assert (Hdiv : (V + h - 1) / 2 ^ g = Zpos m).
  { symmetry. apply (Z.div_unique_pos _ _ _ (h - 1)); unfold V; lia. }
  assert (Hmod : (V + h - 1) mod 2 ^ g = h - 1).
  { symmetry. apply (Z.mod_unique_pos _ _ (Zpos m)); unfold V; lia. }
  rewrite Hdiv, Hmod. unfold round_up.
  destruct (Z.ltb_spec (2 ^ g) (2 * (h - 1))); [lia|].
  destruct (Z.eqb_spec (2 ^ g) (2 * (h - 1))); [lia|].
  cbn [orb andb]. unfold V. lia.
Qed.

Lemma weights_sum : 2 * Zpos m07 + Zpos m03 = 2 ^ 54 - 1.
Proof. reflexivity. Qed.

(** The smoothing of a value with itself does not exceed it: the two
    weights add up to less than one, by more than the rounding errors. *)
Lemma smooth_self_bound m e :
  bounded prec emax m e = true ->
  let V := Zpos m * 2 ^ (e + scale) in
  let Na := Zpos m * Zpos m07 * 2 ^ (e + -53 + scale) in
  let Nb := Zpos m * Zpos m03 * 2 ^ (e + -54 + scale) in
  rne Na <= V /\ rne Nb <= V /\ rne (rne Na + rne Nb) <= V.
Proof.
  intros Hb V Na Nb.
  destruct (sval_finite m e Hb) as ([Hlo Hhi] & Hq & Hm).
  destruct (bounded_facts m e Hb) as (Hd & He & Hn & Hf).
  pose proof (digits2_bounds m) as Bm.
  assert (Hm53 : Zpos m < 2 ^ 53).
  { apply Z.lt_le_trans with (2 ^ Zpos (digits2_pos m)); [lia|].
    apply Z.pow_le_mono_r; lia. }
  set (k := e + scale - 54).
  assert (Hk : 1020 <= k) by (unfold k, scale; lia).
  pose proof (pow2_pos k ltac:(lia)) as Hu.
  assert (EV : V = 2 ^ 54 * (Zpos m * 2 ^ k)).
  { unfold V. replace (e + scale) with (54 + k) by (unfold k; lia).
    rewrite Z.pow_add_r by lia. ring. }
  assert (ENa : Na = 2 * Zpos m07 * (Zpos m * 2 ^ k)).
  { unfold Na. replace (e + -53 + scale) with (1 + k) by (unfold k; lia).
    rewrite Z.pow_add_r by lia. change (2 ^ 1) with 2. ring. }
  assert (ENb : Nb = Zpos m03 * (Zpos m * 2 ^ k)).
  { unfold Nb. replace (e + -54 + scale) with k by (unfold k; lia). ring. }
  assert (Ehalf : 2 ^ (e + scale - 1) = 2 ^ 53 * 2 ^ k).
  { rewrite <- Z.pow_add_r by lia. f_equal. unfold k. lia. }
  assert (HX : 2 ^ k <= Zpos m * 2 ^ k < 2 ^ 53 * 2 ^ k) by nia.
  set (X := Zpos m * 2 ^ k) in *. set (u := 2 ^ k) in *.
  assert (HNa0 : 0 <= Na) by (rewrite ENa; lia).
  assert (HNb0 : 0 <= Nb) by (rewrite ENb; lia).
  assert (HrV : rne V = V) by (apply rne_repr; exact Hb).
  assert (HA : rne Na <= V).
  { rewrite <- HrV. apply rne_mono. rewrite ENa, EV.
    change (2 * Zpos m07) with 12610078956637388.
    change (2 ^ 54) with 18014398509481984. lia. }
  assert (HB : rne Nb <= V).
  { rewrite <- HrV. apply rne_mono. rewrite ENb, EV.
    change (Zpos m03) with 5404319552844595.
    change (2 ^ 54) with 18014398509481984. lia. }
  split; [exact HA|]. split; [exact HB|].
  pose proof (rne_nonneg Na HNa0) as HA0. pose proof (rne_nonneg Nb HNb0) as HB0.
  pose proof (rne_upper Na HNa0) as UA. pose proof (rne_upper Nb HNb0) as UB.
  destruct (rne_multiple Na) as [ka Hka]. destruct (rne_multiple Nb) as [kb Hkb].
  pose proof (pow2_pos 1074 ltac:(lia)) as HW.
  assert (ET : 2 ^ 1126 = 2 ^ 52 * 2 ^ 1074) by (rewrite <- Z.pow_add_r by lia; reflexivity).
  assert (EVW : V = (Zpos m * 2 ^ (e + scale - 1074)) * 2 ^ 1074).
  { unfold V. rewrite <- Z.mul_assoc, <- Z.pow_add_r by (unfold scale; lia).
    f_equal. f_equal. lia. }
  set (kv := Zpos m * 2 ^ (e + scale - 1074)) in *.
  (* either the sum is at most V, or it is below the midpoint above V *)
  assert (Hsum : rne Na + rne Nb <= V \/
                 rne Na + rne Nb < V + 2 ^ (e + scale - 1)).
  { assert (Hmult : rne Na + rne Nb < V + 2 ^ 1074 -> rne Na + rne Nb <= V).
    { intros Hlt. rewrite Hka, Hkb, EVW in *.
      assert (ka + kb < kv + 1) by nia. nia. }
    assert (HposNa : 0 < Na) by (rewrite ENa; lia).
    assert (HposNb : 0 < Nb) by (rewrite ENb; lia).
    destruct (quantum_pow Na HposNa) as [QA1 QA2].
    destruct (quantum_pow Nb HposNb) as [QB1 QB2].
    rewrite Ehalf.
    change (2 ^ 53) with 9007199254740992 in *.
    change (2 ^ 52) with 4503599627370496 in *.
    change (2 ^ 54) with 18014398509481984 in *.
    change (2 * Zpos m07) with 12610078956637388 in *.
    change (Zpos m03) with 5404319552844595 in *.
    set (W := 2 ^ 1074) in *. set (T := 2 ^ 1126) in *.
    set (A := rne Na) in *. set (B := rne Nb) in *.
    set (PA := 2 ^ quantum Na) in *. set (PB := 2 ^ quantum Nb) in *.
    destruct (Z.le_gt_cases T Nb) as [HbigB|HsmallB].
    - (* both products are normal *)
      right. specialize (QB1 HbigB).
      assert (HbigA : T <= Na) by lia. specialize (QA1 HbigA).
      lia.
    - left. apply Hmult.
      assert (EPB : PB = W) by (unfold PB; rewrite (QB2 HsmallB); reflexivity).
      destruct (Z.le_gt_cases T Na) as [HbigA|HsmallA].
      + specialize (QA1 HbigA). lia.
      + assert (EPA : PA = W) by (unfold PA; rewrite (QA2 HsmallA); reflexivity).
        lia. }
  destruct Hsum as [Hle|Hlt].
  - rewrite <- HrV. apply rne_mono. lia.
  - apply (rne_below_midpoint m e); [exact Hb | fold V; lia].
Qed.

Lemma bounded_07 : bounded prec emax m07 (-53) = true.
Proof. reflexivity. Qed.

Lemma bounded_03 : bounded prec emax m03 (-54) = true.
Proof. reflexivity. Qed.

Lemma overflow_pos : 0 < overflow.
Proof. rewrite overflow_eq. apply pow2_pos. lia. Qed.

Lemma SFleb_infinity x : nonneg x = true -> SFleb x (S754_infinity false) = true.
Proof. destruct x as [[|]|[|]| |[|] m e]; try discriminate; reflexivity. Qed.

Lemma SFleb_zero x : nonneg x = true -> SFleb (S754_zero false) x = true.
Proof. destruct x as [[|]|[|]| |[|] m e]; try discriminate; reflexivity. Qed.

Lemma SFleb_refl x : nonneg x = true -> valid_binary x = true -> SFleb x x = true.
Proof. intros Hn Hv. apply SFleb_sval; try assumption. lia. Qed.

Lemma SFleb_trans x y z :
  valid_binary x = true -> valid_binary y = true -> valid_binary z = true ->
  nonneg x = true -> nonneg y = true -> nonneg z = true ->
  SFleb x y = true -> SFleb y z = true -> SFleb x z = true.
Proof.
  intros Vx Vy Vz Nx Ny Nz Hxy Hyz.
  apply SFleb_sval in Hxy; try assumption. apply SFleb_sval in Hyz; try assumption.
  apply SFleb_sval; try assumption. lia.
Qed.

(** ** Multiplication by a positive constant *)

Section Mul.

Variables (mc : positive) (ec : Z).
Hypothesis Hc : bounded prec emax mc ec = true.

Lemma SFmul_closed x :
  valid_binary x = true -> nonneg x = true ->
  valid_binary (SF64mul x (S754_finite false mc ec)) = true /\ nonneg (SF64mul x (S754_finite false mc ec)) = true.
Proof.
  intros Hv Hn. destruct x as [[|]|[|]| |[|] m e]; try discriminate Hn.
  - split; reflexivity.
  - split; reflexivity.
  - rewrite SFmul_finite by assumption.
    destruct (encode_rne_valid (Zpos m * Zpos mc * 2 ^ (e + ec + scale))) as (H1 & H2 & _).
    + pose proof (pow2_pos (e + ec + scale)). 
      destruct (bounded_facts m e Hv) as (_ & He & _).
      destruct (bounded_facts mc ec Hc) as (_ & Hec & _).
      specialize (H ltac:(unfold scale; lia)). lia.
    + split; assumption.
Qed.

Lemma SFmul_mono x y :
  valid_binary x = true -> valid_binary y = true ->
  nonneg x = true -> nonneg y = true ->
  SFleb x y = true -> SFleb (SF64mul x (S754_finite false mc ec)) (SF64mul y (S754_finite false mc ec)) = true.
Proof.
  intros Vx Vy Nx Ny Hle.
  destruct (SFmul_closed x Vx Nx) as [_ Nxc].
  destruct y as [[|]|[|]| |[|] my ey]; try discriminate Ny.
  - destruct x as [[|]|[|]| |[|] mx ex]; try discriminate Nx; try discriminate Hle.
    reflexivity.
  - change (SF64mul (S754_infinity false) (S754_finite false mc ec)) with (S754_infinity false).
    now apply SFleb_infinity.
  - destruct x as [[|]|[|]| |[|] mx ex]; try discriminate Nx; try discriminate Hle.
    + change (SF64mul (S754_zero false) (S754_finite false mc ec)) with (S754_zero false).
      apply SFleb_zero. now apply SFmul_closed.
    + pose proof Hle as Hv. apply SFleb_sval in Hv; try assumption. cbn [sval] in Hv.
      rewrite !SFmul_finite by assumption.
      destruct (bounded_facts mx ex Vx) as (_ & Hex & _).
      destruct (bounded_facts my ey Vy) as (_ & Hey & _).
      destruct (bounded_facts mc ec Hc) as (_ & Hec & _).
      apply SFleb_encode, rne_mono.
      replace (ex + ec + scale) with ((ex + scale) + (ec + 1074) - 1074) by lia.
      replace (ey + ec + scale) with ((ey + scale) + (ec + 1074) - 1074) by lia.
      assert (Hsplit : forall a, 1074 <= a ->
                2 ^ (a + (ec + 1074) - 1074) * 2 ^ 1074 = 2 ^ a * 2 ^ (ec + 1074)).
      { intros a Ha. rewrite <- !Z.pow_add_r by lia. f_equal. lia. }
      pose proof (Hsplit (ex + scale) ltac:(unfold scale; lia)) as Sx.
      pose proof (Hsplit (ey + scale) ltac:(unfold scale; lia)) as Sy.
      pose proof (pow2_pos 1074 ltac:(lia)).
      pose proof (pow2_pos (ec + 1074) ltac:(lia)).
      pose proof (pow2_pos (ex + scale + (ec + 1074) - 1074) ltac:(unfold scale; lia)).
      pose proof (pow2_pos (ey + scale + (ec + 1074) - 1074) ltac:(unfold scale; lia)).
      split; [lia|].
      set (Px := 2 ^ (ex + scale)) in *. set (Py := 2 ^ (ey + scale)) in *.
      set (Qx := 2 ^ (ex + scale + (ec + 1074) - 1074)) in *.
      set (Qy := 2 ^ (ey + scale + (ec + 1074) - 1074)) in *.
      set (C := 2 ^ (ec + 1074)) in *. set (W := 2 ^ 1074) in *.
      assert (Zpos mx * Zpos mc * Qx * W <= Zpos my * Zpos mc * Qy * W).
      { replace (Zpos mx * Zpos mc * Qx * W) with (Zpos mx * Px * (Zpos mc * C))
          by (rewrite <- !Z.mul_assoc, Sx; ring).
        replace (Zpos my * Zpos mc * Qy * W) with (Zpos my * Py * (Zpos mc * C))
          by (rewrite <- !Z.mul_assoc, Sy; ring).
        apply Z.mul_le_mono_nonneg_r; [lia | exact Hv]. }
      nia.
Qed.

End Mul.

(** ** Addition *)

Lemma SFadd_val a b :
  valid_binary a = true -> valid_binary b = true ->
  nonneg a = true -> nonneg b = true ->
  SF64add a b =
    if sf_is_infinity a || sf_is_infinity b then S754_infinity false
    else encode (rne (sval a + sval b)).
Proof.
  intros Va Vb Na Nb.
  destruct a as [[|]|[|]| |[|] ma ea]; try discriminate Na;
    destruct b as [[|]|[|]| |[|] mb eb]; try discriminate Nb;
    cbn [sf_is_infinity orb sval]; try reflexivity.
  - rewrite Z.add_0_l, rne_repr, encode_sval by assumption. reflexivity.
  - rewrite Z.add_0_r, rne_repr, encode_sval by assumption. reflexivity.
  - now apply SFadd_finite.
Qed.

Lemma sval_nonneg x : 0 <= sval x.
Proof.
  destruct x as [s|s| |s m e]; cbn [sval]; try lia.
  pose proof overflow_pos. lia.
Qed.

Lemma SFadd_closed a b :
  valid_binary a = true -> valid_binary b = true ->
  nonneg a = true -> nonneg b = true ->
  valid_binary (SF64add a b) = true /\ nonneg (SF64add a b) = true.
Proof.
  intros Va Vb Na Nb. rewrite SFadd_val by assumption.
  destruct (sf_is_infinity a || sf_is_infinity b); [split; reflexivity|].
  destruct (encode_rne_valid (sval a + sval b)) as (H1 & H2 & _).
  - pose proof (sval_nonneg a). pose proof (sval_nonneg b). lia.
  - split; assumption.
Qed.

Lemma SFleb_finite_l a b :
  nonneg a = true -> SFleb a b = true -> sf_is_infinity b = false -> sf_is_infinity a = false.
Proof.
  destruct a as [[|]|[|]| |[|] ma ea]; try discriminate; try reflexivity.
  destruct b as [[|]|[|]| |[|] mb eb]; try discriminate.
Qed.

Lemma SFadd_mono a a' b b' :
  valid_binary a = true -> valid_binary a' = true ->
  valid_binary b = true -> valid_binary b' = true ->
  nonneg a = true -> nonneg a' = true -> nonneg b = true -> nonneg b' = true ->
  SFleb a a' = true -> SFleb b b' = true ->
  SFleb (SF64add a b) (SF64add a' b') = true.
Proof.
  intros Va Va' Vb Vb' Na Na' Nb Nb' Ha Hb.
  destruct (SFadd_closed a b Va Vb Na Nb) as [_ Nab].
  rewrite (SFadd_val a' b') by assumption.
  destruct (sf_is_infinity a' || sf_is_infinity b') eqn:Hinf.
  - now apply SFleb_infinity.
  - apply orb_false_iff in Hinf as [Ia' Ib'].
    rewrite SFadd_val by assumption.
    rewrite (SFleb_finite_l a a' Na Ha Ia'), (SFleb_finite_l b b' Nb Hb Ib'). cbn [orb].
    apply SFleb_sval in Ha; try assumption. apply SFleb_sval in Hb; try assumption.
    apply SFleb_encode, rne_mono.
    pose proof (sval_nonneg a). pose proof (sval_nonneg b). lia.
Qed.


(** ** The smoothing step *)

Lemma sf_smooth_closed p t :
  valid_binary p = true -> valid_binary t = true ->
  nonneg p = true -> nonneg t = true ->
  valid_binary (sf_smooth p t) = true /\ nonneg (sf_smooth p t) = true.
Proof.
  intros Vp Vt Np Nt. unfold sf_smooth.
  destruct (SFmul_closed _ _ bounded_07 p Vp Np) as [V1 N1].
  destruct (SFmul_closed _ _ bounded_03 t Vt Nt) as [V2 N2].
  now apply SFadd_closed.
Qed.

Lemma sf_smooth_mono p p' t t' :
  valid_binary p = true -> valid_binary p' = true ->
  valid_binary t = true -> valid_binary t' = true ->
  nonneg p = true -> nonneg p' = true -> nonneg t = true -> nonneg t' = true ->
  SFleb p p' = true -> SFleb t t' = true ->
  SFleb (sf_smooth p t) (sf_smooth p' t') = true.
Proof.
  intros Vp Vp' Vt Vt' Np Np' Nt Nt' Hp Ht. unfold sf_smooth.
  destruct (SFmul_closed _ _ bounded_07 p Vp Np) as [V1 N1].
  destruct (SFmul_closed _ _ bounded_07 p' Vp' Np') as [V1' N1'].
  destruct (SFmul_closed _ _ bounded_03 t Vt Nt) as [V2 N2].
  destruct (SFmul_closed _ _ bounded_03 t' Vt' Nt') as [V2' N2'].
  apply SFadd_mono; try assumption.
  - now apply SFmul_mono.
  - now apply SFmul_mono.
Qed.

Lemma sf_smooth_self x :
  valid_binary x = true -> nonneg x = true ->
  SFleb (sf_smooth x x) x = true.
Proof.
  intros Vx Nx. destruct x as [[|]|[|]| |[|] m e]; try discriminate Nx.
  - reflexivity.
  - reflexivity.
  - cbn [valid_binary] in Vx.
    destruct (smooth_self_bound m e Vx) as (HA & HB & HS). cbv zeta in HA, HB, HS.
    destruct (sval_finite m e Vx) as ([Hlo Hhi] & _).
    unfold sf_smooth, sf07, sf03. rewrite !SFmul_finite by (try assumption; reflexivity).
    set (Na := Zpos m * Zpos m07 * 2 ^ (e + -53 + scale)) in *.
    set (Nb := Zpos m * Zpos m03 * 2 ^ (e + -54 + scale)) in *.
    destruct (bounded_facts m e Vx) as (_ & He & _).
    assert (HNa : 0 <= Na).
    { unfold Na. pose proof (pow2_pos (e + -53 + scale) ltac:(unfold scale; lia)). lia. }
    assert (HNb : 0 <= Nb).
    { unfold Nb. pose proof (pow2_pos (e + -54 + scale) ltac:(unfold scale; lia)). lia. }
    destruct (encode_rne_valid Na HNa) as (VA & NA & SA).
    destruct (encode_rne_valid Nb HNb) as (VB & NB & SB).
    rewrite SFadd_val by assumption.
    assert (IA : sf_is_infinity (encode (rne Na)) = false).
    { unfold encode. destruct (_ <=? 0); [reflexivity|].
      destruct (Z.leb_spec overflow (rne Na)); [lia | reflexivity]. }
    assert (IB : sf_is_infinity (encode (rne Nb)) = false).
    { unfold encode. destruct (_ <=? 0); [reflexivity|].
      destruct (Z.leb_spec overflow (rne Nb)); [lia | reflexivity]. }
    rewrite IA, IB. cbn [orb]. rewrite SA, SB.
    rewrite !Z.min_l by lia.
    rewrite <- (encode_sval m e Vx).
    apply SFleb_encode. exact HS.
Qed.



Lemma sf_smooth_from_zero t :
  valid_binary t = true -> nonneg t = true ->
  sf_smooth (S754_zero false) t = SF64mul t sf03.
Proof.
  intros Vt Nt. unfold sf_smooth.
  change (SF64mul (S754_zero false) sf07) with (S754_zero false).
  destruct (SFmul_closed _ _ bounded_03 t Vt Nt) as [_ N].
  change (nonneg (SF64mul t sf03) = true) in N.
  destruct (SF64mul t sf03) as [[|]|[|]| |[|] m e]; try discriminate N; reflexivity.
Qed.

Lemma Prim2SF_smooth p t :
  Prim2SF (smooth p t) = sf_smooth (Prim2SF p) (Prim2SF t).
Proof.
  unfold smooth, sf_smooth. rewrite FloatAxioms.add_spec, !FloatAxioms.mul_spec. reflexivity.
Qed.

Lemma smooth_nonnegative p t :
  nonnegative p -> nonnegative t -> nonnegative (smooth p t).
Proof.
  unfold nonnegative. intros Np Nt. rewrite Prim2SF_smooth.
  apply sf_smooth_closed; try assumption; apply Prim2SF_valid.
Qed.

Lemma smooth_mono p p' t t' :
  nonnegative p -> nonnegative p' -> nonnegative t -> nonnegative t' ->
  (p <=? p')%float = true -> (t <=? t')%float = true ->
  (smooth p t <=? smooth p' t')%float = true.
Proof.
  unfold nonnegative. intros Np Np' Nt Nt'. rewrite !FloatAxioms.leb_spec, !Prim2SF_smooth.
  intros Hp Ht. apply sf_smooth_mono; try assumption; apply Prim2SF_valid.
Qed.

Lemma smooth_self x :
  nonnegative x -> (smooth x x <=? x)%float = true.
Proof.
  unfold nonnegative. intros Nx. rewrite FloatAxioms.leb_spec, Prim2SF_smooth.
  apply sf_smooth_self; [apply Prim2SF_valid | exact Nx].
Qed.

Lemma leb_trans x y z :
  nonnegative x -> nonnegative y -> nonnegative z ->
  (x <=? y)%float = true -> (y <=? z)%float = true -> (x <=? z)%float = true.
Proof.
  unfold nonnegative. rewrite !FloatAxioms.leb_spec. intros Nx Ny Nz.
  apply SFleb_trans; try assumption; apply Prim2SF_valid.
Qed.




(** A non-negative sample: zero of either sign, a positive number or
    infinity.  Its falsy-to-zero conversion has the same value and a clear
    sign bit. *)
Lemma SFeqb_refl_nonneg x : nonneg x = true -> SFeqb x x = true.
Proof.
  destruct x as [[|]|[|]| |[|] m e]; try discriminate; try reflexivity.
  intros _. unfold SFeqb, SFcompare. rewrite Z.compare_refl.
  now rewrite Pos.compare_cont_refl.
Qed.

Lemma or_zero_spec x :
  (0 <=? x)%float = true ->
  nonnegative (or_zero x) /\
  (or_zero x <=? x)%float = true /\ (x <=? or_zero x)%float = true.
Proof.
  intros H0. rewrite FloatAxioms.leb_spec in H0.
  change (Prim2SF 0) with (S754_zero false) in H0.
  assert (Hz : is_zero x = SFeqb (Prim2SF x) (S754_zero false)).
  { unfold is_zero. now rewrite FloatAxioms.eqb_spec. }
  assert (Hn : is_nan x = negb (SFeqb (Prim2SF x) (Prim2SF x))).
  { unfold is_nan. now rewrite FloatAxioms.eqb_spec. }
  pose proof (Prim2SF_valid x) as Hv.
  unfold nonnegative, or_zero. rewrite Hz, Hn.
  destruct (Prim2SF x) as [[|]|[|]| |[|] m e] eqn:Ex; try discriminate H0.
  - change (SFeqb (S754_zero true) (S754_zero false)) with true. cbn [orb].
    rewrite !FloatAxioms.leb_spec, Ex. repeat split.
  - change (SFeqb (S754_zero false) (S754_zero false)) with true. cbn [orb].
    rewrite !FloatAxioms.leb_spec, Ex. repeat split.
  - change (SFeqb (S754_infinity false) (S754_zero false)) with false.
    change (SFeqb (S754_infinity false) (S754_infinity false)) with true.
    cbn [negb orb]. rewrite !FloatAxioms.leb_spec, Ex. repeat split.
  - change (SFeqb (S754_finite false m e) (S754_zero false)) with false.
    rewrite (SFeqb_refl_nonneg (S754_finite false m e)) by reflexivity.
    cbn [negb orb]. rewrite !FloatAxioms.leb_spec, Ex.
    assert (SFleb (S754_finite false m e) (S754_finite false m e) = true)
      by (apply SFleb_refl; [reflexivity | exact Hv]).
    repeat split; assumption.
Qed.

Lemma clear_zero_facts x :
  not_negative x = true ->
  nonneg (clear_zero x) = true /\ sval (clear_zero x) = sval x /\
  (valid_binary x = true -> valid_binary (clear_zero x) = true).
Proof. destruct x as [[|]|[|]| |[|] m e]; try discriminate; repeat split; auto. Qed.

Lemma SFleb_clear_zero x y : SFleb (clear_zero x) (clear_zero y) = SFleb x y.
Proof.
  destruct x as [[|]|[|]| |[|] mx ex]; destruct y as [[|]|[|]| |[|] my ey]; reflexivity.
Qed.

Lemma SFleb_value x y :
  valid_binary x = true -> valid_binary y = true ->
  not_negative x = true -> not_negative y = true ->
  SFleb x y = true <-> sval x <= sval y.
Proof.
  intros Vx Vy Nx Ny.
  destruct (clear_zero_facts x Nx) as (N1 & S1 & V1).
  destruct (clear_zero_facts y Ny) as (N2 & S2 & V2).
  rewrite <- SFleb_clear_zero, <- S1, <- S2.
  apply SFleb_sval; auto.
Qed.

Lemma leb_zero_iff x : (0 <=? x)%float = true <-> not_negative (Prim2SF x) = true.
Proof.
  rewrite FloatAxioms.leb_spec. change (Prim2SF 0) with (S754_zero false).
  destruct (Prim2SF x) as [[|]|[|]| |[|] m e]; cbn; split; congruence.
Qed.

Lemma nonnegative_leb_zero x : nonnegative x -> (0 <=? x)%float = true.
Proof.
  unfold nonnegative. intros H. apply leb_zero_iff.
  destruct (Prim2SF x) as [[|]|[|]| |[|] m e]; try discriminate H; reflexivity.
Qed.

(** The order of the non-negative numbers is transitive. *)
Lemma leb_chain x y z :
  (0 <=? x)%float = true -> (0 <=? y)%float = true -> (0 <=? z)%float = true ->
  (x <=? y)%float = true -> (y <=? z)%float = true -> (x <=? z)%float = true.
Proof.
  rewrite !leb_zero_iff, !FloatAxioms.leb_spec. intros Nx Ny Nz Hxy Hyz.
  apply SFleb_value in Hxy; try assumption; try apply Prim2SF_valid.
  apply SFleb_value in Hyz; try assumption; try apply Prim2SF_valid.
  apply SFleb_value; try assumption; try apply Prim2SF_valid. lia.
Qed.

(** The smoothing of two values below a bound stays below the bound. *)
Lemma smooth_below p t M :
  nonnegative p -> nonnegative t -> (0 <=? M)%float = true ->
  (p <=? M)%float = true -> (t <=? M)%float = true ->
  (smooth p t <=? M)%float = true.
Proof.
  intros Np Nt HM Hp Ht.
  destruct (or_zero_spec M HM) as (NM' & HM'le & HM'ge).
  pose proof (nonnegative_leb_zero p Np) as Zp.
  pose proof (nonnegative_leb_zero t Nt) as Zt.
  pose proof (nonnegative_leb_zero _ NM') as ZM'.
  assert (Hp' : (p <=? or_zero M)%float = true) by (apply (leb_chain p M); assumption).
  assert (Ht' : (t <=? or_zero M)%float = true) by (apply (leb_chain t M); assumption).
  pose proof (smooth_mono p (or_zero M) t (or_zero M) Np NM' Nt NM' Hp' Ht') as H1.
  pose proof (smooth_self (or_zero M) NM') as H2.
  pose proof (smooth_nonnegative p t Np Nt) as Ns.
  pose proof (smooth_nonnegative _ _ NM' NM') as Ns'.
  apply (leb_chain _ (or_zero M)); try assumption.
  - now apply nonnegative_leb_zero.
  - apply (leb_chain _ (smooth (or_zero M) (or_zero M))); try assumption;
      now apply nonnegative_leb_zero.
Qed.

Lemma nonnegative_zero : nonnegative 0.
Proof. reflexivity. Qed.

End Binary64Facts.

(** * Properties of the overlay presenter and of the subscriptions *)

Module OverlayFacts.
Import Overlay Binary64 Props Binary64Facts.

(** ** Subscriptions *)

Lemma filter_fresh_handle (b : bus) :
  handles_fresh b ->
  List.filter (fun s => negb (Nat.eqb (fst s) (next_handle b))) (active b) = active b.
Proof.
  unfold handles_fresh. induction (active b) as [|s l IH]; intros H; [reflexivity|].
  inversion H as [|? ? Hs Hl]; subst. cbn [List.filter].
  destruct (Nat.eqb_spec (fst s) (next_handle b)); [lia|].
  cbn [negb]. f_equal. now apply IH.
Qed.

(** The effect of [TranslateToEnglish] gives its subscription back: after
    mount and unmount the active subscriptions are those from before. *)
Lemma modelStateEffect_released (b : bus) :
  handles_fresh b ->
  active (mount_unmount modelStateEffect b) = active b.
Proof.
  intros Hfresh. unfold mount_unmount, modelStateEffect, listen, unmount, unlisten.
  cbn [active next_handle fst snd]. rewrite List.filter_app.
  rewrite (filter_fresh_handle b Hfresh). cbn [List.filter fst].
  rewrite Nat.eqb_refl. cbn [negb]. apply app_nil_r.
Qed.

(** C4 (the code departs from the claim). After [RecordingOverlay] was
    mounted and unmounted, its three subscriptions (show-overlay,
    hide-overlay, mic-level) are still active, on every bus: the effect
    returns no cleanup, so nothing unsubscribes them. *)
Theorem overlay_subscriptions_survive_unmount (b : bus) :
  active (mount_unmount overlayEffect b) =
    active b ++ [ (next_handle b, "show-overlay");
                  (S (next_handle b), "hide-overlay");
                  (S (S (next_handle b)), "mic-level") ].
Proof.
  unfold mount_unmount, overlayEffect, setupEventListeners, listen, unmount.
  cbn [active next_handle fst snd].
  rewrite <- !app_assoc. reflexivity.
Qed.

(** ** Level smoothing *)

Lemma mapi_from_length {A B} (f : A -> nat -> B) l k :
  length (mapi_from k f l) = length l.
Proof.
  revert k. induction l as [|x l IH]; intros k; cbn; [reflexivity|].
  now rewrite IH.
Qed.

Lemma mapi_from_nth {A B} (f : A -> nat -> B) l k i d d' :
  (i < length l)%nat ->
  nth i (mapi_from k f l) d' = f (nth i l d) (k + i)%nat.
Proof.
  revert k i. induction l as [|x l IH]; intros k i Hi; cbn in Hi; [lia|].
  destruct i as [|i]; cbn [mapi_from nth].
  - now rewrite Nat.add_0_r.
  - rewrite IH by lia. f_equal. lia.
Qed.

Lemma onMicLevel_length v o :
  length (smoothedLevels (onMicLevel v o)) = length (smoothedLevels o).
Proof. apply mapi_from_length. Qed.


Lemma channel_onMicLevel v o i :
  (i < length (smoothedLevels o))%nat ->
  channel i (onMicLevel v o) = smooth (channel i o) (target v i).
Proof.
  intros Hi. unfold channel, onMicLevel. cbn [smoothedLevels].
  now rewrite (mapi_from_nth _ _ 0%nat i 0%float 0%float Hi).
Qed.

Lemma target_nth v i : target v i = or_zero (nth i v 0%float).
Proof.
  unfold target. revert i. induction v as [|x v IH]; intros [|i]; cbn [nth_error nth];
    try reflexivity.
  apply IH.
Qed.

Lemma channel_initial i : channel i initial = 0%float.
Proof.
  unfold channel, initial. cbn [smoothedLevels].
  do 17 (destruct i as [|i]; [reflexivity|]). destruct i; reflexivity.
Qed.






End OverlayFacts.

(** * Properties of the display formatting *)

Module DisplayFacts.
Import Js Keyboard Props.

(** ** Characters *)

Ltac by_cases_on_char c :=
  destruct c as [[] [] [] [] [] [] [] []]; vm_compute; reflexivity.

Lemma lower_upper_char c : lower_char (upper_char c) = lower_char c.
Proof. by_cases_on_char c. Qed.

Lemma upper_upper_char c : upper_char (upper_char c) = upper_char c.
Proof. by_cases_on_char c. Qed.

Lemma is_space_upper_char c : is_space (upper_char c) = is_space c.
Proof. by_cases_on_char c. Qed.

Lemma upper_char_eqb_space c : Ascii.eqb (upper_char c) " " = Ascii.eqb c " ".
Proof. by_cases_on_char c. Qed.

Lemma upper_char_eqb_plus c : Ascii.eqb (upper_char c) "+" = Ascii.eqb c "+".
Proof. by_cases_on_char c. Qed.

Lemma is_digit_not_space c : is_digit c = true -> is_space c = false.
Proof. destruct c as [[] [] [] [] [] [] [] []]; vm_compute; congruence. Qed.

Lemma is_digit_not_plus c : is_digit c = true -> Ascii.eqb c "+" = false.
Proof. destruct c as [[] [] [] [] [] [] [] []]; vm_compute; congruence. Qed.

Lemma is_digit_lower_char c : is_digit c = true -> lower_char c = c.
Proof. destruct c as [[] [] [] [] [] [] [] []]; vm_compute; congruence. Qed.

Lemma space_is_space c : Ascii.eqb c " " = true -> is_space c = true.
Proof. intros H. apply Ascii.eqb_eq in H. now subst. Qed.

(** ** Strings *)

Lemma append_cons c (a b : string) : String c a +:+ b = String c (a +:+ b).
Proof. reflexivity. Qed.

Lemma append_assoc (a b c : string) : (a +:+ b) +:+ c = a +:+ (b +:+ c).
Proof.
  induction a as [|x a IH]; [reflexivity|].
  rewrite !append_cons. f_equal. exact IH.
Qed.

Lemma append_nil_r (a : string) : a +:+ "" = a.
Proof.
  induction a as [|x a IH]; [reflexivity|].
  rewrite append_cons. f_equal. exact IH.
Qed.

Lemma split_nonempty sep s : split sep s <> [].
Proof.
  destruct s as [|c r]; cbn; [discriminate|].
  destruct (Ascii.eqb c sep); [discriminate|].
  destruct (split sep r); discriminate.
Qed.

Lemma join_cons sep c w l :
  join sep (String c w :: l) = String c (join sep (w :: l)).
Proof. unfold join. cbn. destruct l; reflexivity. Qed.

(** ** Title-casing *)

Lemma capitalize_cons c w : capitalize (String c w) = String (upper_char c) w.
Proof. reflexivity. Qed.

Lemma title_words b s :
  title b s =
    join " " (match split " " s with
              | w :: ws => (if b then capitalize w else w) :: map capitalize ws
              | [] => []
              end).
Proof.
  revert b. induction s as [|c r IH]; intros b.
  - cbn. destruct b; reflexivity.
  - cbn [title split]. destruct (Ascii.eqb_spec c " ") as [->|Hc].
    + rewrite (IH true).
      destruct (split " " r) as [|w ws] eqn:Hs; [now apply split_nonempty in Hs|].
      cbn [map]. replace (if b then capitalize "" else "") with "" by now destruct b.
      unfold join. cbn. reflexivity.
    + rewrite (IH false).
      destruct (split " " r) as [|w ws] eqn:Hs; [now apply split_nonempty in Hs|].
      replace (if b then capitalize (String c w) else String c w)
        with (String (if b then upper_char c else c) w) by now destruct b.
      now rewrite join_cons.
Qed.

(** The keyboard branch of [formatInputDisplay] is the title-casing. *)
Lemma title_case_words s :
  join " " (map capitalize (split " " s)) = title true s.
Proof.
  rewrite title_words. destruct (split " " s) as [|w ws] eqn:Hs; [|reflexivity].
  now apply split_nonempty in Hs.
Qed.

Lemma title_idempotent b s : title b (title b s) = title b s.
Proof.
  revert b. induction s as [|c r IH]; intros b; [reflexivity|].
  cbn [title]. destruct (Ascii.eqb c " ") eqn:Hc.
  - cbn [title]. rewrite Hc. now rewrite IH.
  - destruct b; cbn [title].
    + rewrite upper_char_eqb_space, Hc, upper_upper_char. now rewrite IH.
    + rewrite Hc. now rewrite IH.
Qed.

Lemma toLowerCase_title b s : toLowerCase (title b s) = toLowerCase s.
Proof.
  unfold toLowerCase. revert b. induction s as [|c r IH]; intros b; [reflexivity|].
  cbn [title]. destruct (Ascii.eqb c " ").
  - cbn [map_chars]. now rewrite IH.
  - cbn [map_chars]. rewrite IH. destruct b; [now rewrite lower_upper_char | reflexivity].
Qed.

Lemma no_plus_title b s : no_plus (title b s) = no_plus s.
Proof.
  unfold no_plus. revert b. induction s as [|c r IH]; intros b; [reflexivity|].
  cbn [title]. destruct (Ascii.eqb c " ").
  - cbn [all_chars]. now rewrite IH.
  - cbn [all_chars]. rewrite IH. destruct b; [now rewrite upper_char_eqb_plus | reflexivity].
Qed.

Lemma same_shape_title b s : same_shape s (title b s).
Proof.
  revert b. induction s as [|c r IH]; intros b; [constructor|].
  cbn [title]. destruct (Ascii.eqb c " ").
  - constructor; [reflexivity | apply IH].
  - constructor; [|apply IH]. destruct b; [now rewrite is_space_upper_char | reflexivity].
Qed.

(** ** Trimming *)

Lemma trimStart_length s : (String.length (trimStart s) <= String.length s)%nat.
Proof.
  induction s as [|c r IH]; cbn [trimStart]; [lia|].
  destruct (is_space c); cbn [String.length] in *; lia.
Qed.

Lemma trimEnd_length s : (String.length (trimEnd s) <= String.length s)%nat.
Proof.
  induction s as [|c r IH]; cbn [trimEnd]; [lia|].
  destruct (trimEnd r); [destruct (is_space c)|]; cbn [String.length] in *; lia.
Qed.

Lemma trimStart_fixed s :
  String.length (trimStart s) = String.length s -> trimStart s = s.
Proof.
  destruct s as [|c r]; [reflexivity|]. cbn [trimStart].
  destruct (is_space c); [|reflexivity].
  pose proof (trimStart_length r). cbn [String.length]. lia.
Qed.

Lemma trim_fixed_parts s : trim s = s -> trimStart s = s /\ trimEnd s = s.
Proof.
  unfold trim. intros H.
  assert (Hs : trimStart s = s).
  { apply trimStart_fixed.
    pose proof (trimStart_length s). pose proof (trimEnd_length (trimStart s)).
    rewrite H in *. lia. }
  rewrite Hs in H. split; assumption.
Qed.

Lemma trimEnd_idempotent s : trimEnd (trimEnd s) = trimEnd s.
Proof.
  induction s as [|c r IH]; [reflexivity|]. cbn [trimEnd].
  destruct (trimEnd r) as [|a b] eqn:Hr.
  - destruct (is_space c) eqn:Hc; [reflexivity|]. cbn [trimEnd]. now rewrite Hc.
  - cbn [trimEnd]. cbn [trimEnd] in IH. rewrite IH. reflexivity.
Qed.

Lemma trimEnd_head c r :
  is_space c = false -> exists r', trimEnd (String c r) = String c r'.
Proof.
  intros Hc. cbn [trimEnd]. destruct (trimEnd r); [rewrite Hc|]; eauto.
Qed.

Lemma trimStart_head s :
  trimStart s = "" \/ exists c r, trimStart s = String c r /\ is_space c = false.
Proof.
  induction s as [|c r IH]; [now left|]. cbn [trimStart].
  destruct (is_space c) eqn:Hc; [exact IH|]. right. eauto.
Qed.

Lemma trim_idempotent s : trim (trim s) = trim s.
Proof.
  unfold trim.
  destruct (trimStart_head s) as [-> | (c & r & -> & Hc)]; [reflexivity|].
  destruct (trimEnd_head c r Hc) as [r' Hr]. rewrite Hr.
  cbn [trimStart]. rewrite Hc, <- Hr. apply trimEnd_idempotent.
Qed.

Lemma trim_space_l q : trim (String " " q) = trim q.
Proof. reflexivity. Qed.

Lemma trimEnd_space_r x : trimEnd (x +:+ " ") = trimEnd x.
Proof.
  induction x as [|c r IH]; [reflexivity|].
  rewrite append_cons. cbn [trimEnd]. now rewrite IH.
Qed.

Lemma trim_space_r q : trim (q +:+ " ") = trim q.
Proof.
  unfold trim. induction q as [|c r IH]; [reflexivity|].
  rewrite append_cons. cbn [trimStart]. destruct (is_space c); [exact IH|].
  rewrite <- append_cons. apply trimEnd_space_r.
Qed.

Lemma same_shape_trimStart s s' :
  same_shape s s' -> trimStart s = s -> trimStart s' = s'.
Proof.
  intros [|c c' r r' Hc Hr]; [reflexivity|]. cbn [trimStart].
  rewrite <- Hc. destruct (is_space c); [|reflexivity].
  intros H. pose proof (trimStart_length r) as Hl. rewrite H in Hl.
  cbn [String.length] in Hl. lia.
Qed.

Lemma same_shape_trimEnd s s' :
  same_shape s s' -> trimEnd s = s -> trimEnd s' = s'.
Proof.
  induction 1 as [|c c' r r' Hc Hr IH]; [reflexivity|]. cbn [trimEnd].
  destruct (trimEnd r) as [|a b] eqn:Ht.
  - destruct (is_space c) eqn:Hsp; [discriminate|].
    intros H. injection H as <-. inversion Hr; subst.
    cbn [trimEnd]. now rewrite <- Hc.
  - intros H. injection H as H. rewrite IH by exact H.
    destruct r' as [|a' b']; [|reflexivity].
    inversion Hr; subst. discriminate.
Qed.

Lemma same_shape_trim s s' : same_shape s s' -> trim s = s -> trim s' = s'.
Proof.
  intros Hs Ht. destruct (trim_fixed_parts s Ht) as [H1 H2].
  unfold trim. rewrite (same_shape_trimStart s s' Hs H1).
  exact (same_shape_trimEnd s s' Hs H2).
Qed.

Lemma no_plus_trimStart s : no_plus s = true -> no_plus (trimStart s) = true.
Proof.
  unfold no_plus. induction s as [|c r IH]; [reflexivity|]. cbn [trimStart all_chars].
  intros H. apply andb_true_iff in H as [Hc Hr].
  destruct (is_space c); [now apply IH|]. cbn [all_chars]. now rewrite Hc, Hr.
Qed.

Lemma no_plus_trimEnd s : no_plus s = true -> no_plus (trimEnd s) = true.
Proof.
  unfold no_plus. induction s as [|c r IH]; [reflexivity|]. cbn [trimEnd all_chars].
  intros H. apply andb_true_iff in H as [Hc Hr]. specialize (IH Hr).
  destruct (trimEnd r); [destruct (is_space c)|]; cbn [all_chars] in *;
    rewrite ?Hc, ?IH; reflexivity.
Qed.

Lemma no_plus_trim s : no_plus s = true -> no_plus (trim s) = true.
Proof. intros H. apply no_plus_trimEnd, no_plus_trimStart, H. Qed.

(** ** Splitting a joined chord *)

Lemma no_plus_cons c s :
  no_plus (String c s) = negb (Ascii.eqb c "+") && no_plus s.
Proof. reflexivity. Qed.

Lemma no_plus_app a b : no_plus (a +:+ b) = no_plus a && no_plus b.
Proof.
  unfold no_plus. induction a as [|c a IH]; [reflexivity|].
  rewrite append_cons. cbn [all_chars]. now rewrite IH, andb_assoc.
Qed.

Lemma split_no_plus s : Forall (fun p => no_plus p = true) (split "+" s).
Proof.
  induction s as [|c r IH]; cbn [split].
  - now repeat constructor.
  - destruct (Ascii.eqb c "+") eqn:Hc.
    + constructor; [reflexivity | exact IH].
    + destruct (split "+" r) as [|w ws]; [now repeat constructor; cbn; rewrite Hc|].
      inversion IH as [|? ? Hw Hws]; subst. constructor; [|exact Hws].
      unfold no_plus in *. cbn [all_chars]. now rewrite Hc, Hw.
Qed.

Lemma split_single q : no_plus q = true -> split "+" q = [q].
Proof.
  unfold no_plus. induction q as [|c r IH]; [reflexivity|]. cbn [all_chars split].
  intros H. apply andb_true_iff in H as [Hc Hr].
  apply negb_true_iff in Hc. rewrite Hc, (IH Hr). reflexivity.
Qed.

Lemma split_app_plus q r :
  no_plus q = true -> split "+" (q +:+ String "+" r) = q :: split "+" r.
Proof.
  unfold no_plus. induction q as [|c q IH]; [reflexivity|].
  rewrite append_cons. cbn [all_chars split].
  intros H. apply andb_true_iff in H as [Hc Hq].
  apply negb_true_iff in Hc. rewrite Hc, (IH Hq). reflexivity.
Qed.

Lemma join_two sep a b l :
  join sep (a :: b :: l) = a +:+ sep +:+ join sep (b :: l).
Proof. reflexivity. Qed.

(** Splitting the display of a chord gives its parts back, up to the
    spaces around the separators. *)
Lemma split_join_spaced l :
  l <> [] ->
  Forall (fun p => no_plus p = true) l ->
  Forall2 (fun p q => trim p = trim q) (split "+" (join " + " l)) l /\
  Forall2 (fun p q => trim p = trim q) (split "+" (String " " (join " + " l))) l.
Proof.
  induction l as [|q l IH]; [congruence|]. intros _ Hl.
  inversion Hl as [|? ? Hq Hl']; subst.
  destruct l as [|q2 l'].
  - change (join " + " [q]) with q. split.
    + rewrite (split_single q Hq). now repeat constructor.
    + rewrite (split_single (String " " q)) by exact Hq. now repeat constructor.
  - destruct IH as [_ IH]; [discriminate | exact Hl'|].
    rewrite join_two.
    change (" + " +:+ join " + " (q2 :: l'))
      with (" " +:+ String "+" (String " " (join " + " (q2 :: l')))).
    rewrite <- append_assoc. split.
    + rewrite split_app_plus by (rewrite no_plus_app, Hq; reflexivity).
      constructor; [apply trim_space_r | exact IH].
    + rewrite <- append_cons.
      rewrite split_app_plus by (rewrite no_plus_cons, no_plus_app, Hq; reflexivity).
      constructor; [|exact IH].
      rewrite trim_space_l. apply trim_space_r.
Qed.

(** ** Mouse-button names *)

Lemma lookup_table_In k t v :
  lookup_table k t = Some v -> In v (map snd t).
Proof.
  induction t as [|[k' v'] t IH]; cbn [lookup_table map snd]; [discriminate|].
  destruct (String.eqb k k'); [|now right; apply IH].
  intros H. injection H as ->. now left.
Qed.

Lemma lookup_truthy_In k t v :
  lookup_truthy k t = Some v -> In v (map snd t).
Proof.
  unfold lookup_truthy. destruct (lookup_table k t) as [v'|] eqn:H; [|discriminate].
  destruct (truthy v'); [|discriminate].
  intros E. injection E as <-. exact (lookup_table_In k t v' H).
Qed.

(** The display names of the table are left as they are by the formatting,
    are trimmed and hold no chord separator. *)
Lemma displayNames_stable v :
  In v (map snd displayNames) ->
  formatInputDisplay v = v /\ trim v = v /\ no_plus v = true.
Proof.
  cbn [map snd displayNames]. intros H.
  repeat (destruct H as [<-|H]; [vm_compute; repeat split; reflexivity|]).
  destruct H.
Qed.

Lemma digits_toLowerCase ds : all_chars is_digit ds = true -> toLowerCase ds = ds.
Proof.
  unfold toLowerCase. induction ds as [|c r IH]; [reflexivity|]. cbn [all_chars map_chars].
  intros H. apply andb_true_iff in H as [Hc Hr].
  now rewrite (is_digit_lower_char c Hc), (IH Hr).
Qed.

Lemma digits_no_plus ds : all_chars is_digit ds = true -> no_plus ds = true.
Proof.
  unfold no_plus. induction ds as [|c r IH]; [reflexivity|]. cbn [all_chars].
  intros H. apply andb_true_iff in H as [Hc Hr].
  now rewrite (is_digit_not_plus c Hc), (IH Hr).
Qed.

Lemma digits_trimEnd ds : all_chars is_digit ds = true -> trimEnd ds = ds.
Proof.
  induction ds as [|c r IH]; [reflexivity|]. cbn [all_chars trimEnd].
  intros H. apply andb_true_iff in H as [Hc Hr]. rewrite (IH Hr).
  destruct r; [now rewrite (is_digit_not_space c Hc) | reflexivity].
Qed.

Lemma trimEnd_before_digits x ds :
  ds <> "" -> all_chars is_digit ds = true -> trimEnd (x +:+ ds) = x +:+ ds.
Proof.
  intros Hne Hd. induction x as [|c r IH]; [now apply digits_trimEnd|].
  rewrite append_cons. cbn [trimEnd]. rewrite IH.
  destruct (r +:+ ds) eqn:E; [|reflexivity].
  destruct r; [|discriminate]. change ("" +:+ ds) with ds in E. congruence.
Qed.

Lemma match_prefix_digits_some pre s ds :
  match_prefix_digits pre s = Some ds ->
  ds <> "" /\ all_chars is_digit ds = true.
Proof.
  unfold match_prefix_digits. destruct (String.prefix pre s); [|discriminate].
  destruct (drop (String.length pre) s) as [|c r]; [discriminate|].
  destruct (all_chars is_digit (String c r)) eqn:H; [|discriminate].
  intros E. injection E as <-. split; [discriminate | exact H].
Qed.

(** [Mouse <n>] is left as it is by the formatting. *)
Lemma mouse_number_stable ds :
  ds <> "" -> all_chars is_digit ds = true ->
  formatInputDisplay ("Mouse " +:+ ds) = "Mouse " +:+ ds /\
  trim ("Mouse " +:+ ds) = "Mouse " +:+ ds /\
  no_plus ("Mouse " +:+ ds) = true.
Proof.
  intros Hne Hd. split; [|split].
  - reflexivity.
  - unfold trim. change (trimStart ("Mouse " +:+ ds)) with ("Mouse " +:+ ds).
    now apply trimEnd_before_digits.
  - rewrite no_plus_app, (digits_no_plus ds Hd). reflexivity.
Qed.

Lemma isMouseButton_title b s : isMouseButton (title b s) = isMouseButton s.
Proof. unfold isMouseButton. now rewrite toLowerCase_title. Qed.

(** ** The formatting of a token *)

Lemma formatInputDisplay_keyboard s :
  isMouseButton s = false -> formatInputDisplay s = title true s.
Proof. intros H. unfold formatInputDisplay. rewrite H. apply title_case_words. Qed.

(** On a trimmed token, formatting twice is formatting once, and the result
    is trimmed. *)
Lemma formatInputDisplay_stable t :
  trim t = t ->
  formatInputDisplay (formatInputDisplay t) = formatInputDisplay t /\
  trim (formatInputDisplay t) = formatInputDisplay t.
Proof.
  intros Ht. destruct (isMouseButton t) eqn:Hm.
  - assert (Hf : formatInputDisplay t = getMouseButtonDisplayName t)
      by (unfold formatInputDisplay; now rewrite Hm).
    rewrite Hf. unfold getMouseButtonDisplayName.
    destruct (lookup_truthy (toLowerCase t) displayNames) as [v|] eqn:Hv.
    + apply lookup_truthy_In in Hv.
      destruct (displayNames_stable v Hv) as (H1 & H2 & _). now split.
    + destruct (match_prefix_digits "mouse" (toLowerCase t)) as [ds|] eqn:Hd.
      * apply match_prefix_digits_some in Hd as [Hne Hds].
        destruct (mouse_number_stable ds Hne Hds) as (H1 & H2 & _). now split.
      * split; [|exact Ht].
        rewrite Hf. unfold getMouseButtonDisplayName. now rewrite Hv, Hd.
  - rewrite (formatInputDisplay_keyboard t Hm). split.
    + rewrite formatInputDisplay_keyboard by (now rewrite isMouseButton_title).
      apply title_idempotent.
    + exact (same_shape_trim t _ (same_shape_title true t) Ht).
Qed.

Lemma formatInputDisplay_no_plus t :
  no_plus t = true -> no_plus (formatInputDisplay t) = true.
Proof.
  intros Ht. destruct (isMouseButton t) eqn:Hm.
  - unfold formatInputDisplay. rewrite Hm. unfold getMouseButtonDisplayName.
    destruct (lookup_truthy (toLowerCase t) displayNames) as [v|] eqn:Hv.
    + apply lookup_truthy_In in Hv. now destruct (displayNames_stable v Hv) as (_ & _ & H).
    + destruct (match_prefix_digits "mouse" (toLowerCase t)) as [ds|] eqn:Hd; [|exact Ht].
      apply match_prefix_digits_some in Hd as [Hne Hds].
      now destruct (mouse_number_stable ds Hne Hds) as (_ & _ & H).
  - rewrite (formatInputDisplay_keyboard t Hm), no_plus_title. exact Ht.
Qed.

(** ** The display of a chord *)

Lemma displayBinding_parts s :
  displayBinding s = join " + " (map displayPart (split "+" s)).
Proof. reflexivity. Qed.

Lemma displayPart_idempotent p : displayPart (displayPart p) = displayPart p.
Proof.
  unfold displayPart.
  destruct (formatInputDisplay_stable (trim p) (trim_idempotent p)) as [H1 H2].
  now rewrite H2, H1.
Qed.

Lemma displayPart_no_plus p : no_plus p = true -> no_plus (displayPart p) = true.
Proof. intros H. apply formatInputDisplay_no_plus, no_plus_trim, H. Qed.

Lemma displayParts_no_plus ps :
  Forall (fun p => no_plus p = true) ps ->
  Forall (fun p => no_plus p = true) (map displayPart ps).
Proof.
  induction 1 as [|p ps Hp _ IH]; cbn [map]; constructor;
    [now apply displayPart_no_plus | exact IH].
Qed.

Lemma displayPart_spaced l l' :
  Forall2 (fun p q => trim p = trim q) l l' ->
  map displayPart l = map displayPart l'.
Proof.
  induction 1 as [|p q l l' Hpq _ IH]; [reflexivity|].
  cbn [map]. unfold displayPart at 1 3. now rewrite Hpq, IH.
Qed.

(** C8 (as amended). [formatInputDisplay("mouse4")] is ["Mouse 4"],
    [formatInputDisplay("ctrl")] is ["Ctrl"], and the display of a chord
    as the component renders it ([displayBinding]: split at [+], trim each
    part, format it, join with [" + "]) applied to its own output gives
    that output again, for every string. *)
Theorem display_examples_and_idempotent :
  formatInputDisplay "mouse4" = "Mouse 4" /\
  formatInputDisplay "ctrl" = "Ctrl" /\
  forall s : string, displayBinding (displayBinding s) = displayBinding s.
Proof.
  split; [reflexivity|]. split; [reflexivity|]. intros s.
  rewrite (displayBinding_parts s).
  set (l := map displayPart (split "+" s)).
  assert (Hne : l <> []).
  { unfold l. destruct (split "+" s) eqn:E; [now apply split_nonempty in E | discriminate]. }
  assert (Hl : Forall (fun p => no_plus p = true) l).
  { apply displayParts_no_plus, split_no_plus. }
  destruct (split_join_spaced l Hne Hl) as [Hsp _].
  rewrite displayBinding_parts, (displayPart_spaced _ _ Hsp).
  f_equal. unfold l. rewrite map_map.
  apply map_ext. intros p. apply displayPart_idempotent.
Qed.

(** C8 (as stated, refuted).  Without the trim of the parts, split at [+],
    [formatInputDisplay] and join with [" + "] are not idempotent: the
    spaces around the separator stay in the parts, and every pass adds a
    pair of them. *)
Lemma untrimmed_display_not_idempotent :
  splitFormatJoin "ctrl+a" = "Ctrl + A" /\
  splitFormatJoin "Ctrl + A" = "Ctrl  +  A" /\
  splitFormatJoin (splitFormatJoin "ctrl+a") <> splitFormatJoin "ctrl+a".
Proof.
  vm_compute. repeat split. discriminate.
Qed.

End DisplayFacts.

(** * Further properties of the shortcut recorder *)

Module ShortcutExtras.
Import Js Keyboard Shortcut Props ShortcutFacts.

(** ** What an event can do to the component state *)

Lemma handleMouseUp_reserved accepts e w :
  button e < 3 -> after (handleMouseUp accepts e) w = w.
Proof.
  intros Hb. unfold after, handleMouseUp.
  destruct (editingShortcutId (ui w)); [|reflexivity].
  destruct (Z.ltb_spec (button e) 3); [reflexivity|lia].
Qed.

Lemma handleClickOutside_inside accepts e w id :
  editingShortcutId (ui w) = Some id ->
  match shortcutRefs (ui w) !! id with
  | Some el => contains el (target e) = true
  | None => True
  end ->
  after (handleClickOutside accepts e) w = w.
Proof.
  intros Hed Hin. unfold after, handleClickOutside. rewrite Hed.
  destruct (shortcutRefs (ui w) !! id) as [el|]; [|reflexivity].
  now rewrite Hin.
Qed.

(** Without a session the listeners are not installed: only session-start
    does anything. *)
Lemma dispatch_idle accepts ev w :
  editingShortcutId (ui w) = None ->
  (forall id, ev <> StartRecording id) ->
  after (dispatch accepts ev) w = w.
Proof.
  intros Hed Hev.
  destruct ev as [e|e|e|e| |e|id']; cbn [dispatch];
    try (unfold after, handleKeyDown, handleKeyUp, handleMouseDown, handleMouseUp,
           handleContextMenu, handleClickOutside; rewrite ?Hed; reflexivity).
  now destruct (Hev id').
Qed.

(** The outcome of a commit attempt: the world is left as it was (the
    gate), or the session has ended. *)
Lemma commit_world accepts s (bm : gmap string ShortcutBinding) id w :
  after (commit accepts s bm id) w = w \/
  (id <> "" /\ is_Some (bm !! id) /\
   ui (after (commit accepts s bm id) w) = idle (ui w)).
Proof.
  destruct (String.eqb_spec id "") as [->|Hid]; [now left|].
  destruct (bm !! id) as [b|] eqn:Hb; [|left; now apply commit_gated].
  right. split; [exact Hid|]. split; [eauto|].
  destruct (accepts (length (calls w)) id (join "+" (recordedKeys s))) eqn:Hacc.
  - now rewrite (commit_accepted accepts s bm id w b Hid Hb Hacc).
  - rewrite (commit_rejected accepts s bm id w b Hid Hb Hacc). unfold commit_failed.
    destruct (truthy (originalBinding s));
      [destruct (accepts (length (calls w) + 2)%nat id (originalBinding s))|];
      reflexivity.
Qed.

(** Every event leaves the component state as it was, adds a token,
    releases a token, ends the session or opens one. *)
Lemma dispatch_ui accepts ev w :
  let s := ui w in
  let s' := ui (after (dispatch accepts ev) w) in
  s' = s \/
  (exists tok, editingShortcutId s <> None /\ s' = add_token tok s) \/
  (exists tok, editingShortcutId s <> None /\
     s' = with_pressed (List.filter (fun k => negb (String.eqb k tok)) (keyPressed s)) s) \/
  s' = idle s \/
  (exists id, editingShortcutId s <> Some id /\ ev = StartRecording id /\
     s' = opened id (snapshot w id) s).
Proof.
  cbv zeta.
  assert (Hrel : forall tok id,
    editingShortcutId (ui w) = Some id ->
    let s' := ui (after (commit accepts (ui w) (bindings w) id) (released tok w)) in
    s' = with_pressed (List.filter (fun k => negb (String.eqb k tok)) (keyPressed (ui w))) (ui w)
    \/ s' = idle (ui w)).
  { intros tok id Hed. cbv zeta.
    destruct (commit_world accepts (ui w) (bindings w) id (released tok w))
      as [-> | (_ & _ & ->)]; [now left | now right]. }
  destruct (editingShortcutId (ui w)) as [id|] eqn:Hed.
  - destruct ev as [e|e|e|e| |e|id']; cbn [dispatch].
    + destruct (repeat e) eqn:Hrep.
      { left. now rewrite handleKeyDown_repeat. }
      destruct (String.eqb_spec (key e) "Escape") as [Hk|Hk].
      * do 3 right. left.
        rewrite (handleKeyDown_escape accepts e w id Hed Hrep Hk). apply cancelled_ui.
      * apply String.eqb_neq in Hk. right. left.
        rewrite (handleKeyDown_token accepts e w id Hed Hrep Hk).
        eexists. split; [discriminate | reflexivity].
    + rewrite (handleKeyUp_eq accepts e w id Hed). cbv zeta.
      destruct (_ && _).
      * destruct (Hrel (normalizeKey (getKeyName e (osType (ui w)))) id eq_refl) as [H|H].
        -- right. right. left. eexists. split; [discriminate | exact H].
        -- do 3 right. left. exact H.
      * right. right. left. eexists. split; [discriminate | reflexivity].
    + destruct (Z.ltb_spec (button e) 3).
      * left. now rewrite handleMouseDown_reserved.
      * right. left. rewrite (handleMouseDown_extra e w id Hed) by assumption.
        eexists. split; [discriminate | reflexivity].
    + destruct (Z.ltb_spec (button e) 3) as [Hlt|Hge].
      * left. now rewrite handleMouseUp_reserved.
      * rewrite (handleMouseUp_eq accepts e w id Hed Hge). cbv zeta.
        destruct (_ && _).
        -- destruct (Hrel ("mouse" +:+ show_int (button e + 1)) id eq_refl) as [H|H].
           ++ right. right. left. eexists. split; [discriminate | exact H].
           ++ do 3 right. left. exact H.
        -- right. right. left. eexists. split; [discriminate | reflexivity].
    + now left.
    + destruct (shortcutRefs (ui w) !! id) as [el|] eqn:Hel.
      * destruct (contains el (target e)) eqn:Hin.
        -- left. rewrite (handleClickOutside_inside accepts e w id Hed); [reflexivity|].
           now rewrite Hel.
        -- do 3 right. left.
           rewrite (handleClickOutside_outside accepts e w id el Hed Hel Hin).
           apply cancelled_ui.
      * left. rewrite (handleClickOutside_inside accepts e w id Hed); [reflexivity|].
        now rewrite Hel.
    + rewrite startRecording_eq. rewrite Hed. case_bool_decide as Hid; [now left|].
      do 4 right. exists id'. split; [exact Hid|]. split; reflexivity.
  - destruct ev as [e|e|e|e| |e|id'];
      try (left; rewrite dispatch_idle; [reflexivity | exact Hed | discriminate]).
    cbn [dispatch]. rewrite startRecording_eq. rewrite Hed.
    case_bool_decide as Hid; [discriminate|].
    do 4 right. exists id'. split; [discriminate|]. split; reflexivity.
Qed.

(** A property of the component state kept by each kind of step is kept
    by every run of events. *)
Lemma run_invariant (P : state -> Prop) accepts :
  (forall tok s, editingShortcutId s <> None -> P s -> P (add_token tok s)) ->
  (forall tok s, editingShortcutId s <> None -> P s ->
     P (with_pressed (List.filter (fun k => negb (String.eqb k tok)) (keyPressed s)) s)) ->
  (forall s, P (idle s)) ->
  (forall id orig s, P (opened id orig s)) ->
  forall evs w, P (ui w) -> P (ui (run accepts evs w)).
Proof.
  intros Hadd Hrel Hidle Hopen evs. unfold run.
  induction evs as [|ev evs IH]; intros w Hw; [exact Hw|].
  cbn [fold_left]. apply IH.
  destruct (dispatch_ui accepts ev w)
    as [-> | [(tok & Hed & ->) | [(tok & Hed & ->) | [-> | (id & _ & _ & ->)]]]];
    auto.
Qed.

(** ** Invariants of the buffers *)

Lemma idle_start_invariant (P : state -> Prop) accepts :
  (forall tok s, editingShortcutId s <> None -> P s -> P (add_token tok s)) ->
  (forall tok s, editingShortcutId s <> None -> P s ->
     P (with_pressed (List.filter (fun k => negb (String.eqb k tok)) (keyPressed s)) s)) ->
  (forall s, P (idle s)) ->
  (forall id orig s, P (opened id orig s)) ->
  forall evs s bs cs,
    P (ui (run accepts evs {| ui := idle s; bindings := bs; calls := cs |})).
Proof.
  intros Hadd Hrel Hidle Hopen evs s bs cs.
  apply run_invariant; auto. cbn [ui]. apply Hidle.
Qed.

(** X1. Whatever events follow an idle state, every token of the pressed
    set is in the recorded sequence. *)
Theorem pressed_tokens_are_recorded
    (accepts : Backend) (evs : list event) (s : state)
    (bs : gmap string ShortcutBinding) (cs : list command) :
  pressed_recorded (ui (run accepts evs {| ui := idle s; bindings := bs; calls := cs |})).
Proof.
  apply (idle_start_invariant pressed_recorded).
  - intros tok s0 _. apply add_token_recorded.
  - intros tok s0 _ Hinv k. unfold with_pressed. cbn [keyPressed recordedKeys].
    rewrite List.filter_In. intros [Hk _]. now apply Hinv.
  - apply idle_recorded.
  - intros id orig s0 k [].
Qed.

Lemma NoDup_snoc {A} (l : list A) x : ~ In x l -> List.NoDup l -> List.NoDup (l ++ [x]).
Proof.
  intros Hx Hl. induction Hl as [|y l Hy Hl IH]; cbn.
  - constructor; [intros [] | constructor].
  - constructor.
    + rewrite in_app_iff. intros [H|[H|[]]]; [now apply Hy|].
      subst. apply Hx. now left.
    + apply IH. intros H. apply Hx. now right.
Qed.

Lemma includes_false x l : includes x l = false -> ~ In x l.
Proof. intros H Hin. apply includes_In in Hin. congruence. Qed.

(** X2. Whatever events follow an idle state, the pressed set and the
    recorded sequence hold no token twice. *)
Theorem tokens_are_distinct
    (accepts : Backend) (evs : list event) (s : state)
    (bs : gmap string ShortcutBinding) (cs : list command) :
  let s' := ui (run accepts evs {| ui := idle s; bindings := bs; calls := cs |}) in
  List.NoDup (keyPressed s') /\ List.NoDup (recordedKeys s').
Proof.
  cbv zeta.
  apply (idle_start_invariant
           (fun s => List.NoDup (keyPressed s) /\ List.NoDup (recordedKeys s))).
  - intros tok s0 _ [Hk Hr]. unfold add_token. cbn [keyPressed recordedKeys].
    destruct (includes tok (keyPressed s0)) eqn:Hp; cbn [orb]; [now split|].
    split; [apply NoDup_snoc; [now apply includes_false | exact Hk]|].
    destruct (includes tok (recordedKeys s0)) eqn:Hq; [exact Hr|].
    apply NoDup_snoc; [now apply includes_false | exact Hr].
  - intros tok s0 _ [Hk Hr]. unfold with_pressed. cbn [keyPressed recordedKeys].
    split; [now apply List.NoDup_filter | exact Hr].
  - intros s0. split; constructor.
  - intros id orig s0. split; constructor.
Qed.

(** X3. Whatever events follow an idle state, when no session is open the
    pressed set and the recorded sequence are empty and no snapshot is
    held. *)
Theorem idle_has_empty_buffers
    (accepts : Backend) (evs : list event) (s : state)
    (bs : gmap string ShortcutBinding) (cs : list command) :
  let s' := ui (run accepts evs {| ui := idle s; bindings := bs; calls := cs |}) in
  editingShortcutId s' = None -> buffers_empty s'.
Proof.
  cbv zeta.
  apply (idle_start_invariant (fun s => editingShortcutId s = None -> buffers_empty s)).
  - intros tok s0 Hed _ H. now destruct (Hed H).
  - intros tok s0 Hed _ H. now destruct (Hed H).
  - intros s0 _. repeat split.
  - intros id orig s0 H. discriminate H.
Qed.

Lemma idle_has_empty_buffers_witness :
  buffers_empty
    (ui (run rejecting
           [StartRecording "transcribe"; KeyDown ctrl_event; KeyDown escape_event]
           {| ui := idle (ui example_world); bindings := bindings example_world;
              calls := [] |})).
Proof.
  apply (idle_has_empty_buffers rejecting
           [StartRecording "transcribe"; KeyDown ctrl_event; KeyDown escape_event]).
  vm_compute. reflexivity.
Defined.

(** ** Events that do nothing *)

(** X4. Auto-repeat key-down events, Escape included, can be dropped from
    any sequence of events: the run ends in the same world. *)
Theorem auto_repeat_is_erasable
    (accepts : Backend) (evs : list event) (w : world) :
  run accepts (List.filter (fun ev => negb (is_auto_repeat ev)) evs) w = run accepts evs w.
Proof.
  unfold run. revert w. induction evs as [|ev evs IH]; intros w; [reflexivity|].
  cbn [List.filter fold_left].
  destruct (is_auto_repeat ev) eqn:Hr; cbn [negb fold_left].
  - destruct ev as [e| | | | | |]; try discriminate Hr. cbn [is_auto_repeat] in Hr.
    cbn [dispatch]. rewrite (handleKeyDown_repeat accepts e w Hr). apply IH.
  - apply IH.
Qed.

Lemma run_idle_no_start accepts evs w :
  editingShortcutId (ui w) = None ->
  forallb (fun ev => negb (is_start ev)) evs = true ->
  run accepts evs w = w.
Proof.
  intros Hed. unfold run. induction evs as [|ev evs IH]; [reflexivity|].
  cbn [forallb fold_left]. intros H. apply andb_true_iff in H as [Hev Hevs].
  rewrite dispatch_idle; [now apply IH | exact Hed |].
  intros id ->. discriminate Hev.
Qed.

(** X5. While no session is open, key, mouse, context-menu and click
    events change nothing and issue no request, however many there are. *)
Theorem idle_ignores_input
    (accepts : Backend) (evs : list event) (w : world) :
  editingShortcutId (ui w) = None ->
  forallb (fun ev => negb (is_start ev)) evs = true ->
  run accepts evs w = w.
Proof. apply run_idle_no_start. Qed.

Lemma idle_ignores_input_witness :
  run accepting
    [KeyDown ctrl_event; MouseDown {| button := 3; target := 7%nat |};
     KeyUp ctrl_event; Click outside_click; ContextMenu; KeyDown escape_event]
    example_world = example_world.
Proof.
  apply (idle_ignores_input accepting); reflexivity.
Defined.

(** ** Commit and cancel, in general *)

Lemma drained_release_commits accepts w id tok :
  List.filter (fun k => negb (String.eqb k tok)) (keyPressed (ui w)) = [] ->
  recordedKeys (ui w) <> [] ->
  (if (length (List.filter (fun k => negb (String.eqb k tok)) (keyPressed (ui w))) =? 0)%nat
      && (0 <? length (recordedKeys (ui w)))%nat
   then after (commit accepts (ui w) (bindings w) id) (released tok w)
   else released tok w) =
  after (commit accepts (ui w) (bindings w) id) (released tok w).
Proof.
  intros Hdrain Hrk. rewrite Hdrain.
  destruct (recordedKeys (ui w)); [contradiction | reflexivity].
Qed.

(** X6. When the release of a key or of an extra mouse button empties the
    pressed set, something was recorded, the binding being edited is in
    the cached bindings and the backend accepts the update, then the
    requests issued are the update-binding with the recorded tokens joined
    by [+] in recorded order, then the resume; the session has ended and
    the binding holds the new chord. *)
Theorem release_commits_recorded_chord
    (accepts : Backend) (w : world) (id : string) (b : ShortcutBinding) :
  editingShortcutId (ui w) = Some id ->
  id <> "" ->
  bindings w !! id = Some b ->
  recordedKeys (ui w) <> [] ->
  accepts (length (calls w)) id (join "+" (recordedKeys (ui w))) = true ->
  let chord := join "+" (recordedKeys (ui w)) in
  let done :=
    {| ui := idle (ui w);
       bindings := alter (with_current_binding chord) id (bindings w);
       calls := calls w ++ [UpdateBinding id chord; ResumeBinding id] |} in
  (forall e : KeyboardEvent,
     List.filter (fun k => negb (String.eqb k (normalizeKey (getKeyName e (osType (ui w))))))
       (keyPressed (ui w)) = [] ->
     after (handleKeyUp accepts e) w = done) /\
  (forall e : MouseEvent,
     3 <= button e ->
     List.filter (fun k => negb (String.eqb k ("mouse" +:+ show_int (button e + 1))))
       (keyPressed (ui w)) = [] ->
     after (handleMouseUp accepts e) w = done) /\
  binding_value done id = Some chord.
Proof.
  intros Hed Hid Hb Hrk Hacc. cbv zeta. repeat split.
  - intros e Hdrain. rewrite (handleKeyUp_eq accepts e w id Hed). cbv zeta.
    rewrite (drained_release_commits accepts w id _ Hdrain Hrk).
    now rewrite (commit_accepted accepts (ui w) (bindings w) id (released _ w) b Hid Hb Hacc).
  - intros e Hbtn Hdrain. rewrite (handleMouseUp_eq accepts e w id Hed Hbtn). cbv zeta.
    rewrite (drained_release_commits accepts w id _ Hdrain Hrk).
    now rewrite (commit_accepted accepts (ui w) (bindings w) id (released _ w) b Hid Hb Hacc).
  - unfold binding_value. cbn [bindings]. now rewrite lookup_alter_eq, Hb.
Qed.

Lemma release_commits_recorded_chord_witness :
  after (handleMouseUp accepting {| button := 4; target := 1%nat |})
    (recording_world example_world "transcribe" ["mouse5"] ["shift"; "mouse5"]) =
  {| ui := idle (ui example_world);
     bindings := alter (with_current_binding "shift+mouse5") "transcribe"
                   (bindings example_world);
     calls := [UpdateBinding "transcribe" "shift+mouse5"; ResumeBinding "transcribe"] |}.
Proof.
  destruct (release_commits_recorded_chord accepting
              (recording_world example_world "transcribe" ["mouse5"] ["shift"; "mouse5"])
              "transcribe" transcribe_binding) as (_ & Hmouse & _).
  - reflexivity.
  - discriminate.
  - vm_compute. reflexivity.
  - discriminate.
  - reflexivity.
  - apply (Hmouse {| button := 4; target := 1%nat |}); [cbn; lia | reflexivity].
Defined.

(** X7. When the commit is rejected by the backend, the session ends all
    the same and the error [errors.set] is shown.  With a snapshot the
    snapshot is written back, followed by the resume if that write is
    accepted and by the second error [errors.reset] if it is not.  Without
    a snapshot nothing more is requested: in particular no resume. *)
Theorem rejected_commit_paths
    (accepts : Backend) (w : world) (id : string) (b : ShortcutBinding) (e : KeyboardEvent) :
  editingShortcutId (ui w) = Some id ->
  id <> "" ->
  bindings w !! id = Some b ->
  recordedKeys (ui w) <> [] ->
  List.filter (fun k => negb (String.eqb k (normalizeKey (getKeyName e (osType (ui w))))))
    (keyPressed (ui w)) = [] ->
  accepts (length (calls w)) id (join "+" (recordedKeys (ui w))) = false ->
  let chord := join "+" (recordedKeys (ui w)) in
  let orig := originalBinding (ui w) in
  let w' := after (handleKeyUp accepts e) w in
  let set_error := ToastError "settings.general.shortcut.errors.set" in
  ui w' = idle (ui w) /\
  (orig = "" ->
     calls w' = calls w ++ [UpdateBinding id chord; set_error] /\
     bindings w' = bindings w) /\
  (orig <> "" -> accepts (length (calls w) + 2)%nat id orig = true ->
     calls w' = calls w ++ [UpdateBinding id chord; set_error;
                            UpdateBinding id orig; ResumeBinding id] /\
     binding_value w' id = Some orig) /\
  (orig <> "" -> accepts (length (calls w) + 2)%nat id orig = false ->
     calls w' = calls w ++ [UpdateBinding id chord; set_error;
                            UpdateBinding id orig;
                            ToastError "settings.general.shortcut.errors.reset"] /\
     bindings w' = bindings w).
Proof.
  intros Hed Hid Hb Hrk Hdrain Hacc. cbv zeta.
  rewrite (handleKeyUp_eq accepts e w id Hed). cbv zeta.
  rewrite (drained_release_commits accepts w id _ Hdrain Hrk).
  rewrite (commit_rejected accepts (ui w) (bindings w) id (released _ w) b Hid Hb Hacc).
  unfold commit_failed, released. cbn [ui bindings calls].
  repeat split.
  - destruct (truthy (originalBinding (ui w)));
      [destruct (accepts (length (calls w) + 2)%nat id (originalBinding (ui w)))|];
      reflexivity.
  - rewrite H. reflexivity.
  - rewrite H. reflexivity.
  - rewrite (truthy_true _ H), H0. reflexivity.
  - rewrite (truthy_true _ H), H0. unfold binding_value. cbn [bindings].
    now rewrite lookup_alter_eq, Hb.
  - rewrite (truthy_true _ H), H0. reflexivity.
  - rewrite (truthy_true _ H), H0. reflexivity.
Qed.

Lemma rejected_commit_paths_witness :
  calls (after (handleKeyUp rejecting a_event)
           (recording_world example_world "transcribe" ["a"] ["ctrl"; "a"])) =
    [UpdateBinding "transcribe" "ctrl+a";
     ToastError "settings.general.shortcut.errors.set"].
Proof.
  destruct (rejected_commit_paths rejecting
              (recording_world example_world "transcribe" ["a"] ["ctrl"; "a"])
              "transcribe" transcribe_binding a_event) as (_ & Hnone & _).
  - reflexivity.
  - discriminate.
  - vm_compute. reflexivity.
  - discriminate.
  - reflexivity.
  - reflexivity.
  - exact (proj1 (Hnone eq_refl)).
Defined.

(** X8. A release that leaves another token pressed commits nothing: no
    request is issued, the session stays open, the recorded sequence is as
    before, and the pressed set has lost the released token. *)
Theorem release_while_held_keeps_session
    (accepts : Backend) (w : world) (id : string) (e : KeyboardEvent) :
  editingShortcutId (ui w) = Some id ->
  let tok := normalizeKey (getKeyName e (osType (ui w))) in
  List.filter (fun k => negb (String.eqb k tok)) (keyPressed (ui w)) <> [] ->
  let w' := after (handleKeyUp accepts e) w in
  calls w' = calls w /\ bindings w' = bindings w /\
  editingShortcutId (ui w') = Some id /\
  recordedKeys (ui w') = recordedKeys (ui w) /\
  keyPressed (ui w') = List.filter (fun k => negb (String.eqb k tok)) (keyPressed (ui w)) /\
  ~ In tok (keyPressed (ui w')).
Proof.
  intros Hed. cbv zeta. intros Hheld.
  rewrite (handleKeyUp_eq accepts e w id Hed). cbv zeta.
  destruct (List.filter _ (keyPressed (ui w))) as [|k l] eqn:Hf; [contradiction|].
  cbn [length Nat.eqb andb]. unfold released. cbn [ui bindings calls with_pressed
    editingShortcutId recordedKeys keyPressed]. rewrite Hf.
  repeat split; try assumption.
  rewrite <- Hf, List.filter_In. intros [_ H]. now rewrite String.eqb_refl in H.
Qed.

Lemma release_while_held_keeps_session_witness :
  keyPressed (ui (after (handleKeyUp accepting a_event)
                    (recording_world example_world "transcribe" ["ctrl"; "a"] ["ctrl"; "a"])))
  = List.filter (fun k => negb (String.eqb k (normalizeKey (getKeyName a_event linux))))
      ["ctrl"; "a"].
Proof.
  destruct (release_while_held_keeps_session accepting
              (recording_world example_world "transcribe" ["ctrl"; "a"] ["ctrl"; "a"])
              "transcribe" a_event) as (_ & _ & _ & _ & Hkp & _).
  - reflexivity.
  - vm_compute. discriminate.
  - exact Hkp.
Defined.

(** X9. A cancel (a key-down of Escape that is not an auto-repeat, or a
    click outside the registered editor element) of a session on a
    non-empty id ends the session.  With an empty snapshot it requests the
    resume and nothing else, and leaves the bindings as they are.  With a
    snapshot whose restoring write the backend accepts, it requests that
    write and then the resume; afterwards the binding of the session, if
    the store has it, holds the snapshot, and every other entry of the
    store is as before.  In both cases resume is requested exactly
    once. *)
Theorem cancel_restores_and_resumes_once
    (accepts : Backend) (w : world) (id : string) (ev : event) :
  editingShortcutId (ui w) = Some id ->
  id <> "" ->
  match ev with
  | KeyDown e => repeat e = false /\ key e = "Escape"
  | Click e =>
      exists el, shortcutRefs (ui w) !! id = Some el /\ contains el (target e) = false
  | _ => False
  end ->
  let w' := after (dispatch accepts ev) w in
  let orig := originalBinding (ui w) in
  ui w' = idle (ui w) /\
  (orig = "" ->
   calls w' = calls w ++ [ResumeBinding id] /\ bindings w' = bindings w) /\
  (orig <> "" -> accepts (length (calls w)) id orig = true ->
   calls w' = calls w ++ [UpdateBinding id orig; ResumeBinding id] /\
   binding_value w' id = (fun _ => orig) <$> binding_value w id /\
   forall id', id' <> id -> bindings w' !! id' = bindings w !! id') /\
  (orig = "" \/ accepts (length (calls w)) id orig = true ->
   resume_count id (calls w') = S (resume_count id (calls w))).
Proof.
  intros Hed Hid Hev. cbv zeta.
  assert (Hc : after (dispatch accepts ev) w = cancelled accepts id w).
  { destruct ev as [e|e|e|e| |e|id']; try contradiction; cbn [dispatch].
    - destruct Hev as [Hrep Hk]. now apply handleKeyDown_escape.
    - destruct Hev as (el & Hel & Hout). now apply (handleClickOutside_outside _ _ _ _ el). }
  rewrite Hc. split; [apply cancelled_ui|]. split; [|split].
  - intros Ho. unfold cancelled. rewrite Ho, (truthy_true id Hid). cbn.
    split; reflexivity.
  - intros Ho Hacc. unfold cancelled.
    rewrite (truthy_true id Hid), (truthy_true _ Ho), Hacc. cbn [andb calls bindings].
    split; [reflexivity|]. split.
    + unfold binding_value. cbn [bindings]. rewrite lookup_alter_eq.
      now destruct (bindings w !! id).
    + intros id' Hne. apply lookup_alter_ne. congruence.
  - intros Hok. rewrite (cancelled_resume_count accepts id w Hid).
    destruct Hok as [-> | ->]; [cbn [truthy String.eqb negb andb]|rewrite andb_false_r]; lia.
Qed.

Lemma cancel_restores_and_resumes_once_witness :
  calls (after (dispatch accepting (Click outside_click))
           (after (startRecording "transcribe") example_world)) =
    calls (after (startRecording "transcribe") example_world) ++
    [UpdateBinding "transcribe"
       (originalBinding (ui (after (startRecording "transcribe") example_world)));
     ResumeBinding "transcribe"].
Proof.
  destruct (cancel_restores_and_resumes_once accepting
              (after (startRecording "transcribe") example_world)
              "transcribe" (Click outside_click)) as (_ & _ & Hres & _).
  - reflexivity.
  - discriminate.
  - exists [1%nat; 2%nat]. split; [vm_compute; reflexivity | reflexivity].
  - apply Hres; [discriminate | reflexivity].
Defined.

(** ** Suspend and resume *)

Lemma suspend_count_app id cs cs' :
  suspend_count id (cs ++ cs') = (suspend_count id cs + suspend_count id cs')%nat.
Proof. unfold suspend_count. now rewrite List.filter_app, List.length_app. Qed.

Lemma balanced_same sid w w' :
  calls w' = calls w ->
  editingShortcutId (ui w') = editingShortcutId (ui w) ->
  balanced sid w -> balanced sid w'.
Proof. unfold balanced. intros -> ->. auto. Qed.

(** A session of [sid] that ends with a resume, whatever else is issued
    with it, restores the balance. *)
Lemma balanced_end sid w w' cs :
  editingShortcutId (ui w) = Some sid ->
  editingShortcutId (ui w') = None ->
  calls w' = calls w ++ cs ->
  suspend_count sid cs = 0%nat ->
  resume_count sid cs = 1%nat ->
  balanced sid w -> balanced sid w'.
Proof.
  unfold balanced. intros Hed Hed' Hc Hs Hr. rewrite Hed, Hed', Hc.
  rewrite suspend_count_app, resume_count_app, Hs, Hr. lia.
Qed.

Lemma counts_update_resume sid v :
  suspend_count sid [UpdateBinding sid v; ResumeBinding sid] = 0%nat /\
  resume_count sid [UpdateBinding sid v; ResumeBinding sid] = 1%nat.
Proof.
  unfold suspend_count, resume_count. cbn [List.filter is_suspend is_resume].
  now rewrite String.eqb_refl.
Qed.

Lemma counts_resume sid :
  suspend_count sid [ResumeBinding sid] = 0%nat /\
  resume_count sid [ResumeBinding sid] = 1%nat.
Proof.
  unfold suspend_count, resume_count. cbn [List.filter is_suspend is_resume].
  now rewrite String.eqb_refl.
Qed.

Lemma counts_suspend sid :
  suspend_count sid [SuspendBinding sid] = 1%nat /\
  resume_count sid [SuspendBinding sid] = 0%nat.
Proof.
  unfold suspend_count, resume_count. cbn [List.filter is_suspend is_resume].
  now rewrite String.eqb_refl.
Qed.

Lemma cancelled_balanced accepts sid w :
  accepts_all accepts -> sid <> "" ->
  editingShortcutId (ui w) = Some sid ->
  balanced sid w ->
  editingShortcutId (ui (cancelled accepts sid w)) = None /\
  balanced sid (cancelled accepts sid w).
Proof.
  intros Hall Hsid Hed Hbal. split; [now rewrite cancelled_ui|].
  unfold cancelled. rewrite (truthy_true sid Hsid). cbn [andb].
  destruct (truthy (originalBinding (ui w))).
  - rewrite Hall.
    eapply (balanced_end sid w);
      [exact Hed | reflexivity | reflexivity | apply counts_update_resume
      | apply counts_update_resume | exact Hbal].
  - eapply (balanced_end sid w);
      [exact Hed | reflexivity | reflexivity | apply counts_resume
      | apply counts_resume | exact Hbal].
Qed.

Lemma release_balanced accepts sid w tok :
  accepts_all accepts -> sid <> "" ->
  editingShortcutId (ui w) = Some sid ->
  balanced sid w ->
  let w' := if (length (List.filter (fun k => negb (String.eqb k tok)) (keyPressed (ui w))) =? 0)%nat
               && (0 <? length (recordedKeys (ui w)))%nat
            then after (commit accepts (ui w) (bindings w) sid) (released tok w)
            else released tok w in
  (editingShortcutId (ui w') = None \/ editingShortcutId (ui w') = Some sid) /\
  balanced sid w'.
Proof.
  intros Hall Hsid Hed Hbal. cbv zeta.
  assert (Hrel : (editingShortcutId (ui (released tok w)) = None \/
                  editingShortcutId (ui (released tok w)) = Some sid) /\
                 balanced sid (released tok w)).
  { split; [now right|]. now apply (balanced_same sid w). }
  destruct (_ && _); [|exact Hrel].
  destruct (bindings w !! sid) as [b|] eqn:Hb.
  - rewrite (commit_accepted accepts (ui w) (bindings w) sid (released tok w) b Hsid Hb)
      by apply Hall.
    split; [now left|]. unfold committed.
    eapply (balanced_end sid w);
      [exact Hed | reflexivity | reflexivity | apply counts_update_resume
      | apply counts_update_resume | exact Hbal].
  - rewrite commit_gated by exact Hb. exact Hrel.
Qed.

Lemma dispatch_balanced accepts sid ev w :
  accepts_all accepts -> sid <> "" ->
  of_component sid ev ->
  (editingShortcutId (ui w) = None \/ editingShortcutId (ui w) = Some sid) ->
  balanced sid w ->
  let w' := after (dispatch accepts ev) w in
  (editingShortcutId (ui w') = None \/ editingShortcutId (ui w') = Some sid) /\
  balanced sid w'.
Proof.
  intros Hall Hsid Hev Hed Hbal. cbv zeta.
  destruct Hed as [Hed|Hed].
  - destruct ev as [e|e|e|e| |e|id'];
      try (rewrite dispatch_idle; [split; [now left | exact Hbal] | exact Hed | discriminate]).
    cbn [of_component] in Hev. subst id'. cbn [dispatch].
    rewrite startRecording_eq, Hed. case_bool_decide as Hid; [discriminate|].
    split; [now right|]. unfold balanced in *. cbn [ui calls opened editingShortcutId].
    rewrite Hed in Hbal. rewrite suspend_count_app, resume_count_app, Hbal.
    destruct (counts_suspend sid) as [-> ->]. lia.
  - assert (Hsame : (editingShortcutId (ui w) = None \/ editingShortcutId (ui w) = Some sid) /\
                    balanced sid w) by (split; [now right | exact Hbal]).
    destruct ev as [e|e|e|e| |e|id']; cbn [dispatch].
    + destruct (repeat e) eqn:Hrep; [now rewrite handleKeyDown_repeat|].
      destruct (String.eqb_spec (key e) "Escape") as [Hk|Hk].
      * rewrite (handleKeyDown_escape accepts e w sid Hed Hrep Hk).
        destruct (cancelled_balanced accepts sid w Hall Hsid Hed Hbal) as [H1 H2].
        split; [now left | exact H2].
      * apply String.eqb_neq in Hk.
        rewrite (handleKeyDown_token accepts e w sid Hed Hrep Hk).
        split; [now right|]. now apply (balanced_same sid w).
    + rewrite (handleKeyUp_eq accepts e w sid Hed). now apply release_balanced.
    + destruct (Z.ltb_spec (button e) 3).
      * now rewrite handleMouseDown_reserved.
      * rewrite (handleMouseDown_extra e w sid Hed) by assumption.
        split; [now right|]. now apply (balanced_same sid w).
    + destruct (Z.ltb_spec (button e) 3) as [Hlt|Hge].
      * now rewrite handleMouseUp_reserved.
      * rewrite (handleMouseUp_eq accepts e w sid Hed Hge). now apply release_balanced.
    + exact Hsame.
    + destruct (shortcutRefs (ui w) !! sid) as [el|] eqn:Hel.
      * destruct (contains el (target e)) eqn:Hin.
        -- rewrite (handleClickOutside_inside accepts e w sid Hed); [exact Hsame|].
           now rewrite Hel.
        -- rewrite (handleClickOutside_outside accepts e w sid el Hed Hel Hin).
           destruct (cancelled_balanced accepts sid w Hall Hsid Hed Hbal) as [H1 H2].
           split; [now left | exact H2].
      * rewrite (handleClickOutside_inside accepts e w sid Hed); [exact Hsame|].
        now rewrite Hel.
    + cbn [of_component] in Hev. subst id'.
      rewrite startRecording_eq, Hed. rewrite bool_decide_eq_true_2 by reflexivity.
      exact Hsame.
Qed.

(** X10. In a component for the binding [sid] (a non-empty id) whose
    backend accepts every update, and whose handlers run one at a time,
    each to its end before the next event is handled (so that no
    session-start arrives while the suspend request of an earlier one is
    still pending), whatever the events after an idle state with nothing
    issued: the suspends of [sid] are the resumes of [sid], plus one while
    a session is open.  So every session that has ended has released the
    binding it suspended. *)
Theorem suspends_are_resumed
    (accepts : Backend) (sid : string) (evs : list event) (s : state)
    (bs : gmap string ShortcutBinding) :
  accepts_all accepts ->
  sid <> "" ->
  Forall (of_component sid) evs ->
  let w' := run accepts evs {| ui := idle s; bindings := bs; calls := [] |} in
  suspend_count sid (calls w') =
    (resume_count sid (calls w') +
     match editingShortcutId (ui w') with Some _ => 1 | None => 0 end)%nat.
Proof.
  intros Hall Hsid Hevs. cbv zeta. fold (balanced sid (run accepts evs
    {| ui := idle s; bindings := bs; calls := [] |})).
  assert (Hgen : forall w,
    (editingShortcutId (ui w) = None \/ editingShortcutId (ui w) = Some sid) ->
    balanced sid w -> balanced sid (run accepts evs w)).
  { unfold run. induction Hevs as [|ev evs Hev _ IH]; intros w Hed Hbal; [exact Hbal|].
    cbn [fold_left].
    destruct (dispatch_balanced accepts sid ev w Hall Hsid Hev Hed Hbal) as [H1 H2].
    now apply IH. }
  apply Hgen; [now left | reflexivity].
Qed.

Lemma suspends_are_resumed_witness :
  let w' := run accepting
              [StartRecording "transcribe"; KeyDown ctrl_event; KeyDown escape_event;
               StartRecording "transcribe"; KeyDown a_event; KeyUp a_event;
               StartRecording "transcribe"]
              {| ui := idle (ui example_world); bindings := bindings example_world;
                 calls := [] |} in
  suspend_count "transcribe" (calls w') =
    (resume_count "transcribe" (calls w') +
     match editingShortcutId (ui w') with Some _ => 1 | None => 0 end)%nat.
Proof.
  apply (suspends_are_resumed accepting "transcribe").
  - intros n id v. reflexivity.
  - discriminate.
  - repeat constructor.
Defined.

(** X11. Opening a session on an existing binding and cancelling it with
    Escape, under a backend that accepts the restoring write, leaves the
    component idle and the bindings exactly as they were; the requests are
    the suspend, the write of the unchanged chord (none if the chord is
    empty) and the resume. *)
Theorem start_then_escape_is_neutral
    (accepts : Backend) (w : world) (sid : string) (b : ShortcutBinding)
    (e : KeyboardEvent) :
  editingShortcutId (ui w) = None ->
  sid <> "" ->
  bindings w !! sid = Some b ->
  accepts (S (length (calls w))) sid (current_binding b) = true ->
  repeat e = false ->
  key e = "Escape" ->
  let w' := run accepts [StartRecording sid; KeyDown e] w in
  ui w' = idle (ui w) /\
  bindings w' = bindings w /\
  calls w' = calls w ++
    (if truthy (current_binding b)
     then [SuspendBinding sid; UpdateBinding sid (current_binding b); ResumeBinding sid]
     else [SuspendBinding sid; ResumeBinding sid]).
Proof.
  intros Hed Hsid Hb Hacc Hrep Hk. cbv zeta. unfold run. cbn [fold_left dispatch].
  rewrite startRecording_eq, Hed. rewrite bool_decide_eq_false_2 by discriminate.
  rewrite (handleKeyDown_escape accepts e _ sid) by (try reflexivity; assumption).
  unfold cancelled, snapshot. cbn [ui calls bindings opened originalBinding].
  rewrite Hb, (truthy_true sid Hsid). cbn [andb].
  destruct (truthy (current_binding b)) eqn:Ht.
  - rewrite List.length_app. cbn [length]. rewrite Nat.add_1_r, Hacc.
    cbn [ui bindings calls]. repeat split.
    + apply alter_id. intros b' Hb'. rewrite Hb in Hb'. injection Hb' as <-.
      now destruct b.
    + now rewrite <- app_assoc.
  - cbn [ui bindings calls]. repeat split. now rewrite <- app_assoc.
Qed.

Lemma start_then_escape_is_neutral_witness :
  bindings (run accepting [StartRecording "transcribe"; KeyDown escape_event] example_world)
  = bindings example_world.
Proof.
  destruct (start_then_escape_is_neutral accepting example_world "transcribe"
              transcribe_binding escape_event) as (_ & Hb & _).
  - reflexivity.
  - discriminate.
  - vm_compute. reflexivity.
  - reflexivity.
  - reflexivity.
  - reflexivity.
  - exact Hb.
Defined.

(** ** The recorded sequence *)

Lemma add_token_extends tok s :
  exists ext, recordedKeys (add_token tok s) = recordedKeys s ++ ext.
Proof.
  unfold add_token. cbn [recordedKeys].
  destruct (_ || _); [exists [] | exists [tok]]; [now rewrite app_nil_r | reflexivity].
Qed.

(** X12. As long as one session lasts, the recorded sequence only grows at
    its end: what was recorded stays, in its order, as a prefix. *)
Theorem recorded_sequence_only_grows
    (accepts : Backend) (evs : list event) (w : world) (id : string) :
  editingShortcutId (ui w) = Some id ->
  forallb (fun ev => negb (is_start ev)) evs = true ->
  let w' := run accepts evs w in
  editingShortcutId (ui w') = Some id ->
  exists ext, recordedKeys (ui w') = recordedKeys (ui w) ++ ext.
Proof.
  cbv zeta. revert w. induction evs as [|ev evs IH]; intros w Hed Hevs Hed'.
  - exists []. now rewrite app_nil_r.
  - cbn [forallb] in Hevs. apply andb_true_iff in Hevs as [Hev Hevs].
    change (run accepts (ev :: evs) w) with (run accepts evs (after (dispatch accepts ev) w)) in *.
    destruct (dispatch_ui accepts ev w)
      as [H | [(tok & _ & H) | [(tok & _ & H) | [H | (id' & _ & -> & _)]]]];
      [| | | | discriminate Hev].
    + destruct (IH _ (eq_trans (f_equal editingShortcutId H) Hed) Hevs Hed') as [ext Hext].
      exists ext. now rewrite Hext, H.
    + assert (Hed1 : editingShortcutId (ui (after (dispatch accepts ev) w)) = Some id)
        by (now rewrite H).
      destruct (IH _ Hed1 Hevs Hed') as [ext Hext].
      destruct (add_token_extends tok (ui w)) as [ext0 Hext0].
      exists (ext0 ++ ext). now rewrite Hext, H, Hext0, app_assoc.
    + assert (Hed1 : editingShortcutId (ui (after (dispatch accepts ev) w)) = Some id)
        by (now rewrite H).
      destruct (IH _ Hed1 Hevs Hed') as [ext Hext].
      exists ext. now rewrite Hext, H.
    + assert (Hed1 : editingShortcutId (ui (after (dispatch accepts ev) w)) = None)
        by (now rewrite H).
      rewrite (run_idle_no_start accepts evs _ Hed1 Hevs) in Hed'. congruence.
Qed.

Lemma recorded_sequence_only_grows_witness :
  exists ext,
    recordedKeys (ui (run accepting [KeyDown a_event; KeyUp ctrl_event; KeyDown ctrl_event]
                        (recording_world example_world "paste" ["ctrl"] ["ctrl"])))
    = ["ctrl"] ++ ext.
Proof.
  apply (recorded_sequence_only_grows accepting
           [KeyDown a_event; KeyUp ctrl_event; KeyDown ctrl_event]
           (recording_world example_world "paste" ["ctrl"] ["ctrl"]) "paste").
  - reflexivity.
  - reflexivity.
  - vm_compute. reflexivity.
Defined.

End ShortcutExtras.

(** * Further properties of the input normalizer *)

Module KeyboardExtras.
Import Js Keyboard Props KeyboardFacts DisplayFacts.

(** ** The pattern branches of [getKeyName] *)

Lemma replace_prefix pat rep s :
  String.prefix pat s = true ->
  replace pat rep s = rep +:+ drop (String.length pat) s.
Proof. intros H. destruct s; cbn [replace]; now rewrite H. Qed.

Lemma toLowerCase_nonempty s : s <> "" -> toLowerCase s <> "".
Proof. destruct s; [congruence | discriminate]. Qed.

Lemma truthy_nonempty s : truthy s = true <-> s <> "".
Proof.
  unfold truthy. rewrite negb_true_iff. split.
  - intros H. now apply String.eqb_neq.
  - intros H. now apply String.eqb_neq.
Qed.



(** ** OS types *)

Ltac table_cases k :=
  repeat match goal with
  | |- context [String.eqb k ?c] =>
      destruct (String.eqb_spec k c);
      [ subst k;
        try (exfalso; match goal with
                      | H : ~ In _ _ |- _ => apply H; cbn; tauto
                      end)
      | ]
  end.

Lemma modifierMap_os_independent k os1 os2 :
  ~ In k os_dependent_codes ->
  lookup_table k (modifierMap os1) = lookup_table k (modifierMap os2).
Proof.
  intros Hk. unfold modifierMap. cbn [lookup_table].
  table_cases k; try reflexivity; destruct os1, os2; reflexivity.
Qed.

Lemma keyMap_os_independent k os1 os2 :
  ~ In k os_dependent_keys ->
  lookup_table k (keyMap os1) = lookup_table k (keyMap os2).
Proof.
  intros Hk. unfold keyMap. cbn [lookup_table].
  table_cases k; try reflexivity; destruct os1, os2; reflexivity.
Qed.

(** X14. Only the Alt and the Meta (OS) keys are named differently on
    different OS types: for an event whose code is none of AltLeft,
    AltRight, MetaLeft, MetaRight, OSLeft, OSRight (and, if it has no
    code, whose key is none of Alt, Meta, OS), the key name is the same on
    every OS type. *)
Theorem names_depend_on_os_only_for_alt_and_meta
    (e : KeyboardEvent) (os1 os2 : OSType) :
  ~ In (code e) os_dependent_codes ->
  (code e = "" -> ~ In (key e) os_dependent_keys) ->
  getKeyName e os1 = getKeyName e os2.
Proof.
  intros Hc Hk. unfold getKeyName.
  destruct (truthy (code e)) eqn:Ht.
  - unfold classify, lookup_truthy.
    now rewrite (modifierMap_os_independent (code e) os1 os2 Hc).
  - assert (Hcode : code e = "").
    { unfold truthy in Ht. apply negb_false_iff in Ht. now apply String.eqb_eq. }
    unfold lookup_truthy.
    now rewrite (keyMap_os_independent (key e) os1 os2 (Hk Hcode)).
Qed.

Lemma names_depend_on_os_only_for_alt_and_meta_witness :
  getKeyName (key_event "ControlRight") macos = getKeyName (key_event "ControlRight") windows.
Proof.
  apply names_depend_on_os_only_for_alt_and_meta.
  - cbn. intros H. repeat (destruct H as [H|H]; [discriminate H|]). exact H.
  - discriminate.
Defined.

(** ** Tokens are not empty *)

Lemma lookup_truthy_nonempty k t v : lookup_truthy k t = Some v -> v <> "".
Proof.
  unfold lookup_truthy. destruct (lookup_table k t) as [v'|]; [|discriminate].
  destruct (truthy v') eqn:Ht; [|discriminate].
  intros H. injection H as <-. now apply truthy_nonempty.
Qed.

(** X15. [getKeyName] never returns the empty string, whatever the event
    and the OS type. *)
Theorem key_name_is_not_empty (e : KeyboardEvent) (os : OSType) :
  getKeyName e os <> "".
Proof.
  unfold getKeyName.
  destruct (truthy (code e)) eqn:Ht.
  - apply truthy_nonempty in Ht.
    destruct (classify os (code e)) eqn:Hc;
      try (now apply toLowerCase_nonempty).
    + unfold classify in Hc.
      destruct (match_prefix_digits "F" (code e)); [discriminate|].
      destruct (match_key_letter (code e)) eqn:Hm; [|
        destruct (match_prefix_digit "Digit" (code e));
        [discriminate | destruct (match_prefix_digit "Numpad" (code e));
           [discriminate | destruct (lookup_truthy (code e) (modifierMap os));
              [discriminate | destruct (lookup_truthy (code e) punctuationMap);
                 discriminate]]]].
      unfold match_key_letter in Hm. apply andb_true_iff in Hm as [Hp Hd].
      rewrite (replace_prefix "Key" "" (code e) Hp).
      change (String.length "Key") with 3%nat.
      destruct (drop 3 (code e)) as [|c [|]]; try discriminate Hd. discriminate.
    + unfold classify in Hc.
      destruct (match_prefix_digits "F" (code e)); [discriminate|].
      destruct (match_key_letter (code e)); [discriminate|].
      destruct (match_prefix_digit "Digit" (code e)) eqn:Hm; [|
        destruct (match_prefix_digit "Numpad" (code e));
          [discriminate | destruct (lookup_truthy (code e) (modifierMap os));
             [discriminate | destruct (lookup_truthy (code e) punctuationMap);
                discriminate]]].
      unfold match_prefix_digit in Hm. apply andb_true_iff in Hm as [Hp Hd].
      rewrite (replace_prefix "Digit" "" (code e) Hp).
      destruct (drop (String.length "Digit") (code e)) as [|c [|]];
        try discriminate Hd. discriminate.
    + unfold classify in Hc.
      destruct (match_prefix_digits "F" (code e)); [discriminate|].
      destruct (match_key_letter (code e)); [discriminate|].
      destruct (match_prefix_digit "Digit" (code e)); [discriminate|].
      destruct (match_prefix_digit "Numpad" (code e)) eqn:Hm; [|
        destruct (lookup_truthy (code e) (modifierMap os));
          [discriminate | destruct (lookup_truthy (code e) punctuationMap);
             discriminate]].
      unfold match_prefix_digit in Hm. apply andb_true_iff in Hm as [Hp Hd].
      rewrite (replace_prefix "Numpad" "numpad " (code e) Hp). discriminate.
    + unfold classify in Hc.
      destruct (match_prefix_digits "F" (code e)); [discriminate|].
      destruct (match_key_letter (code e)); [discriminate|].
      destruct (match_prefix_digit "Digit" (code e)); [discriminate|].
      destruct (match_prefix_digit "Numpad" (code e)); [discriminate|].
      destruct (lookup_truthy (code e) (modifierMap os)) as [v|] eqn:Hv.
      * injection Hc as <-. exact (lookup_truthy_nonempty _ _ _ Hv).
      * destruct (lookup_truthy (code e) punctuationMap); discriminate.
    + unfold classify in Hc.
      destruct (match_prefix_digits "F" (code e)); [discriminate|].
      destruct (match_key_letter (code e)); [discriminate|].
      destruct (match_prefix_digit "Digit" (code e)); [discriminate|].
      destruct (match_prefix_digit "Numpad" (code e)); [discriminate|].
      destruct (lookup_truthy (code e) (modifierMap os)); [discriminate|].
      destruct (lookup_truthy (code e) punctuationMap) as [v|] eqn:Hv; [|discriminate].
      injection Hc as <-. exact (lookup_truthy_nonempty _ _ _ Hv).
    + rewrite fallbackName_is_toLowerCase. now apply toLowerCase_nonempty.
  - destruct (truthy (key e)) eqn:Hk; [|discriminate].
    apply truthy_nonempty in Hk.
    destruct (lookup_truthy (key e) (keyMap os)) as [v|] eqn:Hv.
    + exact (lookup_truthy_nonempty _ _ _ Hv).
    + now apply toLowerCase_nonempty.
Qed.

(** ** [normalizeKey] *)

Lemma split_space_single q : no_space q = true -> split " " q = [q].
Proof.
  unfold no_space. induction q as [|c r IH]; [reflexivity|]. cbn [all_chars split].
  intros H. apply andb_true_iff in H as [Hc Hr].
  apply negb_true_iff in Hc. rewrite Hc, (IH Hr). reflexivity.
Qed.

Lemma split_space_parts s : Forall (fun p => no_space p = true) (split " " s).
Proof.
  induction s as [|c r IH]; cbn [split].
  - now repeat constructor.
  - destruct (Ascii.eqb c " ") eqn:Hc.
    + constructor; [reflexivity | exact IH].
    + destruct (split " " r) as [|w ws]; [now repeat constructor; cbn; rewrite Hc|].
      inversion IH as [|? ? Hw Hws]; subst. constructor; [|exact Hws].
      unfold no_space in *. cbn [all_chars]. now rewrite Hc, Hw.
Qed.

Lemma no_space_not_sided m :
  no_space m = true ->
  startsWith m "left " || startsWith m "right " = false.
Proof.
  unfold no_space, startsWith. intros H.
  destruct m as [|c1 [|c2 [|c3 [|c4 [|c5 [|c6 r]]]]]]; try reflexivity;
    cbn [all_chars] in H; cbn [String.prefix];
    repeat (apply andb_true_iff in H as [? H]);
    repeat match goal with
           | Hc : negb (Ascii.eqb ?c " ") = true |- _ =>
               apply negb_true_iff in Hc
           end;
    repeat match goal with
           | |- context [if Ascii.ascii_dec ?a ?b then _ else _] =>
               destruct (Ascii.ascii_dec a b); subst
           end;
    try reflexivity; try discriminate.
Qed.

(** X16. [normalizeKey] takes the side off a name of the form
    [left <name>] or [right <name>] when [<name>] holds no space, and
    leaves every name that does not start with [left ] or [right ] as it
    is. *)
Theorem normalizeKey_strips_the_side (m : string) :
  no_space m = true ->
  normalizeKey ("left " +:+ m) = m /\
  normalizeKey ("right " +:+ m) = m /\
  normalizeKey m = m.
Proof.
  intros Hm. unfold normalizeKey.
  rewrite (no_space_not_sided m Hm).
  replace (startsWith ("left " +:+ m) "left ") with true
    by (unfold startsWith; cbn; now destruct m).
  replace (startsWith ("right " +:+ m) "right ") with true
    by (unfold startsWith; cbn; now destruct m).
  rewrite orb_true_r. cbn [orb].
  change (split " " ("left " +:+ m)) with ("left" :: split " " m).
  change (split " " ("right " +:+ m)) with ("right" :: split " " m).
  rewrite (split_space_single m Hm). repeat split.
Qed.

Lemma normalizeKey_strips_the_side_witness :
  normalizeKey "left shift" = "shift" /\
  normalizeKey "right shift" = "shift" /\
  normalizeKey "shift" = "shift".
Proof. apply (normalizeKey_strips_the_side "shift"). reflexivity. Defined.

(** X17. [normalizeKey] is idempotent: a normalized name is left as it is
    by a second normalization. *)
Theorem normalizeKey_idempotent (k : string) :
  normalizeKey (normalizeKey k) = normalizeKey k.
Proof.
  assert (Hcases : normalizeKey k = k \/ no_space (normalizeKey k) = true).
  { unfold normalizeKey.
    destruct (startsWith k "left " || startsWith k "right "); [|now left].
    pose proof (split_space_parts k) as Hparts.
    destruct (split " " k) as [|a [|m [|x l]]]; try (now left).
    right. inversion Hparts as [|? ? _ Hrest]; subst.
    now inversion Hrest. }
  destruct Hcases as [H|H].
  - now rewrite H.
  - set (m := normalizeKey k) in *. unfold normalizeKey.
    now rewrite (no_space_not_sided m H).
Qed.

(** ** Mouse buttons *)

Lemma string_of_uint_digits d :
  all_chars is_digit (NilEmpty.string_of_uint d) = true.
Proof. induction d; cbn; auto. Qed.

Lemma string_of_uint_inj d d' :
  NilEmpty.string_of_uint d = NilEmpty.string_of_uint d' -> d = d'.
Proof.
  intros H.
  pose proof (NilEmpty.usu d) as H1. pose proof (NilEmpty.usu d') as H2.
  rewrite H in H1. congruence.
Qed.

Lemma show_int_positive p :
  show_int (Zpos p) = NilEmpty.string_of_uint (Pos.to_uint p).
Proof.
  unfold show_int. cbn [Z.to_int NilZero.string_of_int NilZero.string_of_uint].
  destruct (Pos.to_uint p) eqn:E; try reflexivity.
  now apply DecimalPos.Unsigned.to_uint_nonnil in E.
Qed.

(** The decimal numeral of a positive integer: digits, at least one. *)
Lemma show_int_digits z :
  0 < z -> show_int z <> "" /\ all_chars is_digit (show_int z) = true.
Proof.
  destruct z as [|p|p]; try lia. intros _. rewrite show_int_positive. split.
  - destruct (Pos.to_uint p) eqn:E; try discriminate.
    now apply DecimalPos.Unsigned.to_uint_nonnil in E.
  - apply string_of_uint_digits.
Qed.

Lemma show_int_inj a b : 0 < a -> 0 < b -> show_int a = show_int b -> a = b.
Proof.
  destruct a as [|p|p], b as [|q|q]; try lia. intros _ _.
  rewrite !show_int_positive. intros H.
  apply string_of_uint_inj, DecimalPos.Unsigned.to_uint_inj in H. congruence.
Qed.

Lemma lookup_table_pair k t v : lookup_table k t = Some v -> In (k, v) t.
Proof.
  induction t as [|[k' v'] t IH]; cbn [lookup_table]; [discriminate|].
  destruct (String.eqb_spec k k') as [->|]; [|now right; apply IH].
  intros H. injection H as ->. now left.
Qed.

(** The display of the token [mouse<n>], for a positive number [n]. *)
Lemma mouse_token_display n :
  4 <= n ->
  getMouseButtonDisplayName ("mouse" +:+ show_int n) = "Mouse " +:+ show_int n.
Proof.
  intros Hn. destruct (show_int_digits n ltac:(lia)) as [Hne Hd].
  unfold getMouseButtonDisplayName.
  change (toLowerCase ("mouse" +:+ show_int n)) with ("mouse" +:+ toLowerCase (show_int n)).
  rewrite (digits_toLowerCase _ Hd).
  destruct (lookup_truthy ("mouse" +:+ show_int n) displayNames) as [v|] eqn:Hv.
  - unfold lookup_truthy in Hv.
    destruct (lookup_table ("mouse" +:+ show_int n) displayNames) as [v'|] eqn:Hl;
      [|discriminate].
    destruct (truthy v'); [|discriminate]. injection Hv as <-.
    apply lookup_table_pair in Hl. cbn [displayNames In] in Hl.
    assert (Hnum : forall m t, 0 < m -> m <> n ->
              ("mouse" +:+ show_int n, v') = ("mouse" +:+ show_int m, t) -> False).
    { intros m t Hm Hmn E. apply (f_equal fst) in E. cbn [fst] in E.
      apply (String.app_inj "mouse") in E. apply show_int_inj in E; lia. }
    assert (Hword : forall s t, all_chars is_digit s = false ->
              ("mouse" +:+ show_int n, v') = ("mouse" +:+ s, t) -> False).
    { intros s t Hs E. apply (f_equal fst) in E. cbn [fst] in E.
      apply (String.app_inj "mouse") in E. congruence. }
    destruct Hl as [E|[E|[E|[E|[E|[E|[E|[E|[E|[E|[]]]]]]]]]]]; symmetry in E.
    + destruct (Hword "left" _ eq_refl E).
    + destruct (Hword "right" _ eq_refl E).
    + destruct (Hword "middle" _ eq_refl E).
    + destruct (Hnum 1 _ ltac:(lia) ltac:(lia) E).
    + destruct (Hnum 2 _ ltac:(lia) ltac:(lia) E).
    + destruct (Hnum 3 _ ltac:(lia) ltac:(lia) E).
    + pose proof (f_equal snd E) as Ev. cbn [snd] in Ev. subst v'.
      apply (f_equal fst) in E. cbn [fst] in E.
      apply (String.app_inj "mouse" _ (show_int 4)), show_int_inj in E; try lia.
      subst n. reflexivity.
    + pose proof (f_equal snd E) as Ev. cbn [snd] in Ev. subst v'.
      apply (f_equal fst) in E. cbn [fst] in E.
      apply (String.app_inj "mouse" _ (show_int 5)), show_int_inj in E; try lia.
      subst n. reflexivity.
    + destruct (Hword "forward" _ eq_refl E).
    + destruct (Hword "back" _ eq_refl E).
  - assert (Hm : match_prefix_digits "mouse" ("mouse" +:+ show_int n) = Some (show_int n)).
    { unfold match_prefix_digits.
      replace (String.prefix "mouse" ("mouse" +:+ show_int n)) with true
        by (cbn; now destruct (show_int n)).
      change (drop (String.length "mouse") ("mouse" +:+ show_int n)) with (show_int n).
      destruct (show_int n); [contradiction | now rewrite Hd]. }
    now rewrite Hm.
Qed.

(** X18. Every mouse button with index 3 or more has a name, the name is
    recognised as a mouse button, and its display is [Mouse <index+1>]. *)
Theorem extra_mouse_button_is_displayed (e : MouseEvent) :
  3 <= button e ->
  let name := "mouse" +:+ show_int (button e + 1) in
  getMouseButtonName e = Some name /\
  isMouseButton name = true /\
  formatInputDisplay name = "Mouse " +:+ show_int (button e + 1).
Proof.
  intros Hb. cbv zeta.
  assert (Hmouse : isMouseButton ("mouse" +:+ show_int (button e + 1)) = true).
  { unfold isMouseButton.
    change (toLowerCase ("mouse" +:+ show_int (button e + 1)))
      with ("mouse" +:+ toLowerCase (show_int (button e + 1))).
    unfold startsWith. cbn. now destruct (toLowerCase (show_int (button e + 1))). }
  split; [now apply ShortcutFacts.getMouseButtonName_extra|]. split; [exact Hmouse|].
  unfold formatInputDisplay. rewrite Hmouse. apply mouse_token_display. lia.
Qed.

Lemma extra_mouse_button_is_displayed_witness :
  formatInputDisplay ("mouse" +:+ show_int (10 + 1)) = "Mouse " +:+ show_int (10 + 1).
Proof.
  apply (extra_mouse_button_is_displayed {| button := 10; target := 0%nat |}).
  cbn. lia.
Defined.

(** ** The display of keyboard tokens *)

Lemma title_length b s : String.length (title b s) = String.length s.
Proof.
  revert b. induction s as [|c r IH]; intros b; [reflexivity|].
  cbn [title]. destruct (Ascii.eqb c " "); cbn [String.length]; now rewrite IH.
Qed.

(** X19. The display of a token of ASCII characters that is not a mouse
    button differs from the token by letter case only.  (Outside ASCII the
    case mapping of JavaScript may change the length of a string, which
    the 8-bit strings of the embedding do not show.) *)
Theorem keyboard_display_changes_case_only (t : string) :
  ascii_only t = true ->
  isMouseButton t = false ->
  toLowerCase (formatInputDisplay t) = toLowerCase t /\
  String.length (formatInputDisplay t) = String.length t.
Proof.
  intros _ Hm. rewrite (formatInputDisplay_keyboard t Hm). split.
  - apply toLowerCase_title.
  - apply title_length.
Qed.

Lemma keyboard_display_changes_case_only_witness :
  toLowerCase (formatInputDisplay "page up") = toLowerCase "page up" /\
  String.length (formatInputDisplay "page up") = String.length "page up".
Proof. apply keyboard_display_changes_case_only; reflexivity. Defined.

(** ** The stored chord *)

Lemma split_join_plus l :
  l <> [] ->
  Forall (fun p => no_plus p = true) l ->
  split "+" (join "+" l) = l.
Proof.
  induction l as [|q l IH]; [congruence|]. intros _ Hl.
  inversion Hl as [|? ? Hq Hl']; subst.
  destruct l as [|q2 l'].
  - change (join "+" [q]) with q. now apply split_single.
  - rewrite join_two.
    change ("+" +:+ join "+" (q2 :: l')) with (String "+" (join "+" (q2 :: l'))).
    rewrite (split_app_plus q _ Hq). f_equal. apply IH; [discriminate | exact Hl'].
Qed.

(** X20. The stored form of a chord (the tokens joined by [+]) splits back
    into the recorded tokens exactly when no token holds a [+]. *)
Theorem chord_splits_back_iff_no_plus (l : list string) :
  l <> [] ->
  split "+" (join "+" l) = l <-> Forall (fun p => no_plus p = true) l.
Proof.
  intros Hne. split.
  - intros H. rewrite <- H. apply split_no_plus.
  - now apply split_join_plus.
Qed.

Lemma chord_splits_back_iff_no_plus_witness :
  split "+" (join "+" ["ctrl"; "shift"; "a"]) = ["ctrl"; "shift"; "a"] /\
  split "+" (join "+" ["ctrl"; "numpad +"]) <> ["ctrl"; "numpad +"].
Proof.
  split.
  - apply (chord_splits_back_iff_no_plus ["ctrl"; "shift"; "a"]); [discriminate|].
    repeat constructor.
  - intros H.
    apply (chord_splits_back_iff_no_plus ["ctrl"; "numpad +"]) in H; [|discriminate].
    inversion H as [|? ? _ H2]; subst. inversion H2 as [|? ? Hp _]; subst.
    discriminate Hp.
Defined.



End KeyboardExtras.

(** * Further properties of the overlay presenter *)

Module OverlayExtras.
Import Overlay OverlayRun Binary64 Props Binary64Facts OverlayFacts.

Lemma on_event_length ev o :
  length (smoothedLevels (on_event ev o)) = length (smoothedLevels o).
Proof. destruct ev; cbn [on_event]; try reflexivity. apply onMicLevel_length. Qed.

Lemma run_length evs o :
  length (smoothedLevels (run evs o)) = length (smoothedLevels o).
Proof.
  unfold run. revert o. induction evs as [|ev evs IH]; intros o; [reflexivity|].
  cbn [fold_left]. now rewrite IH, on_event_length.
Qed.

Lemma channel_on_event ev o i :
  (i < length (smoothedLevels o))%nat ->
  channel i (on_event ev o) =
    match ev with
    | MicLevel v => smooth (channel i o) (target v i)
    | _ => channel i o
    end.
Proof.
  intros Hi. destruct ev; cbn [on_event]; try reflexivity.
  now apply channel_onMicLevel.
Qed.

(** X22. Levels are binary64 numbers.  Whatever the order of show, hide
    and mic-level events after the initial state: when every sample of a
    channel lies between 0 and a bound [M], itself not below 0, so does
    the smoothed value of the channel. *)
Theorem smoothed_level_stays_in_range
    (evs : list overlay_event) (i : nat) (M : float) :
  (i < 16)%nat ->
  (0 <=? M)%float = true ->
  samples_within i M evs ->
  (0 <=? channel i (run evs initial))%float = true /\
  (channel i (run evs initial) <=? M)%float = true.
Proof.
  intros Hi HM Hevs.
  assert (Hgen : forall o,
    length (smoothedLevels o) = 16%nat ->
    nonnegative (channel i o) /\ (channel i o <=? M)%float = true ->
    nonnegative (channel i (run evs o)) /\ (channel i (run evs o) <=? M)%float = true).
  { unfold run. induction Hevs as [|ev evs Hev _ IH]; intros o Hlen Ho; [exact Ho|].
    cbn [fold_left]. apply IH; [now rewrite on_event_length|].
    rewrite channel_on_event by (rewrite Hlen; exact Hi).
    destruct ev as [st| |v]; try exact Ho.
    destruct Ho as [No Hle]. destruct Hev as [Hx0 HxM].
    rewrite target_nth. destruct (or_zero_spec _ Hx0) as (Nt & Htx & _).
    split; [now apply smooth_nonnegative|].
    apply smooth_below; try assumption.
    apply (leb_chain _ (nth i v 0%float)); try assumption.
    now apply nonnegative_leb_zero. }
  destruct (Hgen initial eq_refl) as [Hn Hle].
  { rewrite channel_initial. split; [exact nonnegative_zero | exact HM]. }
  split; [now apply nonnegative_leb_zero | exact Hle].
Qed.

Lemma smoothed_level_stays_in_range_witness :
  (0 <=? channel 1 (run [MicLevel [0.5; 1]%float; ShowOverlay recording;
                         MicLevel [0; 0.25]%float] initial))%float = true /\
  (channel 1 (run [MicLevel [0.5; 1]%float; ShowOverlay recording;
                   MicLevel [0; 0.25]%float] initial) <=? 1)%float = true.
Proof.
  apply (smoothed_level_stays_in_range
           [MicLevel [0.5; 1]%float; ShowOverlay recording; MicLevel [0; 0.25]%float]
           1 1%float).
  - lia.
  - reflexivity.
  - repeat constructor.
Defined.

Lemma run_without_samples evs o :
  has_mic_level evs = false ->
  levels (run evs o) = levels o /\ smoothedLevels (run evs o) = smoothedLevels o.
Proof.
  unfold run, has_mic_level. revert o.
  induction evs as [|ev evs IH]; intros o He; [now split|].
  cbn [existsb] in He. apply orb_false_iff in He as [Hev He].
  cbn [fold_left]. destruct (IH (on_event ev o) He) as [-> ->].
  destruct ev; try discriminate Hev; now split.
Qed.

Lemma run_levels evs o :
  has_mic_level evs = true ->
  levels (run evs o) = firstn 9 (smoothedLevels (run evs o)).
Proof.
  revert o. induction evs as [|ev evs IH]; intros o; [discriminate|].
  change (run (ev :: evs) o) with (run evs (on_event ev o)).
  intros H. destruct (has_mic_level evs) eqn:He; [now apply IH|].
  destruct (run_without_samples evs (on_event ev o) He) as [-> ->].
  unfold has_mic_level in H, He. cbn [existsb] in H. rewrite He, orb_false_r in H.
  destruct ev; try discriminate H. reflexivity.
Qed.

(** X23. The smoothed levels are sixteen throughout; the levels rendered
    as bars are the sixteen initial zeros until the first mic-level event,
    and from then on the first nine smoothed levels. *)
Theorem nine_bars_after_first_sample (evs : list overlay_event) :
  let o := run evs initial in
  length (smoothedLevels o) = 16%nat /\
  (has_mic_level evs = false -> levels o = repeat 0%float 16) /\
  (has_mic_level evs = true ->
     levels o = firstn 9 (smoothedLevels o) /\ length (levels o) = 9%nat).
Proof.
  cbv zeta. split; [now rewrite run_length|]. split.
  - intros H. now destruct (run_without_samples evs initial H) as [-> _].
  - intros H. rewrite (run_levels evs initial H). split; [reflexivity|].
    rewrite length_firstn, run_length. reflexivity.
Qed.

Lemma nine_bars_after_first_sample_witness :
  length (levels (run [ShowOverlay recording; HideOverlay] initial)) = 16%nat /\
  length (levels (run [ShowOverlay recording; MicLevel [0.5%float]; HideOverlay] initial)) = 9%nat.
Proof.
  split.
  - rewrite (proj1 (proj2 (nine_bars_after_first_sample [ShowOverlay recording; HideOverlay]))
               eq_refl).
    reflexivity.
  - apply (proj2 (proj2 (nine_bars_after_first_sample
                           [ShowOverlay recording; MicLevel [0.5%float]; HideOverlay]))).
    reflexivity.
Defined.

(** X24. What the overlay shows follows the last show or hide event,
    whatever mic-level events come in between: after a show it is visible
    in the state of that show, after a hide it is hidden in the state of
    the last show before it. *)
Theorem visibility_follows_last_event (evs : list overlay_event) (o : overlay) :
  isVisible (run evs o) =
    match last_visibility evs None with
    | Some (Some _) => true
    | Some None => false
    | None => isVisible o
    end /\
  (forall st, last_visibility evs None = Some (Some st) -> state (run evs o) = st).
Proof.
  assert (Hgen : forall seen o,
    (match seen with
     | Some (Some st) => isVisible o = true /\ state o = st
     | Some None => isVisible o = false
     | None => True
     end) ->
    match last_visibility evs seen with
    | Some (Some st) => isVisible (run evs o) = true /\ state (run evs o) = st
    | Some None => isVisible (run evs o) = false
    | None => seen = None /\ isVisible (run evs o) = isVisible o
    end).
  { unfold run. induction evs as [|ev evs IH]; intros seen o' Hseen.
    - cbn [last_visibility fold_left]. destruct seen as [[st|]|]; auto.
    - cbn [fold_left]. destruct ev as [st| |v]; cbn [last_visibility on_event].
      + specialize (IH (Some (Some st)) (onShowOverlay st o') (conj eq_refl eq_refl)).
        destruct (last_visibility evs (Some (Some st))) as [[st'|]|]; try exact IH.
        now destruct IH.
      + specialize (IH (Some None) (onHideOverlay o') eq_refl).
        destruct (last_visibility evs (Some None)) as [[st'|]|]; try exact IH.
        now destruct IH.
      + specialize (IH seen (onMicLevel v o')).
        destruct seen as [[st|]|]; apply IH; exact Hseen. }
  specialize (Hgen None o I).
  destruct (last_visibility evs None) as [[st|]|].
  - destruct Hgen as [Hv Hs]. split; [exact Hv|]. intros st' E. injection E as <-. exact Hs.
  - split; [exact Hgen | discriminate].
  - split; [apply Hgen | discriminate].
Qed.

Lemma visibility_follows_last_event_witness :
  state (run [ShowOverlay recording; MicLevel [1%float]; ShowOverlay transcribing; MicLevel []]
           initial) = transcribing.
Proof.
  apply (proj2 (visibility_follows_last_event
                  [ShowOverlay recording; MicLevel [1%float]; ShowOverlay transcribing; MicLevel []]
                  initial)).
  reflexivity.
Defined.

(** ** Subscriptions over re-runs of an effect *)

Lemma filter_unused_handle (l : list (nat * string)) (bound h : nat) :
  Forall (fun s => (fst s < bound)%nat) l ->
  (bound <= h)%nat ->
  List.filter (fun s => negb (Nat.eqb (fst s) h)) l = l.
Proof.
  intros Hl Hh. induction Hl as [|s l Hs _ IH]; [reflexivity|].
  cbn [List.filter]. destruct (Nat.eqb_spec (fst s) h); [lia|].
  cbn [negb]. now rewrite IH.
Qed.

Lemma reruns_modelStateEffect n b :
  handles_fresh b ->
  reruns n modelStateEffect (modelStateEffect b) =
    (Some (unlisten (next_handle b + n)),
     {| next_handle := S (next_handle b + n);
        active := active b ++ [((next_handle b + n)%nat, "model-state-changed")] |}).
Proof.
  intros Hfresh. induction n as [|n IH].
  - cbn [reruns]. unfold modelStateEffect, listen. now rewrite Nat.add_0_r.
  - cbn [reruns]. rewrite IH. unfold rerun, modelStateEffect, listen, unmount, unlisten.
    cbn [fst snd next_handle active].
    rewrite List.filter_app. cbn [List.filter fst]. rewrite Nat.eqb_refl. cbn [negb].
    rewrite app_nil_r.
    rewrite (filter_unused_handle (active b) (next_handle b) (next_handle b + n))
      by (try exact Hfresh; lia).
    now replace (next_handle b + S n)%nat with (S (next_handle b + n)) by lia.
Qed.

(** X25. However often the effect of [TranslateToEnglish] is run again
    (its dependency [loadCurrentModel] changing), exactly one
    model-state-changed subscription of the component is active, and the
    unmount removes it: the subscriptions of before the mount are left. *)
Theorem model_state_subscription_never_piles_up (n : nat) (b : bus) :
  handles_fresh b ->
  let st := reruns n modelStateEffect (modelStateEffect b) in
  active (snd st) = active b ++ [((next_handle b + n)%nat, "model-state-changed")] /\
  active (unmount (fst st) (snd st)) = active b.
Proof.
  intros Hfresh. cbv zeta. rewrite (reruns_modelStateEffect n b Hfresh).
  cbn [fst snd active]. split; [reflexivity|].
  unfold unmount, unlisten. cbn [active].
  rewrite List.filter_app. cbn [List.filter fst]. rewrite Nat.eqb_refl. cbn [negb].
  rewrite app_nil_r.
  apply (filter_unused_handle (active b) (next_handle b)); [exact Hfresh | lia].
Qed.

Lemma model_state_subscription_never_piles_up_witness :
  active (snd (reruns 3 modelStateEffect
                 (modelStateEffect {| next_handle := 2; active := [(0%nat, "mic-level")] |})))
  = [(0%nat, "mic-level")] ++ [((2 + 3)%nat, "model-state-changed")].
Proof.
  apply (model_state_subscription_never_piles_up 3
           {| next_handle := 2; active := [(0%nat, "mic-level")] |}).
  repeat constructor.
Defined.

End OverlayExtras.

(** * Properties of the settings panels, the sidebar and the onboarding *)

Module PanelsExtras.
Import Js Panels Props.

(** ** Sidebar *)

(** X26. General, Advanced, History and About are always among the
    sections of the sidebar; Post Processing, Cloud Models and Debug are
    there exactly when their setting is on; the order is that of the
    configuration.  With the settings missing only the four are shown. *)
Theorem sidebar_sections (settings : option AppSettings) :
  availableSections settings =
    ["general"; "advanced"]
    ++ (if field_or settings post_process_enabled false then ["postprocessing"] else [])
    ++ (if field_or settings use_online_provider false then ["onlineprovider"] else [])
    ++ ["history"]
    ++ (if field_or settings debug_mode false then ["debug"] else [])
    ++ ["about"]
  /\ availableSections None = ["general"; "advanced"; "history"; "about"].
Proof.
  split; [|reflexivity].
  unfold availableSections, SECTIONS_CONFIG. cbn [List.filter snd fst map].
  destruct (field_or settings post_process_enabled false),
           (field_or settings use_online_provider false),
           (field_or settings debug_mode false); reflexivity.
Qed.

(** ** The model of the selected provider *)

Lemma savedModel_saved settings m :
  saved_model_entry settings = Some m -> savedModel settings = m.
Proof.
  unfold savedModel, saved_model_entry. cbv zeta.
  destruct settings as [s|]; [|discriminate].
  destruct (online_provider_models s) as [models|]; [|discriminate].
  now intros ->.
Qed.

Lemma savedModel_default settings :
  saved_model_entry settings = None ->
  savedModel settings =
    match lookup_table (selectedProviderId settings) DEFAULT_MODELS with
    | Some model => model
    | None => ""
    end.
Proof.
  unfold savedModel, saved_model_entry. cbv zeta.
  destruct settings as [s|]; [|reflexivity].
  destruct (online_provider_models s) as [models|]; [|reflexivity].
  now intros ->.
Qed.

Lemma onlineModel_savedModel settings : onlineModel settings = savedModel settings.
Proof. reflexivity. Qed.

(** X27. [TranslateToEnglish] and [OnlineProviderSettings] resolve the
    same model from every settings value; a model saved for the selected
    provider is the one used, whatever it is. *)
Theorem components_agree_on_the_model (settings : option AppSettings) :
  onlineModel settings = savedModel settings /\
  (forall m, saved_model_entry settings = Some m -> savedModel settings = m).
Proof.
  split; [apply onlineModel_savedModel|]. intros m. apply savedModel_saved.
Qed.

Lemma components_agree_on_the_model_witness :
  savedModel
    (Some {| post_process_enabled := None; use_online_provider := Some true;
             debug_mode := None; online_provider_id := Some "groq";
             online_provider_models := Some {[ "groq" := "whisper-large-v3" ]} |})
  = "whisper-large-v3".
Proof.
  apply (proj2 (components_agree_on_the_model
                  (Some {| post_process_enabled := None; use_online_provider := Some true;
                           debug_mode := None; online_provider_id := Some "groq";
                           online_provider_models := Some {[ "groq" := "whisper-large-v3" ]} |}))).
  vm_compute. reflexivity.
Defined.

(** X28. With no model saved for the selected provider, and the provider
    one of the three offered, the model shown as selected is one of the
    options of the model dropdown; it is a Whisper model for every
    provider but Gemini. *)
Theorem default_model_is_an_option (settings : option AppSettings) :
  saved_model_entry settings = None ->
  In (selectedProviderId settings) (map fst ONLINE_PROVIDERS) ->
  In (savedModel settings) (map fst (modelOptions settings)) /\
  (isWhisperModel settings = true <-> selectedProviderId settings <> "gemini").
Proof.
  intros Hnone Hin.
  unfold isWhisperModel, modelOptions.
  change (onlineModel settings) with (savedModel settings).
  rewrite (savedModel_default settings Hnone).
  cbn [map fst ONLINE_PROVIDERS In] in Hin.
  destruct Hin as [<-|[<-|[<-|[]]]]; (split; [cbn; tauto|]).
  - split; [discriminate | reflexivity].
  - split; [discriminate | reflexivity].
  - split; [discriminate | intros H; now destruct H].
Qed.

Lemma default_model_is_an_option_witness :
  In (savedModel None) (map fst (modelOptions None)).
Proof.
  apply (default_model_is_an_option None).
  - reflexivity.
  - left. reflexivity.
Defined.

(** ** Onboarding *)

Lemma insert_by_size_perm m l : Permutation (insert_by_size m l) (m :: l).
Proof.
  induction l as [|x l IH]; cbn [insert_by_size]; [reflexivity|].
  destruct (size_mb m <=? size_mb x); [reflexivity|].
  rewrite IH. apply perm_swap.
Qed.

Lemma sort_by_size_perm l : Permutation (sort_by_size l) l.
Proof.
  induction l as [|m l IH]; cbn [sort_by_size]; [reflexivity|].
  rewrite insert_by_size_perm. now constructor.
Qed.

Lemma insert_by_size_sorted m l :
  StronglySorted smaller l -> StronglySorted smaller (insert_by_size m l).
Proof.
  induction 1 as [|x l Hl IH Hx]; cbn [insert_by_size].
  - repeat constructor.
  - destruct (Z.leb_spec (size_mb m) (size_mb x)) as [Hle|Hgt].
    + constructor; [now constructor|]. constructor; [exact Hle|].
      rewrite List.Forall_forall in *. intros y Hy. unfold smaller in *.
      specialize (Hx y Hy). lia.
    + constructor; [exact IH|].
      rewrite List.Forall_forall. intros y Hy.
      apply (Permutation_in _ (insert_by_size_perm m l)) in Hy.
      destruct Hy as [<-|Hy]; [unfold smaller; lia|].
      rewrite List.Forall_forall in Hx. now apply Hx.
Qed.

Lemma sort_by_size_sorted l : StronglySorted smaller (sort_by_size l).
Proof.
  induction l as [|m l IH]; cbn [sort_by_size]; [constructor|].
  now apply insert_by_size_sorted.
Qed.

Lemma filter_partition {A} (p : A -> bool) l :
  Permutation (List.filter p l ++ List.filter (fun x => negb (p x)) l) l.
Proof.
  induction l as [|x l IH]; [reflexivity|]. cbn [List.filter].
  destruct (p x); cbn [negb app].
  - now constructor.
  - rewrite <- Permutation_middle. now constructor.
Qed.

(** X29. The cards of the onboarding screen, the featured ones followed by
    the others, are the models that are not downloaded, each shown once;
    the featured cards are those of the recommended model, and the others
    are in ascending order of size. *)
Theorem onboarding_cards (data : list ModelInfo) :
  let available := loadModels data in
  Permutation (featuredModels available ++ otherModels available) available /\
  (forall m, In m (featuredModels available ++ otherModels available) <->
             In m data /\ is_downloaded m = false) /\
  Forall (fun m => id m = "parakeet-tdt-0.6b-v3") (featuredModels available) /\
  Forall (fun m => id m <> "parakeet-tdt-0.6b-v3") (otherModels available) /\
  StronglySorted smaller (otherModels available).
Proof.
  cbv zeta. set (available := loadModels data).
  assert (Hperm : Permutation (featuredModels available ++ otherModels available) available).
  { unfold featuredModels, otherModels. rewrite sort_by_size_perm.
    apply (filter_partition (fun model => getRecommendedBadge (id model))). }
  split; [exact Hperm|]. split; [|split; [|split]].
  - intros m. split.
    + intros H. apply (Permutation_in _ Hperm) in H.
      unfold available, loadModels in H. apply List.filter_In in H as [H1 H2].
      split; [exact H1 | now apply negb_true_iff].
    + intros [H1 H2]. apply (Permutation_in _ (Permutation_sym Hperm)).
      unfold available, loadModels. apply List.filter_In. split; [exact H1|].
      now rewrite H2.
  - unfold featuredModels. rewrite List.Forall_forall. intros m Hm.
    apply List.filter_In in Hm as [_ Hm]. now apply String.eqb_eq.
  - unfold otherModels. rewrite List.Forall_forall. intros m Hm.
    apply (Permutation_in _ (sort_by_size_perm _)) in Hm.
    apply List.filter_In in Hm as [_ Hm]. apply negb_true_iff in Hm.
    now apply String.eqb_neq.
  - apply sort_by_size_sorted.
Qed.

End PanelsExtras.
